(** * Verification of the speech utilities

    Two scripts are modelled:
    - [azure_ssml_to_wav.py]: prolog normalisation, extraction of the
      [<speak>] root, splitting along [<voice>] blocks, the synthesis retry
      loop, the concatenation of WAV parts, and the steps of [main] that
      lead from one to the next;
    - [azure_speech_to_text.py]: credential selection, the recognition
      callback, the choice of output formats and the rendering of
      recognised segments as text, SRT and WebVTT.

    Python [str] values that go through the [re] module are lists of
    Unicode code points; the regular expressions of the source are
    translated to a small abstract syntax and run by a backtracking matcher
    that explores alternatives in the order of Python's engine. *)

From Stdlib Require Import ZArith NArith QArith List String Ascii Lia Bool Lqa.
From stdpp Require Import gmap strings list.

Local Open Scope Z_scope.

(** ** Unicode text *)

Module Unicode.

(** A Python [str]: a sequence of code points. *)
Definition text := list N.

(** What the Unicode database says about code points outside ASCII that
    [\b] has to consult.  It is the only part of the database the source's
    patterns depend on that is not written out below. *)
Class WordTable := { unicode_word : N -> bool }.

(** Everything outside ASCII counted as a non-word character: adequate
    for ASCII-only inputs, where the table is never consulted. *)
Definition ascii_words : WordTable := {| unicode_word := fun _ => false |}.

Definition of_ascii (a : ascii) : N := N_of_ascii a.

Definition of_string (s : string) : text :=
  List.map of_ascii (list_ascii_of_string s).

(** [\s] on [str] patterns: the code points for which
    [Py_UNICODE_ISSPACE] holds. *)
Definition is_space (c : N) : bool :=
  ((9 <=? c) && (c <=? 13) || (28 <=? c) && (c <=? 32)
   || (c =? 133) || (c =? 160) || (c =? 5760)
   || (8192 <=? c) && (c <=? 8202)
   || (c =? 8232) || (c =? 8233) || (c =? 8239) || (c =? 8287)
   || (c =? 12288))%N.

Definition is_ascii_upper (c : N) : bool := ((65 <=? c) && (c <=? 90))%N.
Definition is_ascii_lower (c : N) : bool := ((97 <=? c) && (c <=? 122))%N.
Definition is_ascii_digit (c : N) : bool := ((48 <=? c) && (c <=? 57))%N.

(** [\w]: alphanumeric or underscore. *)
Definition is_word `{WordTable} (c : N) : bool :=
  if (c <? 128)%N
  then is_ascii_upper c || is_ascii_lower c || is_ascii_digit c || (c =? 95)%N
  else unicode_word c.

(** A lower-case ASCII letter [p] of a pattern compiled with [re.I]
    matches [p], its upper-case form and the code points whose simple
    lower-case mapping falls in the case-equivalence class of [p]
    (U+017F for s, U+212A for k, U+0130 and U+0131 for i). *)
Definition ci_match (p x : N) : bool :=
  ((x =? p) || (is_ascii_lower p && (x + 32 =? p))
   || ((p =? 115) && (x =? 383))
   || ((p =? 107) && (x =? 8490))
   || ((p =? 105) && ((x =? 304) || (x =? 305))))%N.

(** U+FEFF *)
Definition BOM : N := 65279%N.
(** "\n" *)
Definition LF : N := 10%N.

End Unicode.

(** ** The fragment of [re] the source uses *)

Module Re.
Import Unicode.

(** One-character matchers. *)
Inductive cclass :=
| Lit (c : N)          (* a literal, case-sensitive *)
| LitI (c : N)         (* a lower-case letter under re.I *)
| Space                (* \s *)
| Not (c : N)          (* [^c] *)
| Any.                 (* . under re.S *)

Inductive item :=
| One (c : cclass)
| Star (c : cclass)        (* c*   greedy *)
| LazyStar (c : cclass)    (* c*?  non-greedy *)
| WordB                    (* \b *)
| Bol.                     (* ^ without re.M *)

Definition regex := list item.

Definition accepts (c : cclass) (x : N) : bool :=
  match c with
  | Lit p => (x =? p)%N
  | LitI p => ci_match p x
  | Space => is_space x
  | Not p => negb (x =? p)%N
  | Any => true
  end.

Section Matcher.
Context `{WordTable}.

Definition word_opt (o : option N) : bool :=
  match o with Some c => is_word c | None => false end.

(** [\b] holds between a word character and a non-word character, the
    outside of the string counting as non-word. *)
Definition at_boundary (prev : option N) (s : text) : bool :=
  xorb (word_opt prev) (word_opt (head s)).

(** [match_here r prev s] runs [r] at the front of [s], where [prev] is
    the character before it ([None] at the start of the string), and
    returns what is left of [s] after the first match in backtracking
    order. *)
Fixpoint match_here (r : regex) : option N -> text -> option text :=
  match r with
  | [] => fun _ s => Some s
  | One c :: r' => fun _ s =>
      match s with
      | x :: s' => if accepts c x then match_here r' (Some x) s' else None
      | [] => None
      end
  | Star c :: r' =>
      fix greedy (prev : option N) (s : text) {struct s} : option text :=
        match s with
        | x :: s' =>
            if accepts c x
            then match greedy (Some x) s' with
                 | Some rest => Some rest
                 | None => match_here r' prev s
                 end
            else match_here r' prev s
        | [] => match_here r' prev s
        end
  | LazyStar c :: r' =>
      fix lazy (prev : option N) (s : text) {struct s} : option text :=
        match match_here r' prev s with
        | Some rest => Some rest
        | None =>
            match s with
            | x :: s' => if accepts c x then lazy (Some x) s' else None
            | [] => None
            end
        end
  | WordB :: r' => fun prev s =>
      if at_boundary prev s then match_here r' prev s else None
  | Bol :: r' => fun prev s =>
      match prev with
      | None => match_here r' prev s
      | Some _ => None
      end
  end.

(** The matched text, given what is left. *)
Definition matched (s rest : text) : text :=
  take (length s - length rest)%nat s.

(** A match object: the text before the match, the match ([group(0)])
    and the text after it. *)
Record match_obj := MatchObj { before : text; group0 : text; after : text }.

Definition m_start (m : match_obj) : nat := length (before m).
Definition m_end (m : match_obj) : nat := (length (before m) + length (group0 m))%nat.

(** [re.search]: the leftmost position with a match. [seen] is the text
    already scanned, in reverse. *)
Fixpoint search_from (r : regex) (seen : text) (s : text) : option match_obj :=
  match match_here r (head seen) s with
  | Some rest => Some (MatchObj (rev seen) (matched s rest) rest)
  | None =>
      match s with
      | x :: s' => search_from r (x :: seen) s'
      | [] => None
      end
  end.

Definition search (r : regex) (s : text) : option match_obj :=
  search_from r [] s.

(** Where a scan stands at one position: inside the previous match
    ([skip] characters of it are still ahead), or free to try a match,
    whose length is then returned. *)
Definition match_len (r : regex) (prev : option N) (skip : nat) (s : text)
  : option nat :=
  match skip with
  | O => match match_here r prev s with
         | Some rest => Some (length s - length rest)%nat
         | None => None
         end
  | S _ => None
  end.

(** [re.sub(r, '', s)]: every non-overlapping match, from left to
    right, is removed. *)
Fixpoint sub_from (r : regex) (prev : option N) (skip : nat) (s : text) : text :=
  match match_len r prev skip s with
  | Some n =>
      match s with
      | x :: s' =>
          match n with
          | O => x :: sub_from r (Some x) O s'
          | S k => sub_from r (Some x) k s'
          end
      | [] => []
      end
  | None =>
      match s with
      | x :: s' =>
          match skip with
          | O => x :: sub_from r (Some x) O s'
          | S k => sub_from r (Some x) k s'
          end
      | [] => []
      end
  end.

Definition sub (r : regex) (s : text) : text := sub_from r None O s.

(** [re.findall] with one group spanning the whole pattern: the
    non-overlapping matches from left to right.  [skip] counts the
    characters of the previous match still to be passed over. *)
Fixpoint findall_from (r : regex) (prev : option N) (skip : nat) (s : text)
  : list text :=
  match match_len r prev skip s with
  | Some n =>
      take n s ::
        match s with
        | x :: s' => findall_from r (Some x) (pred n) s'
        | [] => []
        end
  | None =>
      match s with
      | x :: s' => findall_from r (Some x) (pred skip) s'
      | [] => []
      end
  end.

Definition findall (r : regex) (s : text) : list text :=
  findall_from r None O s.

End Matcher.

(** Pattern builders. *)
Definition lits (s : string) : regex := List.map (fun c => One (Lit c)) (of_string s).
Definition litsI (s : string) : regex := List.map (fun c => One (LitI c)) (of_string s).

End Re.

(** ** Exceptions of the scripts *)

Inductive exn :=
| ValueError (msg : string)
| RuntimeError (msg : string)
| TypeError (msg : string)
| FileNotFoundError (path : string)
| SystemExit (msg : string)
| WaveError (msg : string)     (* wave.Error *)
| EOFError
| StructError.                 (* struct.error; its message names the field
                                  that overflowed *)

(** ** azure_ssml_to_wav.py: normalisation and splitting *)

Module SsmlToWav.
Import Unicode Re.

Definition LT : N := 60%N.   (* "<" *)
Definition GT : N := 62%N.   (* ">" *)
Definition SLASH : N := 47%N.

(** r'^\s*<\?xml[^>]*\?>\s*' with re.S *)
Definition xml_prolog_re : regex :=
  [Bol; Star Space] ++ lits "<?xml" ++ [Star (Not GT)] ++ lits "?>" ++ [Star Space].

(** r'^\s*<!--.*?-->\s*' with re.S *)
Definition top_comment_re : regex :=
  [Bol; Star Space] ++ lits "<!--" ++ [LazyStar Any] ++ lits "-->" ++ [Star Space].

(** r'<\s*speak\b[^>]*>' with re.I|re.S *)
Definition speak_open_re : regex :=
  [One (Lit LT); Star Space] ++ litsI "speak" ++ [WordB; Star (Not GT); One (Lit GT)].

(** r'</\s*speak\s*>' with re.I|re.S *)
Definition speak_close_re : regex :=
  lits "</" ++ [Star Space] ++ litsI "speak" ++ [Star Space; One (Lit GT)].

(** r'(?s)(<\s*voice\b[^>]*>.*?<\s*/\s*voice\s*>)' with re.I *)
Definition voice_block_re : regex :=
  [One (Lit LT); Star Space] ++ litsI "voice"
    ++ [WordB; Star (Not GT); One (Lit GT); LazyStar Any;
        One (Lit LT); Star Space; One (Lit SLASH); Star Space]
    ++ litsI "voice" ++ [Star Space; One (Lit GT)].

(** r"<\s*voice\b" with re.I *)
Definition voice_open_re : regex :=
  [One (Lit LT); Star Space] ++ litsI "voice" ++ [WordB].

(** s[i:j] for 0 <= i, j <= len(s) *)
Definition slice (i j : nat) (s : text) : text := take (j - i)%nat (drop i s).

(** "\n".join(l) *)
Fixpoint join_lines (l : list text) : text :=
  match l with
  | [] => []
  | [x] => x
  | x :: l' => x ++ LF :: join_lines l'
  end.

Definition strip_bom (ssml_text : text) : text :=
  match ssml_text with
  | c :: rest => if (c =? BOM)%N then rest else ssml_text
  | [] => ssml_text
  end.

Definition no_root_msg : string :=
  "Cannot find <speak> ... </speak> root. Please ensure the SSML has a single <speak> element.".

Section Splitter.
Context `{WordTable}.

(** [normalize_prolog]: strip a byte-order mark, then an XML declaration,
    then a comment. *)
Definition normalize_prolog (ssml_text : text) : text :=
  let ssml_text := strip_bom ssml_text in
  let ssml_text := sub xml_prolog_re ssml_text in
  let ssml_text := sub top_comment_re ssml_text in
  ssml_text.

(** [count_voice_elements] *)
Definition count_voice_elements (ssml : text) : nat :=
  length (findall voice_open_re ssml).

(** [extract_speak_body]: returns (open_tag, body, close_tag), or raises
    when one of the two tags is not found. *)
Definition extract_speak_body (ssml_text : text) : exn + (text * text * text) :=
  let txt := normalize_prolog ssml_text in
  match search speak_open_re txt, search speak_close_re txt with
  | Some m_open, Some m_close =>
      let open_tag := group0 m_open in
      let close_tag := group0 m_close in
      let inner := slice (m_end m_open) (m_start m_close) txt in
      inr (open_tag, inner, close_tag)
  | _, _ => inl (ValueError no_root_msg)
  end.

(** open_tag + "\n" + "\n".join(current) + "\n" + close_tag *)
Definition wrap (open_tag close_tag : text) (current : list text) : text :=
  open_tag ++ LF :: join_lines current ++ LF :: close_tag.

(** The blocks the loop runs over: the matches, or the whole body when
    there is none. *)
Definition voice_blocks_of (body : text) : list text :=
  match findall voice_block_re body with
  | [] => [body]
  | vbs => vbs
  end.

(** The loop of [split_ssml_by_voice], on the groups of blocks: the
    state is (groups flushed so far, current). *)
Definition group_step (max_voices : Z) (st : list (list text) * list text)
  (vb : text) : list (list text) * list text :=
  let '(groups, current) := st in
  let current := current ++ [vb] in
  if Z.of_nat (length current) >=? max_voices
  then (groups ++ [current], [])
  else (groups, current).

Definition group_blocks (max_voices : Z) (voice_blocks : list text)
  : list (list text) :=
  let '(groups, current) := fold_left (group_step max_voices) voice_blocks ([], []) in
  match current with
  | [] => groups
  | _ => groups ++ [current]
  end.

(** The loop as written: each flushed group is rendered at once. *)
Definition part_step (open_tag close_tag : text) (max_voices : Z)
  (st : list text * list text) (vb : text) : list text * list text :=
  let '(parts, current) := st in
  let current := current ++ [vb] in
  if Z.of_nat (length current) >=? max_voices
  then (parts ++ [wrap open_tag close_tag current], [])
  else (parts, current).

(** [split_ssml_by_voice] *)
Definition split_ssml_by_voice (ssml_text : text) (max_voices : Z)
  : exn + list text :=
  match extract_speak_body ssml_text with
  | inl e => inl e
  | inr (open_tag, body, close_tag) =>
      let voice_blocks := voice_blocks_of body in
      let '(parts, current) :=
        fold_left (part_step open_tag close_tag max_voices) voice_blocks ([], []) in
      inr match current with
          | [] => parts
          | _ => parts ++ [wrap open_tag close_tag current]
          end
  end.

End Splitter.
End SsmlToWav.

(** ** Rendering of Python values as text *)

Module PyStr.
Local Open Scope string_scope.

Definition NL : string := String (ascii_of_nat 10) "".
Definition TAB : string := String (ascii_of_nat 9) "".

Definition digit_char (d : Z) : ascii := ascii_of_nat (48 + Z.to_nat d).

(** Decimal digits of [n >= 0], most significant first; [fuel] bounds the
    number of digits after the first. *)
Fixpoint dec_digits (fuel : nat) (n : Z) (acc : string) : string :=
  let acc := String (digit_char (n mod 10)) acc in
  match fuel with
  | O => acc
  | S fuel' => if (n <? 10)%Z then acc else dec_digits fuel' (n / 10) acc
  end.

Definition str_of_nonneg (n : Z) : string :=
  dec_digits (Z.to_nat (Z.log2 n)) n "".

(** str(n) for an int *)
Definition str_of_int (n : Z) : string :=
  if (n <? 0)%Z then "-" ++ str_of_nonneg (- n) else str_of_nonneg n.

Fixpoint zeros (k : nat) : string :=
  match k with O => "" | S k' => String "0" (zeros k') end.

Definition zfill (width : nat) (s : string) : string :=
  zeros (width - String.length s) ++ s.

(** format(n, '0<width>d'): the sign counts in the width. *)
Definition format_0d (width : nat) (n : Z) : string :=
  if (n <? 0)%Z then "-" ++ zfill (width - 1) (str_of_nonneg (- n))
  else zfill width (str_of_nonneg n).

(** str((a, b, c)) for a tuple of ints *)
Definition str_of_triple (t : Z * Z * Z) : string :=
  let '(a, b, c) := t in
  "(" ++ str_of_int a ++ ", " ++ str_of_int b ++ ", " ++ str_of_int c ++ ")".

Definition lower_char (c : ascii) : ascii :=
  let n := nat_of_ascii c in
  if ((65 <=? n) && (n <=? 90))%nat then ascii_of_nat (n + 32) else c.

(** s.lower(), on ASCII text *)
Fixpoint lower (s : string) : string :=
  match s with
  | EmptyString => EmptyString
  | String c s' => String (lower_char c) (lower s')
  end.

(** needle in hay *)
Fixpoint contains (needle hay : string) : bool :=
  if String.prefix needle hay then true
  else match hay with
       | EmptyString => false
       | String _ hay' => contains needle hay'
       end.

(** The truth value of what os.environ.get returns. *)
Definition truthy (o : option string) : bool :=
  match o with
  | Some s => negb (String.eqb s "")
  | None => false
  end.
End PyStr.

(** ** azure_ssml_to_wav.py: the synthesis retry loop *)

Module Synthesis.
Import PyStr.
Local Open Scope string_scope.

(** What one call [synthesizer.speak_ssml_async(ssml_text).get()] does.
    For a cancelled result the loop builds
    [speechsdk.CancellationDetails(result)] outside its [try]: [details]
    is what that construction does on this result, raise an exception or
    give the details, of which the loop reads [str(error_code)] and
    [error_details]. *)
Inductive speak_result :=
| Raises                        (* the call raised an exception *)
| SynthesizingAudioCompleted    (* result.reason *)
| Canceled (details : exn + string * option string)
                                (* result.reason == Canceled *)
| OtherReason.                  (* any other result.reason *)

(** What the loop does that can be observed from outside. *)
Inductive event :=
| Speak (attempt : Z)
| Sleep (seconds : Q).

(** 1.5 * attempt *)
Definition backoff (attempt : Z) : Q := ((15 # 10) * inject_Z attempt)%Q.

Definition transient (code : string) (error_details : option string) : bool :=
  let err := match error_details with Some e => e | None => "" end in
  contains "ConnectionFailure" code || contains "timeout" (lower err).

(** The [while attempt <= retries] loop. [remote k] is the outcome of the
    call made on attempt [k]; [iterations] is the number of times the loop
    condition can still hold, [retries - attempt + 1].  The loop ends with
    an exception that escapes it or with the value it returns; the calls
    and waits made are recorded in both cases. *)
Fixpoint attempt_loop (remote : Z -> speak_result) (retries : Z)
  (iterations : nat) (attempt : Z) : (exn + bool) * list event :=
  match iterations with
  | O => (inr false, [])
  | S iterations' =>
      let attempt := attempt + 1 in
      match remote attempt with
      | Raises =>
          let '(r, evs) := attempt_loop remote retries iterations' attempt in
          (r, Speak attempt :: Sleep (backoff attempt) :: evs)
      | SynthesizingAudioCompleted => (inr true, [Speak attempt])
      | Canceled (inl e) => (inl e, [Speak attempt])
      | Canceled (inr (code, err)) =>
          if transient code err
          then
            if (attempt <=? retries)%Z
            then
              let '(r, evs) := attempt_loop remote retries iterations' attempt in
              (r, Speak attempt :: Sleep (backoff attempt) :: evs)
            else (inr false, [Speak attempt])
          else (inr false, [Speak attempt])
      | OtherReason =>
          let '(r, evs) := attempt_loop remote retries iterations' attempt in
          (r, Speak attempt :: evs)
      end
  end.

Definition not_installed_msg : string :=
  "azure-cognitiveservices-speech not installed. pip install azure-cognitiveservices-speech".

(** [synthesize_to_wav]: the value returned and what was done to get it,
    or the exception raised: the RuntimeError when the SDK could not be
    imported, or the exception that escaped the loop. *)
Definition synthesize_to_wav (sdk_installed : bool) (remote : Z -> speak_result)
  (retries : Z) : exn + bool * list event :=
  if sdk_installed
  then match attempt_loop remote retries (Z.to_nat (retries + 1)) 0 with
       | (inr ok, evs) => inr (ok, evs)
       | (inl e, _) => inl e
       end
  else inl (RuntimeError not_installed_msg).

(** The calls and waits of [synthesize_to_wav], also when it raises. *)
Definition synthesize_events (sdk_installed : bool) (remote : Z -> speak_result)
  (retries : Z) : list event :=
  if sdk_installed
  then (attempt_loop remote retries (Z.to_nat (retries + 1)) 0).2
  else [].

(** The attempts on which the remote call was made. *)
Definition speaks (evs : list event) : list Z :=
  omap (fun e => match e with Speak k => Some k | Sleep _ => None end) evs.
End Synthesis.

(** ** azure_ssml_to_wav.py: concatenation of WAV parts *)

Module Wav.
Import PyStr.
Local Open Scope string_scope.
Local Open Scope Z_scope.

(** What the [wave] module shows of a file it can read: the format
    parameters, and the frame data that readframes(getnframes()) returns. *)
Record wav_file := WavFile {
  nchannels : Z;
  sampwidth : Z;
  framerate : Z;
  frames : list Byte.byte
}.

(** A file as [wave.open(p, 'rb')] finds it: one it reads, or one on which
    it raises, wave.Error for a file that is not a WAVE file and EOFError
    for one that ends too early. *)
Inductive file :=
| WavData (w : wav_file)
| Unreadable (e : exn).

Definition params_of (w : wav_file) : Z * Z * Z :=
  (nchannels w, sampwidth w, framerate w).

(** f"WAV format mismatch in {p}: {cur} vs {params}" *)
Definition mismatch_msg (p : string) (cur params : Z * Z * Z) : string :=
  "WAV format mismatch in " ++ p ++ ": " ++ str_of_triple cur
    ++ " vs " ++ str_of_triple params.

(** The reading loop: state (params, data_frames). *)
Fixpoint read_parts (fs : gmap string file) (wav_paths : list string)
  (params : option (Z * Z * Z)) (data_frames : list (list Byte.byte))
  : exn + option (Z * Z * Z) * list (list Byte.byte) :=
  match wav_paths with
  | [] => inr (params, data_frames)
  | p :: rest =>
      match fs !! p with
      | None => inl (FileNotFoundError p)
      | Some (Unreadable e) => inl e
      | Some (WavData w) =>
          let cur := params_of w in
          match params with
          | None => read_parts fs rest (Some cur) (data_frames ++ [frames w])%list
          | Some expected =>
              if decide (cur = expected)
              then read_parts fs rest params (data_frames ++ [frames w])%list
              else inl (ValueError (mismatch_msg p cur expected))
          end
      end
  end.

(** The frame data a reader returns for a file whose header declares
    [declared] bytes of data and whose data are [data]: the whole frames
    among the declared bytes. *)
Definition readable_frames (ch sw declared : Z) (data : list Byte.byte)
  : list Byte.byte :=
  take (Z.to_nat (declared / (ch * sw) * (ch * sw))) data.

(** The header is packed by
    struct.pack('<L4s4sLHHLLHH4s', 36 + datalength, ..., nchannels,
    framerate, nchannels * framerate * sampwidth, nchannels * sampwidth,
    sampwidth * 8, ...): every number has to fit its unsigned field, of 32
    bits for L and 16 for H. *)
Definition header_fits (ch sw fr datalength : Z) : bool :=
  (36 + datalength <? 2 ^ 32) && (ch <? 2 ^ 16) && (fr <? 2 ^ 32)
  && (ch * fr * sw <? 2 ^ 32) && (ch * sw <? 2 ^ 16) && (sw * 8 <? 2 ^ 16).

(** What one writeframes leaves: [declared] is the data length that the
    header holds before the call and [written] the data in the file after
    it.  When the two differ the header is patched, which fails when the
    new length does not fit; the file then keeps its old header. *)
Definition patch_header (declared : Z) (written : list Byte.byte) : option Z :=
  if declared =? Z.of_nat (length written) then Some declared
  else if 36 + Z.of_nat (length written) <? 2 ^ 32
       then Some (Z.of_nat (length written))
       else None.

(** out.writeframes(frames) for each element of data_frames, then the
    close() of the with block, on a writer whose parameters are set.
    [declared] is the data length in the header, [None] as long as no
    header is written, and [data] what has been written after it.  The
    result is the exception that comes out, if any, and the file left at
    the output path.  The first writeframes writes the header, for the
    whole frames of its data; when the header cannot be packed, the close()
    that follows fails in the same way, and each of the two has written
    "RIFF" before. *)
Fixpoint write_frames (ch sw fr : Z) (data_frames : list (list Byte.byte))
  (declared : option Z) (data : list Byte.byte) : option exn * file :=
  match data_frames with
  | [] =>
      match declared with
      | None =>
          if header_fits ch sw fr 0
          then (None, WavData (WavFile ch sw fr []))
          else (Some StructError, Unreadable EOFError)
      | Some d =>
          match patch_header d data with
          | Some d' => (None, WavData (WavFile ch sw fr (readable_frames ch sw d' data)))
          | None => (Some StructError, WavData (WavFile ch sw fr (readable_frames ch sw d data)))
          end
      end
  | chunk :: rest =>
      let written := (data ++ chunk)%list in
      let header :=
        match declared with
        | Some d => Some d
        | None =>
            let d := Z.of_nat (length chunk) / (ch * sw) * (ch * sw) in
            if header_fits ch sw fr d then Some d else None
        end in
      match header with
      | None => (Some StructError, Unreadable (WaveError "not a WAVE file"))
      | Some d =>
          match patch_header d written with
          | Some d' => write_frames ch sw fr rest (Some d') written
          | None =>
              (Some StructError,
               WavData (WavFile ch sw fr (readable_frames ch sw d written)))
          end
      end
  end.

(** The with block that writes the output, the file being open for
    writing and so empty.  A setter that refuses its value raises inside
    the block; the close() of the block then raises in turn, for the
    parameter that was left unset, and it is this exception that comes
    out.  The file stays empty: reading it gives EOFError. *)
Definition write_wav (ch sw fr : Z) (data_frames : list (list Byte.byte))
  : option exn * file :=
  if ch <? 1
  then (Some (WaveError "# channels not specified"), Unreadable EOFError)
  else if (sw <? 1) || (4 <? sw)
  then (Some (WaveError "sample width not specified"), Unreadable EOFError)
  else if fr <=? 0
  then (Some (WaveError "sampling rate not specified"), Unreadable EOFError)
  else write_frames ch sw fr data_frames None [].

(** [concat_wavs]: the exception raised, if any, and the files afterwards.
    Directories are not modelled.  The reading loop leaves params set when
    the list is not empty; were it None, the subscript would raise inside
    the with block and close() in turn, as for a refused parameter. *)
Definition concat_wavs (wav_paths : list string) (out_wav : string)
  (fs : gmap string file) : option exn * gmap string file :=
  match wav_paths with
  | [] => (Some (ValueError "No WAV parts to concatenate."), fs)
  | _ =>
      match read_parts fs wav_paths None [] with
      | inl e => (Some e, fs)
      | inr (None, _) =>
          (Some (WaveError "# channels not specified"),
           <[out_wav := Unreadable EOFError]> fs)
      | inr (Some (ch, sw, fr), data_frames) =>
          let '(e, f) := write_wav ch sw fr data_frames in
          (e, <[out_wav := f]> fs)
      end
  end.
End Wav.

(** ** Python floats

    A finite non-negative binary64 value [x] is represented by the integer
    [x * 2^1074]: every such value is a multiple of [2^-1074], the smallest
    subnormal.  Operations round to nearest, ties to even, to 53
    significant bits.  The times the scripts handle are non-negative, and
    no operation below can overflow on them. *)

Module PyFloat.

Definition float := Z.

(** The representation of 1.0. *)
Definition one : Z := 2 ^ 1074.

(** [a / d] rounded to the nearest integer, ties to even ([d > 0]). *)
Definition rne (a d : Z) : Z :=
  let q := a / d in
  let r := a mod d in
  if 2 * r <? d then q
  else if d <? 2 * r then q + 1
  else if Z.even q then q else q + 1.

(** The binary64 value nearest to [a / b], for [0 <= a] and [0 < b]: the
    quotient has [Z.log2 (a / b) + 1] bits before the point, of which 53
    are kept. *)
Definition fl (a b : Z) : float :=
  let k := Z.max 0 (Z.log2 (a / b) - 52) in
  rne a (b * 2 ^ k) * 2 ^ k.

(** Representable values. *)
Definition is_float (x : Z) : Prop :=
  0 <= x < 2 ^ 2098 /\ x mod 2 ^ (Z.max 0 (Z.log2 x - 52)) = 0.

(** float(n) for an int [n >= 0] *)
Definition of_int (n : Z) : float := fl (n * one) 1.

(** A value [m * 2^e] given by mantissa and exponent ([e >= -1074]). *)
Definition of_bits (m e : Z) : float := m * 2 ^ (e + 1074).

Definition fadd (x y : float) : float := fl (x + y) 1.
Definition fsub (x y : float) : float := fl (x - y) 1.
Definition fmul (x y : float) : float := fl (x * y) one.
Definition fdiv (x y : float) : float := fl (x * one) y.

(** int(x): truncation *)
Definition to_int (x : float) : Z := x / one.

(** math.floor as a float *)
Definition ffloor (x : float) : float := (x / one) * one.

(** round(x): nearest int, ties to even *)
Definition round (x : float) : Z := rne x one.

(** C's fmod, which is exact. *)
Definition fmod (vx wx : float) : float := Z.rem vx wx.

(** x % y for [0 <= x] and [0 < y]: fmod, with no sign to adjust. *)
Definition float_rem (vx wx : float) : float := fmod vx wx.

(** x // y for [0 <= x] and [0 < y], as float_divmod computes it. *)
Definition float_floor_div (vx wx : float) : float :=
  let md := fmod vx wx in
  let div := fdiv (fsub vx md) wx in
  if div =? 0 then 0
  else
    let floordiv := ffloor div in
    if one <? 2 * fsub div floordiv then fadd floordiv one else floordiv.

(** format(x, '0<width>.<prec>f'): the exact value rounded to [prec]
    decimals, ties to even, zero-padded to [width] characters. *)
Definition format_0f (width prec : nat) (x : float) : string :=
  let scaled := rne (x * 10 ^ Z.of_nat prec) one in
  let ipart := scaled / 10 ^ Z.of_nat prec in
  let fpart := scaled mod 10 ^ Z.of_nat prec in
  match prec with
  | O => PyStr.zfill width (PyStr.str_of_nonneg ipart)
  | _ =>
      PyStr.zfill width
        (PyStr.str_of_nonneg ipart ++ "." ++ PyStr.zfill prec (PyStr.str_of_nonneg fpart))%string
  end.

End PyFloat.

(** ** azure_speech_to_text.py *)

Module SpeechToText.
Import PyStr PyFloat.
Local Open Scope string_scope.

(** [sec_to_srt] *)
Definition sec_to_srt (t : float) : string :=
  let h := to_int (float_floor_div t (of_int 3600)) in
  let m := to_int (float_floor_div (float_rem t (of_int 3600)) (of_int 60)) in
  let s := to_int (float_rem t (of_int 60)) in
  let ms := round (fmul (fsub t (of_int (to_int t))) (of_int 1000)) in
  format_0d 2 h ++ ":" ++ format_0d 2 m ++ ":" ++ format_0d 2 s ++ "," ++ format_0d 3 ms.

(** [sec_to_vtt] *)
Definition sec_to_vtt (t : float) : string :=
  let h := to_int (float_floor_div t (of_int 3600)) in
  let m := to_int (float_floor_div (float_rem t (of_int 3600)) (of_int 60)) in
  let sec := float_rem t (of_int 60) in
  format_0d 2 h ++ ":" ++ format_0d 2 m ++ ":" ++ format_0f 6 3 sec.

(** {"start": ..., "end": ..., "text": ...} *)
Record segment := Segment { start : float; end_ : float; text : string }.

(** How the connection configuration is built. *)
Inductive speech_config :=
| FromEndpoint (subscription endpoint : string)
| FromRegion (subscription region : string).

Definition or_empty (o : option string) : string :=
  match o with Some s => s | None => "" end.

(** The credential part of [transcribe_one]. *)
Definition make_speech_config (environ : gmap string string)
  : exn + speech_config :=
  let speech_key := environ !! "SPEECH_KEY" in
  let speech_region := environ !! "SPEECH_REGION" in
  let speech_endpoint := environ !! "SPEECH_ENDPOINT" in
  if negb (truthy speech_key)
  then inl (SystemExit "缺少环境变量 SPEECH_KEY")
  else if negb (truthy speech_region || truthy speech_endpoint)
  then inl (SystemExit "缺少 SPEECH_REGION 或 SPEECH_ENDPOINT（二选一）")
  else if truthy speech_endpoint
  then inr (FromEndpoint (or_empty speech_key) (or_empty speech_endpoint))
  else inr (FromRegion (or_empty speech_key) (or_empty speech_region)).

(** The writes of the TXT branch. *)
Fixpoint txt_lines (segments : list segment) : string :=
  match segments with
  | [] => ""
  | s :: rest => text s ++ NL ++ txt_lines rest
  end.

(** The writes of the TSV branch. *)
Fixpoint tsv_rows (segments : list segment) : string :=
  match segments with
  | [] => ""
  | s :: rest =>
      format_0f 0 2 (start s) ++ TAB ++ format_0f 0 2 (end_ s) ++ TAB ++ text s ++ NL
        ++ tsv_rows rest
  end.

(** The writes of the SRT branch, [i] being the index [enumerate] gives. *)
Fixpoint srt_cues (i : Z) (segments : list segment) : string :=
  match segments with
  | [] => ""
  | s :: rest =>
      (str_of_int i ++ NL ++ sec_to_srt (start s) ++ " --> " ++ sec_to_srt (end_ s) ++ NL
        ++ text s ++ NL ++ NL)
        ++ srt_cues (i + 1) rest
  end.

(** The writes of the WebVTT branch after the header. *)
Fixpoint vtt_cues (segments : list segment) : string :=
  match segments with
  | [] => ""
  | s :: rest =>
      (sec_to_vtt (start s) ++ " --> " ++ sec_to_vtt (end_ s) ++ NL ++ text s ++ NL ++ NL)
        ++ vtt_cues rest
  end.

Definition srt_content (segments : list segment) : string := srt_cues 1 segments.
Definition vtt_content (segments : list segment) : string :=
  ("WEBVTT" ++ NL ++ NL) ++ vtt_cues segments.

(** The output part of [transcribe_one]: the files written, by extension,
    in the order they are written. *)
Definition transcribe_one_outputs (want_txt want_tsv want_srt want_vtt : bool)
  (segments : list segment) : list (string * string) :=
  match segments with
  | [] => []
  | _ =>
      ((if want_txt then [(".txt", txt_lines segments)] else [])
       ++ (if want_tsv
           then [(".tsv", ("start_s" ++ TAB ++ "end_s" ++ TAB ++ "text" ++ NL
                            ++ tsv_rows segments)%string)]
           else [])
       ++ (if want_srt then [(".srt", srt_content segments)] else [])
       ++ (if want_vtt then [(".vtt", vtt_content segments)] else []))%list
  end.
End SpeechToText.

(** ** Vocabulary of the statements *)

Module PyStrSpec.

(** The number a string of decimal digits denotes, continuing from [acc]. *)
Fixpoint digits_value (acc : Z) (s : string) : Z :=
  match s with
  | EmptyString => acc
  | String c s' => digits_value (10 * acc + (Z.of_nat (nat_of_ascii c) - 48)) s'
  end.
End PyStrSpec.

Module PrologSpec.
Import Unicode Re SsmlToWav.

(** [s] without the white space at its front. *)
Fixpoint lstrip (s : text) : text :=
  match s with
  | x :: s' => if is_space x then lstrip s' else s
  | [] => []
  end.

Fixpoint starts_with (p s : text) : bool :=
  match p, s with
  | [], _ => true
  | a :: p', b :: s' => (b =? a)%N && starts_with p' s'
  | _ :: _, [] => false
  end.

(** The text [a] of a comment <!--a-->: the first "-->" of the comment is
    the one that ends it. *)
Fixpoint closes_at_end (a : text) : bool :=
  match a with
  | [] => true
  | _ :: a' => negb (starts_with (of_string "-->") (a ++ of_string "--"))
               && closes_at_end a'
  end.

(** The patterns of [normalize_prolog] after their leading ^\s* *)
Definition xml_core : regex :=
  lits "<?xml" ++ [Star (Not GT)] ++ lits "?>" ++ [Star Space].
Definition comment_core : regex :=
  lits "<!--" ++ [LazyStar Any] ++ lits "-->" ++ [Star Space].

(** <?xml a?> *)
Definition xml_decl (a : text) : text := of_string "<?xml" ++ a ++ of_string "?>".

(** <!--a--> *)
Definition comment (a : text) : text := of_string "<!--" ++ a ++ of_string "-->".

Definition opt_text (f : text -> text) (o : option text) : text :=
  match o with Some a => f a | None => [] end.

(** [doc] preceded by an optional byte-order mark, an optional XML
    declaration and an optional comment, with white space [ws0] and [ws1]
    around the declaration. *)
Definition with_prolog (bom : bool) (ws0 : text) (decl : option text) (ws1 : text)
  (comm : option text) (doc : text) : text :=
  (if bom then [BOM] else []) ++ ws0 ++ opt_text xml_decl decl ++ ws1
    ++ opt_text comment comm ++ doc.

(** An XML declaration has no ">" before its end; a comment has no "-->"
    before its end. *)
Definition well_formed_prolog (ws0 : text) (decl : option text) (ws1 : text)
  (comm : option text) : Prop :=
  Forall (fun x => is_space x = true) ws0
  /\ Forall (fun x => is_space x = true) ws1
  /\ (forall a, decl = Some a -> GT ∉ a)
  /\ (forall a, comm = Some a -> closes_at_end a = true).

(** A document with nothing for [normalize_prolog] to strip. *)
Definition prolog_free `{WordTable} (doc : text) : Prop :=
  head doc <> Some BOM
  /\ match_here xml_prolog_re None doc = None
  /\ match_here top_comment_re None doc = None.

(** The document has no root: the open tag or the close tag is not found. *)
Definition no_root `{WordTable} (doc : text) : Prop :=
  search speak_open_re (normalize_prolog doc) = None
  \/ search speak_close_re (normalize_prolog doc) = None.

(** A closing root tag: "</", white space, "speak" in any letter case,
    white space, ">". *)
Definition is_close_tag (g : text) : Prop :=
  exists ws name ws',
    g = of_string "</" ++ ws ++ name ++ ws' ++ [GT]
    /\ Forall (fun x => is_space x = true) ws
    /\ Forall2 (fun x p => ci_match p x = true) name (of_string "speak")
    /\ Forall (fun x => is_space x = true) ws'.

(** A closing root tag occurs in [s]. *)
Definition has_close_tag (s : text) : Prop :=
  exists pre g post, s = pre ++ g ++ post /\ is_close_tag g.
End PrologSpec.

Module RootSpec.
Import Unicode Re SsmlToWav.

(** What [extract_speak_body] does with the normalised text. *)
Definition root_of `{WordTable} (txt : text) : exn + (text * text * text) :=
  match search speak_open_re txt, search speak_close_re txt with
  | Some m_open, Some m_close =>
      inr (group0 m_open, slice (m_end m_open) (m_start m_close) txt, group0 m_close)
  | _, _ => inl (ValueError no_root_msg)
  end.

(** A match found in [s], seen from [ws ++ s]. *)
Definition shift (ws : text) (m : match_obj) : match_obj :=
  MatchObj (ws ++ before m) (group0 m) (after m).
End RootSpec.

Module SplitSpec.
Import Unicode.

(** ceil(n / m) for positive [m] *)
Definition ceil_div (n m : Z) : Z := (n + m - 1) / m.

(** gap_0 ++ block_0 ++ gap_1 ++ block_1 ++ ... *)
Fixpoint weave (gaps blocks : list text) : text :=
  match gaps, blocks with
  | g :: gaps', b :: blocks' => g ++ b ++ weave gaps' blocks'
  | _, _ => []
  end.
End SplitSpec.

Module SynthesisSpec.
Import Synthesis.

(** The attempts [first], [first + 1], ... ([n] of them), each followed by
    its wait. *)
Fixpoint retried (first : Z) (n : nat) : list event :=
  match n with
  | O => []
  | S n' => Speak first :: Sleep (backoff first) :: retried (first + 1) n'
  end.
End SynthesisSpec.

Module WavSpec.
Import Wav.
Local Open Scope Z_scope.

(** What the writer of [wave] accepts, for [n] bytes of frame data:
    samples of one to four bytes, at least one channel, a positive frame
    rate, and numbers that fit the fields of the header. *)
Definition writable (ch sw fr n : Z) : Prop :=
  1 <= ch /\ 1 <= sw <= 4 /\ 1 <= fr
  /\ ch * sw < 2 ^ 16 /\ ch * fr * sw < 2 ^ 32 /\ 36 + n < 2 ^ 32.

(** The frame data of [w] are a whole number of frames of ch * sw bytes. *)
Definition whole_frames (ch sw : Z) (w : wav_file) : Prop :=
  (ch * sw | Z.of_nat (length (frames w))).
End WavSpec.

Module SrtFields.
Import PyFloat.

(** The milliseconds field as [sec_to_srt] computes it. *)
Definition srt_millis (t : float) : Z :=
  round (fmul (fsub t (of_int (to_int t))) (of_int 1000)).
End SrtFields.

Module SrtSpec.
Import PyStr.
Local Open Scope string_scope.

Definition is_digit (c : ascii) : bool :=
  let n := nat_of_ascii c in ((48 <=? n) && (n <=? 57))%nat.

(** The two decimal digits of [n < 100], the three of [n < 1000]. *)
Definition two_digits (n : Z) : string :=
  String (digit_char (n / 10)) (String (digit_char (n mod 10)) "").
Definition three_digits (n : Z) : string :=
  String (digit_char (n / 100)) (two_digits (n mod 100)).

(** The form HH:MM:SS,mmm: twelve characters, digits but for the two
    colons and the comma. *)
Definition is_srt_timestamp (s : string) : bool :=
  match list_ascii_of_string s with
  | [h1; h2; c1; m1; m2; c2; s1; s2; c3; f1; f2; f3] =>
      forallb is_digit [h1; h2; m1; m2; s1; s2; f1; f2; f3]
      && Ascii.eqb c1 ":" && Ascii.eqb c2 ":" && Ascii.eqb c3 ","
  | _ => false
  end.
End SrtSpec.

(** ** Example data *)

Module Examples.
Import PyStr PyFloat Synthesis SpeechToText.
Local Open Scope string_scope.

(** Two calls that raise, then a completed synthesis. *)
Definition flaky (attempt : Z) : speak_result :=
  if (attempt =? 1)%Z then Raises
  else if (attempt =? 2)%Z then Raises
       else SynthesizingAudioCompleted.

(** What [speechsdk.CancellationDetails] raises when it is given the
    result of a synthesis: a RuntimeError of the SDK's native layer.  The
    text stands for the SDK's message. *)
Definition sdk_error : exn := RuntimeError "<message of the SDK>".

(** A request the service cancels, on every attempt. *)
Definition rejected (attempt : Z) : speak_result := Canceled (inl sdk_error).

(** A call that raises, then a cancelled one. *)
Definition dropped (attempt : Z) : speak_result :=
  if (attempt =? 1)%Z then Raises else Canceled (inl sdk_error).

(** 1.5 and 3.25 *)
Definition t_1_5 : float := of_bits 3 (-1).
Definition t_3_25 : float := of_bits 13 (-2).

(** [{start 0.0, end 1.5, text "A"}, {start 1.5, end 3.25, text "B"}] *)
Definition two_segments : list segment :=
  [Segment 0 t_1_5 "A"; Segment t_1_5 t_3_25 "B"].

(** A body of three voice blocks with text between them. *)
Definition three_voices : Unicode.text :=
  Unicode.of_string "<speak><voice>a</voice>x<voice>b</voice>y<voice>c</voice></speak>".

(** Two mono parts and a stereo file. *)
Definition part1 : Wav.wav_file := Wav.WavFile 1 2 24000 [Byte.x01; Byte.x02].
Definition part2 : Wav.wav_file := Wav.WavFile 1 2 24000 [Byte.x03; Byte.x04].
Definition stereo : Wav.wav_file :=
  Wav.WavFile 2 2 24000 [Byte.x05; Byte.x06; Byte.x07; Byte.x08].

Definition disk : gmap string Wav.file :=
  <["p1.wav" := Wav.WavData part1]>
    (<["p2.wav" := Wav.WavData part2]> (<["st.wav" := Wav.WavData stereo]> ∅)).

(** Two files of five-byte samples, as a reader accepts them. *)
Definition wide1 : Wav.wav_file :=
  Wav.WavFile 1 5 8000 [Byte.x01; Byte.x02; Byte.x03; Byte.x04; Byte.x05].
Definition wide2 : Wav.wav_file :=
  Wav.WavFile 1 5 8000 [Byte.x06; Byte.x07; Byte.x08; Byte.x09; Byte.x0a].
Definition wide_disk : gmap string Wav.file :=
  <["w1.wav" := Wav.WavData wide1]> (<["w2.wav" := Wav.WavData wide2]> ∅).

(** A document with a root and one voice block, and one whose root is not
    closed. *)
Definition plain_doc : Unicode.text :=
  Unicode.of_string "<speak version='1.0'><voice name='a'>hello</voice></speak>".
Definition unclosed_doc : Unicode.text :=
  Unicode.of_string "<speak version='1.0'><voice name='a'>hello</voice>".
Definition open_only_doc : Unicode.text :=
  Unicode.of_string "<speak version='1.0'>hello".

(** 360000.0, a hundred hours, and 2047/2048 = 0.99951171875 *)
Definition t_100h : float := of_int 360000.
Definition t_2047_2048 : float := of_bits 2047 (-11).

(** The float nearest to 0.0005, which is a little above it. *)
Definition t_0_0005 : float := of_bits 4611686018427388 (-63).

(** An environment with the key, the region and the endpoint all set. *)
Definition both_set : gmap string string :=
  <["SPEECH_KEY" := "0123abcd"]>
    (<["SPEECH_REGION" := "canadacentral"]>
       (<["SPEECH_ENDPOINT" := "https://canadacentral.api.cognitive.microsoft.com/"]> ∅)).
End Examples.

(** ** Vocabulary for the patterns *)

Module ReSpec.
Import Unicode Re SsmlToWav.

(** The one-character matchers of a pattern. *)
Definition classes (r : regex) : list cclass :=
  omap (fun i => match i with
                 | One c | Star c | LazyStar c => Some c
                 | WordB | Bol => None
                 end) r.

(** No matcher of [r] accepts the character [c]. *)
Definition excludes (c : N) (r : regex) : bool :=
  forallb (fun cl => negb (accepts cl c)) (classes r).

(** A single tag: "<", then characters other than ">", then ">". *)
Definition is_tag (g : text) : Prop :=
  exists m, g = LT :: m ++ [GT] /\ GT ∉ m.
End ReSpec.

(** ** Measures of a synthesis trace *)


Module SynthesisMeasure.
Import Synthesis.

(** The attempts [first], [first + 1], ... ([n] of them). *)
Fixpoint attempts_from (first : Z) (n : nat) : list Z :=
  match n with
  | O => []
  | S n' => first :: attempts_from (first + 1) n'
  end.

End SynthesisMeasure.

(** ** azure_speech_to_text.py: the recognition callback and the format flags *)

Module Recognition.
Import PyStr PyFloat SpeechToText.
Local Open Scope string_scope.

(** evt.result.reason, as far as the callback tells the values apart. *)
Inductive result_reason := RecognizedSpeech | NoMatch | OtherResult.

(** evt.result: offset and duration are ints, in ticks of 100 ns. *)
Record recognition_result := RecognitionResult {
  reason : result_reason;
  offset : Z;
  duration : Z;
  result_text : string
}.

(** a / b for ints [0 <= a] and [0 < b]: the quotient, correctly rounded. *)
Definition int_true_div (a b : Z) : float := fl (a * one) b.

(** [on_recognized], on the list the closure appends to. *)
Definition on_recognized (segments : list segment) (res : recognition_result)
  : list segment :=
  match reason res with
  | RecognizedSpeech =>
      if negb (String.eqb (result_text res) "")
      then
        let start := int_true_div (offset res) 10000000 in
        let end_ := fadd start (int_true_div (duration res) 10000000) in
        (segments ++ [Segment start end_ (result_text res)])%list
      else segments
  | _ => segments
  end.

(** [segments] when the session stops, the results having come in this
    order. *)
Definition recognized_segments (results : list recognition_result) : list segment :=
  fold_left on_recognized results [].

(** The four flags [main] passes on. *)
Definition main_formats (txt tsv srt vtt : bool) : bool * bool * bool * bool :=
  let no_fmt := negb (txt || tsv || srt || vtt) in
  if no_fmt then (true, true, true, true) else (txt, tsv, srt, vtt).
End Recognition.

Module RecognitionSpec.
Import Recognition.
Local Open Scope string_scope.

(** The results the callback keeps: recognised speech with a text. *)
Definition kept (res : recognition_result) : bool :=
  match reason res with
  | RecognizedSpeech => negb (String.eqb (result_text res) "")
  | _ => false
  end.
End RecognitionSpec.

Module VttSpec.
Import PyStr PyFloat SrtSpec.
Local Open Scope string_scope.

(** The seconds field of [sec_to_vtt] in thousandths: t % 60 to three
    decimals. *)
Definition vtt_millis (t : float) : Z :=
  rne (float_rem t (of_int 60) * 1000) one.

(** The form HH:MM:SS.mmm *)
Definition is_vtt_timestamp (s : string) : bool :=
  match list_ascii_of_string s with
  | [h1; h2; c1; m1; m2; c2; s1; s2; c3; f1; f2; f3] =>
      forallb is_digit [h1; h2; m1; m2; s1; s2; f1; f2; f3]
      && Ascii.eqb c1 ":" && Ascii.eqb c2 ":" && Ascii.eqb c3 "."
  | _ => false
  end.
End VttSpec.

Module MainSpec.
Import PyStr PyFloat SpeechToText Recognition.
Local Open Scope string_scope.

(** What one file gives, from the flags of the command line and the
    results delivered: [main] chooses the formats, [transcribe_one]
    collects the segments and writes. *)
Definition main_outputs (txt tsv srt vtt : bool) (results : list recognition_result)
  : list (string * string) :=
  let '(want_txt, want_tsv, want_srt, want_vtt) := main_formats txt tsv srt vtt in
  transcribe_one_outputs want_txt want_tsv want_srt want_vtt
    (recognized_segments results).
End MainSpec.

(** ** More example data *)

Module MoreExamples.
Import PyStr PyFloat SpeechToText Recognition.
Local Open Scope string_scope.

(** Three results: speech at 0.5 s, silence, speech at 3.0000001 s. *)
Definition heard : list recognition_result :=
  [ RecognitionResult RecognizedSpeech 5000000 12345678 "hello";
    RecognitionResult NoMatch 20000000 0 "";
    RecognitionResult RecognizedSpeech 30000001 9999999 "world" ].

(** 3723.5 s: 1 h 2 min 3.5 s *)
Definition t_3723_5 : float := of_bits 7447 (-1).
End MoreExamples.

(** ** azure_ssml_to_wav.py: the steps of main *)

Module SsmlMain.
Import Unicode PyStr Synthesis SsmlToWav.
Local Open Scope string_scope.

(** a or b, on what os.getenv returns *)
Definition py_or (a b : option string) : option string :=
  if truthy a then a else b.

(** The credentials step of [main], which follows [ap.parse_args()]: the
    exit status for a missing key, or the key and the region the run goes
    on with.  The parsing of the command line is not modelled; on a bad
    command line it ends the run before this step, also with status 2. *)
Definition credentials (environ : gmap string string)
  : Z + option string * option string :=
  let key := py_or (environ !! "SPEECH_KEY") (environ !! "AZURE_SPEECH_KEY") in
  let region :=
    py_or (py_or (environ !! "SPEECH_REGION") (environ !! "AZURE_SPEECH_REGION"))
      (Some "canadacentral") in
  if negb (truthy key) then inl 2%Z else inr (key, region).

(** f"{stem}.part{i:02d}.ssml" *)
Definition part_name (stem : string) (i : Z) : string :=
  stem ++ ".part" ++ format_0d 2 i ++ ".ssml".

(** The file names of the loop over enumerate(parts, start=i), each with
    what is written to it. *)
Fixpoint name_parts {A : Type} (stem : string) (i : Z) (parts : list A)
  : list (string * A) :=
  match parts with
  | [] => []
  | p :: rest => (part_name stem i, p) :: name_parts stem (i + 1) rest
  end.

(** a < b on str: the first difference decides, a proper prefix is
    smaller. *)
Fixpoint str_lt (a b : string) : bool :=
  match a, b with
  | _, EmptyString => false
  | EmptyString, String _ _ => true
  | String x a', String y b' =>
      if (nat_of_ascii x <? nat_of_ascii y)%nat then true
      else if (nat_of_ascii y <? nat_of_ascii x)%nat then false
      else str_lt a' b'
  end.

(** How the loop over the parts ends. *)
Inductive run_result :=
| Exits (status : Z)
| Raised (e : exn)
| Completes (wav_parts : list string).

Section Parts.
(** str(wavs_dir / (pathlib.Path(pp).stem + ".wav")) *)
Variable wav_path_of : string -> string.
Variable sdk_installed : bool.
(** [remote k] is the service as it answers for the part at position [k]. *)
Variable remote : nat -> Z -> speak_result.

(** The loop over [part_paths], from position [k]: how it ends, and the
    calls and waits made, each with the position of its part.  An
    exception of [synthesize_to_wav] is not caught: it ends the run. *)
Fixpoint synthesize_parts (k : nat) (part_paths wav_parts : list string)
  : run_result * list (nat * event) :=
  match part_paths with
  | [] => (Completes wav_parts, [])
  | pp :: rest =>
      match synthesize_to_wav sdk_installed (remote k) 2 with
      | inl e =>
          (Raised e, List.map (pair k) (synthesize_events sdk_installed (remote k) 2))
      | inr (ok, evs) =>
          let trace := List.map (pair k) evs in
          if negb ok then (Exits 6, trace)
          else
            let '(r, trace') :=
              synthesize_parts (S k) rest (wav_parts ++ [wav_path_of pp])%list in
            (r, (trace ++ trace')%list)
      end
  end.
End Parts.

Section SplitStep.
Context `{WordTable}.

(** The split step: exit status 4 when the split raises, or the part
    files and their contents. *)
Definition split_step (stem : string) (ssml_text : text) (max_voices : Z)
  : Z + list (string * text) :=
  match split_ssml_by_voice ssml_text max_voices with
  | inl _ => inl 4%Z
  | inr parts => inr (name_parts stem 1 parts)
  end.
End SplitStep.
End SsmlMain.

Module SsmlMainSpec.
Import PyStr Synthesis SsmlMain.

(** What the synthesis of the part at position [k] comes to, the SDK being
    installed: the exception it raises or the value it returns. *)
Definition part_result (remote : nat -> Z -> speak_result) (k : nat) : exn + bool :=
  match synthesize_to_wav true (remote k) 2 with
  | inl e => inl e
  | inr (ok, _) => inr ok
  end.

(** The positions of the parts for which the service was called. *)
Definition called (trace : list (nat * event)) : list nat :=
  omap (fun e => match e with (k, Speak _) => Some k | _ => None end) trace.
End SsmlMainSpec.

(** * Properties *)

(** ** Decimal rendering *)

Module PyStrFacts.
Import PyStr PyStrSpec.

Lemma digit_char_code d : 0 <= d <= 9 -> Z.of_nat (nat_of_ascii (digit_char d)) = 48 + d.
Proof.
  intros Hd.
  assert (d = 0 \/ d = 1 \/ d = 2 \/ d = 3 \/ d = 4 \/ d = 5 \/ d = 6 \/ d = 7
          \/ d = 8 \/ d = 9) as Hcases by lia.
  repeat (destruct Hcases as [-> | Hcases]; [reflexivity|]). subst. reflexivity.
Qed.

(** With enough fuel for the digits of [n], they are all printed. *)
Lemma dec_digits_value fuel : forall n acc,
  0 <= n < 10 ^ Z.of_nat (S fuel) ->
  exists k : nat, forall v,
    digits_value v (dec_digits fuel n acc)
    = digits_value (v * 10 ^ Z.of_nat k + n) acc.
Proof.
  assert (forall n acc v, 0 <= n < 10 ->
            digits_value v (String (digit_char (n mod 10)) acc)
            = digits_value (v * 10 ^ Z.of_nat 1 + n) acc) as Hone.
  { intros n acc v Hn. cbn [digits_value].
    pose proof (Z.mod_pos_bound n 10 ltac:(lia)).
    rewrite digit_char_code by lia.
    rewrite Z.mod_small by lia. f_equal. change (10 ^ Z.of_nat 1) with 10. lia. }
  induction fuel as [|fuel IH]; intros n acc Hn.
  - exists 1%nat. intros v. apply Hone. exact Hn.
  - cbn [dec_digits]. destruct (n <? 10) eqn:E.
    + apply Z.ltb_lt in E. exists 1%nat. intros v. apply Hone. lia.
    + apply Z.ltb_ge in E.
      destruct (IH (n / 10) (String (digit_char (n mod 10)) acc)) as [k Hk].
      { split; [apply Z.div_pos; lia|].
        apply Z.div_lt_upper_bound; [lia|].
        rewrite (Nat2Z.inj_succ (S fuel)), Z.pow_succ_r in Hn by lia. lia. }
      exists (S k). intros v. rewrite Hk. cbn [digits_value].
      pose proof (Z.mod_pos_bound n 10 ltac:(lia)).
      rewrite digit_char_code by lia.
      pose proof (Z.div_mod n 10 ltac:(lia)).
      rewrite Nat2Z.inj_succ, Z.pow_succ_r by lia. f_equal. lia.
Qed.

Lemma fuel_enough n : 0 <= n -> n < 10 ^ Z.of_nat (S (Z.to_nat (Z.log2 n))).
Proof.
  intros Hn. pose proof (Z.log2_nonneg n) as Hl.
  rewrite Nat2Z.inj_succ, Z2Nat.id by lia.
  destruct (Z.eq_dec n 0) as [->|Hnz]; [reflexivity|].
  pose proof (Z.log2_spec n ltac:(lia)) as [_ Hlt].
  eapply Z.lt_le_trans; [exact Hlt|]. apply Z.pow_le_mono_l. lia.
Qed.

(** [str_of_nonneg] prints exactly [n]. *)
Lemma str_of_nonneg_value n : 0 <= n -> digits_value 0 (str_of_nonneg n) = n.
Proof.
  intros Hn. unfold str_of_nonneg.
  destruct (dec_digits_value (Z.to_nat (Z.log2 n)) n EmptyString) as [k Hk].
  { split; [lia | apply fuel_enough, Hn]. }
  rewrite Hk. reflexivity.
Qed.

End PyStrFacts.

(** ** The matcher *)

Module ReFacts.
Import Unicode Re SplitSpec.

Section Facts.
Context `{WordTable}.

Lemma match_here_star c r prev s :
  match_here (Star c :: r) prev s =
  match s with
  | x :: s' =>
      if accepts c x
      then match match_here (Star c :: r) (Some x) s' with
           | Some rest => Some rest
           | None => match_here r prev s
           end
      else match_here r prev s
  | [] => match_here r prev s
  end.
Proof. destruct s; reflexivity. Qed.

Lemma match_here_lazy c r prev s :
  match_here (LazyStar c :: r) prev s =
  match match_here r prev s with
  | Some rest => Some rest
  | None =>
      match s with
      | x :: s' => if accepts c x then match_here (LazyStar c :: r) (Some x) s' else None
      | [] => None
      end
  end.
Proof. destruct s; reflexivity. Qed.

(** What is left after a match is a suffix of the input. *)
Lemma match_here_suffix r : forall prev s rest,
  match_here r prev s = Some rest -> rest `suffix_of` s.
Proof.
  induction r as [|i r IH]; intros prev s rest.
  - simpl. intros [= <-]. reflexivity.
  - destruct i as [c|c|c| |].
    + destruct s as [|x s]; simpl; [discriminate|].
      destruct (accepts c x); [|discriminate].
      intros E. apply suffix_cons_r. eapply IH, E.
    + revert prev. induction s as [|x s IHs]; intros prev; rewrite match_here_star.
      * apply IH.
      * destruct (accepts c x); [|apply IH].
        destruct (match_here (Star c :: r) (Some x) s) eqn:E1; [|apply IH].
        intros [= <-]. apply suffix_cons_r. eapply IHs, E1.
    + revert prev. induction s as [|x s IHs]; intros prev; rewrite match_here_lazy.
      * destruct (match_here r prev []) eqn:E1; [|discriminate].
        intros [= <-]. eapply IH, E1.
      * destruct (match_here r prev (x :: s)) eqn:E1.
        -- intros [= <-]. eapply IH, E1.
        -- destruct (accepts c x); [|discriminate].
           intros E. apply suffix_cons_r. eapply IHs, E.
    + simpl. destruct (at_boundary prev s); [apply IH | discriminate].
    + simpl. destruct prev; [discriminate | apply IH].
Qed.

Lemma match_here_split r prev s rest :
  match_here r prev s = Some rest -> s = matched s rest ++ rest.
Proof.
  intros E. apply match_here_suffix in E as [m ->].
  unfold matched. rewrite length_app.
  replace (length m + length rest - length rest)%nat with (length m) by lia.
  rewrite take_app_length. reflexivity.
Qed.

(** A pattern that starts with a character consumes at least one. *)
Lemma match_here_one_shorter c r prev s rest :
  match_here (One c :: r) prev s = Some rest -> (length rest < length s)%nat.
Proof.
  destruct s as [|x s]; simpl; [discriminate|].
  destruct (accepts c x); [|discriminate].
  intros E. apply match_here_suffix, suffix_length in E. lia.
Qed.

(** *** findall *)

Lemma findall_from_weave r :
  (forall prev s rest, match_here r prev s = Some rest -> (length rest < length s)%nat) ->
  forall s prev skip, exists gaps tail,
    length gaps = length (findall_from r prev skip s)
    /\ drop skip s = weave gaps (findall_from r prev skip s) ++ tail.
Proof.
  intros Hne. induction s as [|x s IHs]; intros prev skip.
  - exists [], []. simpl. unfold match_len.
    destruct skip as [|k]; [|split; reflexivity].
    destruct (match_here r prev []) eqn:E; [|split; reflexivity].
    apply Hne in E. simpl in E. lia.
  - destruct skip as [|k].
    + cbn [findall_from match_len].
      destruct (match_here r prev (x :: s)) as [rest|] eqn:E.
      * pose proof (Hne _ _ _ E) as Hlt.
        destruct (length (x :: s) - length rest)%nat as [|n] eqn:En;
          [simpl in En, Hlt; lia|].
        cbn [Init.Nat.pred].
        destruct (IHs (Some x) n) as (gaps & tail & Hlen & Hdrop).
        exists ([] :: gaps), tail. split; [simpl; lia|].
        cbn [weave drop app]. rewrite <- app_assoc, <- Hdrop.
        symmetry. apply (take_drop (S n) (x :: s)).
      * cbn [Init.Nat.pred].
        destruct (IHs (Some x) O) as (gaps & tail & Hlen & Hdrop).
        cbn [drop] in *.
        destruct (findall_from r (Some x) 0 s) as [|b bs] eqn:EF.
        -- exists [], (x :: s). split; reflexivity.
        -- destruct gaps as [|g gaps]; [discriminate|].
           exists ((x :: g) :: gaps), tail. split; [exact Hlen|].
           cbn [weave] in *. rewrite Hdrop at 1. reflexivity.
    + cbn [findall_from match_len Init.Nat.pred drop].
      destruct (IHs (Some x) k) as (gaps & tail & Hlen & Hdrop).
      exists gaps, tail. split; assumption.
Qed.

(** *** sub with an anchored pattern *)

Lemma sub_from_bol_skip r : forall s x k,
  sub_from (Bol :: r) (Some x) k s = drop k s.
Proof.
  induction s as [|y s IHs]; intros x k.
  - destruct k; reflexivity.
  - destruct k as [|k]; simpl.
    + f_equal. rewrite (IHs y O). apply drop_0.
    + apply IHs.
Qed.

Lemma sub_bol r s :
  sub (Bol :: r) s =
  match match_here (Bol :: r) None s with
  | Some rest => rest
  | None => s
  end.
Proof.
  unfold sub. destruct s as [|x s].
  - simpl. destruct (match_here r None []) eqn:E; [|reflexivity].
    apply match_here_suffix, suffix_nil_inv in E. subst. reflexivity.
  - cbn [sub_from match_len].
    destruct (match_here (Bol :: r) None (x :: s)) as [rest|] eqn:E.
    + pose proof (match_here_split _ _ _ _ E) as Hs.
      unfold matched in Hs.
      destruct (length (x :: s) - length rest)%nat as [|n] eqn:En.
      * rewrite sub_from_bol_skip, drop_0. simpl in Hs. congruence.
      * rewrite sub_from_bol_skip.
        change (drop (S n) (x :: s) = rest).
        apply (app_inv_head (take (S n) (x :: s))).
        rewrite take_drop. exact Hs.
    + rewrite sub_from_bol_skip, drop_0. reflexivity.
Qed.

End Facts.
End ReFacts.

(** ** Normalisation of the prolog *)

Module PrologFacts.
Import Unicode Re SsmlToWav PrologSpec ReFacts.

Section Prolog.
Context `{WordTable}.

Lemma lstrip_app_space ws s :
  Forall (fun x => is_space x = true) ws -> lstrip (ws ++ s) = lstrip s.
Proof.
  induction 1 as [|x ws Hx _ IH]; simpl; [reflexivity|]. rewrite Hx. exact IH.
Qed.

Lemma lstrip_split s :
  exists ws, Forall (fun x => is_space x = true) ws /\ s = ws ++ lstrip s.
Proof.
  induction s as [|x s (ws & Hws & E)]; [exists []; split; [constructor|reflexivity]|].
  simpl. destruct (is_space x) eqn:Hx.
  - exists (x :: ws). split; [constructor; assumption|]. simpl. congruence.
  - exists []. split; [constructor | reflexivity].
Qed.

Lemma lstrip_idem s : lstrip (lstrip s) = lstrip s.
Proof.
  induction s as [|x s IH]; simpl; [reflexivity|].
  destruct (is_space x) eqn:Hx; [exact IH|]. simpl. rewrite Hx. reflexivity.
Qed.

Lemma space_not_lt x : is_space x = true -> (x =? LT)%N = false.
Proof.
  intros Hx. destruct (x =? LT)%N eqn:E; [|reflexivity].
  apply N.eqb_eq in E. subst. discriminate.
Qed.

(** \s* followed by a character that is not white space: the white space
    is passed over and nothing else is tried. *)
Lemma star_space_lstrip c r prev s :
  (forall x, is_space x = true -> accepts c x = false) ->
  match_here (Star Space :: One c :: r) prev s = match_here (One c :: r) None (lstrip s).
Proof.
  intros Hc. revert prev. induction s as [|x s IH]; intros prev.
  - reflexivity.
  - rewrite match_here_star. cbn [accepts lstrip].
    destruct (is_space x) eqn:Hx; [|reflexivity].
    rewrite IH.
    destruct (match_here (One c :: r) None (lstrip s)); [reflexivity|].
    simpl. rewrite (Hc x Hx). reflexivity.
Qed.

Lemma star_space_end prev s : match_here [Star Space] prev s = Some (lstrip s).
Proof.
  revert prev. induction s as [|x s IH]; intros prev; [reflexivity|].
  rewrite match_here_star. cbn [accepts lstrip].
  destruct (is_space x); [rewrite IH|]; reflexivity.
Qed.

Lemma anchored_lstrip c r s :
  (forall x, is_space x = true -> accepts c x = false) ->
  match_here (Bol :: Star Space :: One c :: r) None s
  = match_here (One c :: r) None (lstrip s).
Proof. intros Hc. apply (star_space_lstrip c r None s Hc). Qed.

Lemma sub_xml_prolog s :
  sub xml_prolog_re s =
  match match_here xml_core None (lstrip s) with
  | Some rest => rest
  | None => s
  end.
Proof.
  change xml_prolog_re with (Bol :: Star Space :: xml_core).
  rewrite sub_bol. change xml_core with (One (Lit LT) :: tail xml_core).
  rewrite anchored_lstrip; [reflexivity|]. intros x. apply space_not_lt.
Qed.

Lemma sub_top_comment s :
  sub top_comment_re s =
  match match_here comment_core None (lstrip s) with
  | Some rest => rest
  | None => s
  end.
Proof.
  change top_comment_re with (Bol :: Star Space :: comment_core).
  rewrite sub_bol. change comment_core with (One (Lit LT) :: tail comment_core).
  rewrite anchored_lstrip; [reflexivity|]. intros x. apply space_not_lt.
Qed.

(** [^>]* runs to the first ">" and gives back the "?" before it. *)
Lemma star_not_gt a : forall prev rest,
  GT ∉ a ->
  match_here (Star (Not GT) :: lits "?>" ++ [Star Space]) prev
    (a ++ of_string "?>" ++ rest)
  = Some (lstrip rest).
Proof.
  induction a as [|x a IH]; intros prev rest Ha.
  - change ([] ++ of_string "?>" ++ rest) with (63 :: 62 :: rest)%N.
    rewrite match_here_star. cbn [accepts]. change (negb (63 =? GT)%N) with true.
    cbv iota. rewrite match_here_star. cbn [accepts].
    change (negb (62 =? GT)%N) with false. cbv iota.
    change (match_here (lits "?>" ++ [Star Space]) (Some 63%N) (62%N :: rest))
      with (@None text).
    cbv iota. apply (star_space_end (Some 62%N) rest).
  - apply not_elem_of_cons in Ha as [Hx Ha].
    cbn [app]. rewrite match_here_star. cbn [accepts].
    assert ((x =? GT)%N = false) as -> by (apply N.eqb_neq; congruence).
    cbn [negb]. rewrite (IH (Some x) rest Ha). reflexivity.
Qed.

Lemma xml_core_decl a rest prev :
  GT ∉ a -> match_here xml_core prev (xml_decl a ++ rest) = Some (lstrip rest).
Proof.
  intros Ha. unfold xml_decl. rewrite <- !app_assoc.
  apply (star_not_gt a (Some 108%N) rest Ha).
Qed.

Lemma no_close_here a r prev rest :
  a <> [] ->
  starts_with (of_string "-->") (a ++ of_string "--") = false ->
  match_here (lits "-->" ++ r) prev (a ++ of_string "-->" ++ rest) = None.
Proof.
  intros Hne Hs.
  change (of_string "-->") with [45%N; 45%N; 62%N] in *.
  change (of_string "--") with [45%N; 45%N] in *.
  change (lits "-->") with [One (Lit 45%N); One (Lit 45%N); One (Lit 62%N)].
  destruct a as [|x [|y [|z a]]]; [congruence| | |];
    cbn [app starts_with match_here accepts] in Hs |- *.
  - destruct (x =? 45)%N; [|reflexivity]. reflexivity.
  - destruct (x =? 45)%N; [|reflexivity]. destruct (y =? 45)%N; reflexivity.
  - destruct (x =? 45)%N; [|reflexivity]. destruct (y =? 45)%N; [|reflexivity].
    destruct (z =? 62)%N; [discriminate | reflexivity].
Qed.

(** .*? stops at the first "-->". *)
Lemma lazy_to_close a : forall prev rest,
  closes_at_end a = true ->
  match_here (LazyStar Any :: lits "-->" ++ [Star Space]) prev
    (a ++ of_string "-->" ++ rest)
  = Some (lstrip rest).
Proof.
  induction a as [|x a IH]; intros prev rest Ha; rewrite match_here_lazy.
  - change (match_here (lits "-->" ++ [Star Space]) prev ([] ++ of_string "-->" ++ rest))
      with (match_here [Star Space] (Some 62%N) rest).
    rewrite star_space_end. reflexivity.
  - cbn [closes_at_end] in Ha. apply andb_true_iff in Ha as [Hhere Ha].
    apply negb_true_iff in Hhere.
    rewrite (no_close_here (x :: a) [Star Space] prev rest ltac:(discriminate) Hhere).
    cbn [app accepts]. apply IH, Ha.
Qed.

Lemma comment_core_comment a rest prev :
  closes_at_end a = true ->
  match_here comment_core prev (comment a ++ rest) = Some (lstrip rest).
Proof.
  intros Ha. unfold comment. rewrite <- !app_assoc.
  apply (lazy_to_close a (Some 45%N) rest Ha).
Qed.

Lemma xml_core_on_comment a rest prev :
  match_here xml_core prev (comment a ++ rest) = None.
Proof. reflexivity. Qed.

Lemma lstrip_decl a rest : lstrip (xml_decl a ++ rest) = xml_decl a ++ rest.
Proof. reflexivity. Qed.

Lemma lstrip_comment a rest : lstrip (comment a ++ rest) = comment a ++ rest.
Proof. reflexivity. Qed.

(** For a document with no prolog, the patterns do not match after its
    leading white space either. *)
Lemma prolog_free_cores doc :
  prolog_free doc ->
  match_here xml_core None (lstrip doc) = None
  /\ match_here comment_core None (lstrip doc) = None.
Proof.
  intros (_ & Hx & Hc). split.
  - rewrite <- Hx. change xml_prolog_re with (Bol :: Star Space :: One (Lit LT) :: tail xml_core).
    rewrite anchored_lstrip; [reflexivity|]. intros x. apply space_not_lt.
  - rewrite <- Hc.
    change top_comment_re with (Bol :: Star Space :: One (Lit LT) :: tail comment_core).
    rewrite anchored_lstrip; [reflexivity|]. intros x. apply space_not_lt.
Qed.

(** A document that begins, after optional white space, with a tag other
    than a declaration or a comment (its root tag, say) has no prolog. *)
Lemma tag_first_prolog_free doc x rest :
  head doc <> Some BOM ->
  lstrip doc = LT :: x :: rest ->
  x <> 63%N -> x <> 33%N ->
  prolog_free doc.
Proof.
  intros Hbom Hdoc Hq He. split; [exact Hbom|]. split.
  - change xml_prolog_re with (Bol :: Star Space :: One (Lit LT) :: tail xml_core).
    rewrite anchored_lstrip by (intros y; apply space_not_lt).
    rewrite Hdoc.
    change (One (Lit LT) :: tail xml_core)
      with (One (Lit LT) :: One (Lit 63%N) :: tail (tail xml_core)).
    cbn [match_here accepts]. change (LT =? LT)%N with true. cbv iota.
    apply N.eqb_neq in Hq. rewrite Hq. reflexivity.
  - change top_comment_re with (Bol :: Star Space :: One (Lit LT) :: tail comment_core).
    rewrite anchored_lstrip by (intros y; apply space_not_lt).
    rewrite Hdoc.
    change (One (Lit LT) :: tail comment_core)
      with (One (Lit LT) :: One (Lit 33%N) :: tail (tail comment_core)).
    cbn [match_here accepts]. change (LT =? LT)%N with true. cbv iota.
    apply N.eqb_neq in He. rewrite He. reflexivity.
Qed.

Lemma prolog_free_normalize doc : prolog_free doc -> normalize_prolog doc = doc.
Proof.
  intros Hfree. destruct (prolog_free_cores doc Hfree) as [Hx Hc].
  destruct Hfree as (Hbom & _ & _).
  unfold normalize_prolog.
  assert (strip_bom doc = doc) as ->.
  { destruct doc as [|x doc]; [reflexivity|]. simpl.
    destruct (x =? BOM)%N eqn:E; [|reflexivity].
    apply N.eqb_eq in E. subst. simpl in Hbom. congruence. }
  rewrite sub_xml_prolog, Hx, sub_top_comment, Hc. reflexivity.
Qed.

Lemma space_not_bom x : is_space x = true -> (x =? BOM)%N = false.
Proof.
  intros Hx. destruct (x =? BOM)%N eqn:E; [|reflexivity].
  apply N.eqb_eq in E. subst. discriminate.
Qed.

Lemma strip_bom_keeps s : head s <> Some BOM -> strip_bom s = s.
Proof.
  destruct s as [|x s]; [reflexivity|]. simpl. intros Hx.
  destruct (x =? BOM)%N eqn:E; [|reflexivity].
  apply N.eqb_eq in E. subst. congruence.
Qed.

Lemma head_space_app ws s :
  Forall (fun x => is_space x = true) ws ->
  head s <> Some BOM -> head (ws ++ s) <> Some BOM.
Proof.
  intros Hws Hs. destruct Hws as [|x ws Hx _]; [exact Hs|].
  simpl. intros [= ->]. discriminate.
Qed.

Lemma head_prolog ws0 decl ws1 comm doc :
  well_formed_prolog ws0 decl ws1 comm -> prolog_free doc ->
  head (ws0 ++ opt_text xml_decl decl ++ ws1 ++ opt_text comment comm ++ doc)
  <> Some BOM.
Proof.
  intros (H0 & H1 & _ & _) (Hdoc & _ & _).
  apply head_space_app; [exact H0|].
  destruct decl as [a|]; [discriminate|]. cbn [opt_text app].
  apply head_space_app; [exact H1|].
  destruct comm as [a|]; [discriminate|]. exact Hdoc.
Qed.

(** Up to leading white space, normalising a document with a prolog gives
    the document. *)
Lemma normalize_with_prolog bom ws0 decl ws1 comm doc :
  well_formed_prolog ws0 decl ws1 comm -> prolog_free doc ->
  lstrip (normalize_prolog (with_prolog bom ws0 decl ws1 comm doc)) = lstrip doc.
Proof.
  intros Hwf Hfree.
  pose proof (head_prolog ws0 decl ws1 comm doc Hwf Hfree) as Hhead.
  destruct (prolog_free_cores doc Hfree) as [Hx Hc].
  destruct Hwf as (H0 & H1 & Hdecl & Hcomm).
  unfold normalize_prolog, with_prolog.
  assert (strip_bom ((if bom then [BOM] else [])
                       ++ ws0 ++ opt_text xml_decl decl ++ ws1
                       ++ opt_text comment comm ++ doc)
          = ws0 ++ opt_text xml_decl decl ++ ws1 ++ opt_text comment comm ++ doc)
    as ->.
  { destruct bom; [reflexivity|]. apply strip_bom_keeps, Hhead. }
  rewrite sub_xml_prolog, sub_top_comment.
  rewrite (lstrip_app_space ws0) by assumption.
  destruct decl as [a|], comm as [b|]; cbn [opt_text app].
  - rewrite lstrip_decl, xml_core_decl by (apply Hdecl; reflexivity).
    rewrite lstrip_idem, (lstrip_app_space ws1), lstrip_comment by assumption.
    rewrite comment_core_comment by (apply Hcomm; reflexivity).
    apply lstrip_idem.
  - rewrite lstrip_decl, xml_core_decl by (apply Hdecl; reflexivity).
    rewrite lstrip_idem, (lstrip_app_space ws1) by assumption.
    rewrite Hc. rewrite lstrip_idem. reflexivity.
  - rewrite (lstrip_app_space ws1), lstrip_comment, xml_core_on_comment by assumption.
    rewrite (lstrip_app_space ws0), (lstrip_app_space ws1), lstrip_comment by assumption.
    rewrite comment_core_comment by (apply Hcomm; reflexivity).
    apply lstrip_idem.
  - rewrite (lstrip_app_space ws1), Hx by assumption.
    rewrite (lstrip_app_space ws0), (lstrip_app_space ws1), Hc by assumption.
    rewrite (lstrip_app_space ws0), (lstrip_app_space ws1) by assumption.
    reflexivity.
Qed.

End Prolog.
End PrologFacts.

(** ** The root element *)

Module RootFacts.
Import Unicode Re SsmlToWav PrologSpec RootSpec ReFacts PrologFacts.

Section Root.
Context `{WordTable}.

Lemma extract_speak_body_root ssml_text :
  extract_speak_body ssml_text = root_of (normalize_prolog ssml_text).
Proof. reflexivity. Qed.

Lemma shift_app ws ws' m : shift ws (shift ws' m) = shift (ws ++ ws') m.
Proof. unfold shift. simpl. rewrite app_assoc. reflexivity. Qed.

Lemma shift_nil m : shift [] m = m.
Proof. destruct m; reflexivity. Qed.

(** A search that has already scanned [seen] finds what a fresh search
    finds, further to the right. *)
Lemma search_from_seen c r : forall s seen,
  search_from (One c :: r) seen s = shift (rev seen) <$> search_from (One c :: r) [] s.
Proof.
  induction s as [|x s IH]; intros seen.
  - reflexivity.
  - cbn [search_from].
    change (match_here (One c :: r) (head seen) (x :: s))
      with (match_here (One c :: r) (head []) (x :: s)).
    destruct (match_here (One c :: r) (head []) (x :: s)) as [rest|].
    { cbn [fmap option_fmap option_map]. unfold shift. cbn [before group0 after rev].
      rewrite app_nil_r. reflexivity. }
    rewrite (IH (x :: seen)), (IH [x]).
    destruct (search_from (One c :: r) [] s) as [m|]; [|reflexivity].
    simpl. rewrite shift_app. reflexivity.
Qed.

(** Leading white space moves the matches of a pattern that starts with
    a non-space character, and changes nothing else. *)
Lemma search_skip_space c r ws s :
  (forall x, is_space x = true -> accepts c x = false) ->
  Forall (fun x => is_space x = true) ws ->
  search (One c :: r) (ws ++ s) = shift ws <$> search (One c :: r) s.
Proof.
  intros Hc. induction 1 as [|x ws Hx _ IH].
  - simpl. destruct (search (One c :: r) s) as [m|]; [|reflexivity].
    simpl. rewrite shift_nil. reflexivity.
  - unfold search in *. cbn [app search_from match_here]. rewrite (Hc x Hx).
    rewrite search_from_seen, IH.
    destruct (search_from (One c :: r) [] s) as [m|]; [|reflexivity].
    simpl. rewrite shift_app. reflexivity.
Qed.

Lemma slice_shift ws i j s :
  slice (length ws + i) (length ws + j) (ws ++ s) = slice i j s.
Proof.
  unfold slice. rewrite drop_app_add.
  replace (length ws + j - (length ws + i))%nat with (j - i)%nat by lia.
  reflexivity.
Qed.

Lemma root_of_space ws txt :
  Forall (fun x => is_space x = true) ws -> root_of (ws ++ txt) = root_of txt.
Proof.
  intros Hws. unfold root_of.
  change speak_open_re with (One (Lit LT) :: tail speak_open_re).
  change speak_close_re with (One (Lit LT) :: tail speak_close_re).
  rewrite !search_skip_space by (try assumption; intros x; apply space_not_lt).
  destruct (search (One (Lit LT) :: tail speak_open_re) txt) as [mo|]; [|reflexivity].
  destruct (search (One (Lit LT) :: tail speak_close_re) txt) as [mc|]; [|reflexivity].
  cbn [fmap option_fmap option_map]. unfold m_end, m_start, shift. cbn [before group0 after].
  rewrite !length_app, <- Nat.add_assoc, slice_shift. reflexivity.
Qed.

Lemma root_of_lstrip txt : root_of (lstrip txt) = root_of txt.
Proof.
  destruct (lstrip_split txt) as (ws & Hws & E).
  rewrite E at 2. symmetry. apply root_of_space, Hws.
Qed.

(** Where a search finds a match, the pattern matches. *)
Lemma search_from_somewhere r : forall s seen m,
  search_from r seen s = Some m ->
  exists pre post prev rest, s = pre ++ post /\ match_here r prev post = Some rest.
Proof.
  induction s as [|x s IH]; intros seen m; cbn [search_from].
  - destruct (match_here r (head seen) []) as [rest|] eqn:E; [|discriminate].
    intros _. exists [], [], (head seen), rest. split; [reflexivity | exact E].
  - destruct (match_here r (head seen) (x :: s)) as [rest|] eqn:E.
    + intros _. exists [], (x :: s), (head seen), rest. split; [reflexivity | exact E].
    + intros Hm. destruct (IH _ _ Hm) as (pre & post & prev & rest & -> & E').
      exists (x :: pre), post, prev, rest. split; [reflexivity | exact E'].
Qed.

(** What \s* takes is white space. *)
Lemma star_space_inv r : forall s prev rest,
  match_here (Star Space :: r) prev s = Some rest ->
  exists ws s' prev',
    s = ws ++ s' /\ Forall (fun x => is_space x = true) ws
    /\ match_here r prev' s' = Some rest.
Proof.
  induction s as [|x s IH]; intros prev rest; rewrite match_here_star.
  - intros E. exists [], [], prev. repeat split; [constructor | exact E].
  - destruct (accepts Space x) eqn:Hx.
    + destruct (match_here (Star Space :: r) (Some x) s) as [rest'|] eqn:E1.
      * intros [= <-]. destruct (IH _ _ E1) as (ws & s' & prev' & -> & Hws & E').
        exists (x :: ws), s', prev'. repeat split; [constructor; assumption | exact E'].
      * intros E. exists [], (x :: s), prev. repeat split; [constructor | exact E].
    + intros E. exists [], (x :: s), prev. repeat split; [constructor | exact E].
Qed.

Lemma one_inv c r prev s rest :
  match_here (One c :: r) prev s = Some rest ->
  exists x s', s = x :: s' /\ accepts c x = true /\ match_here r (Some x) s' = Some rest.
Proof.
  destruct s as [|x s]; cbn [match_here]; [discriminate|].
  destruct (accepts c x) eqn:Hx; [|discriminate].
  intros E. exists x, s. repeat split; assumption.
Qed.

(** What the pattern of the close tag matches is a closing root tag. *)
Lemma speak_close_re_tag prev s rest :
  match_here speak_close_re prev s = Some rest ->
  exists g, is_close_tag g /\ s = g ++ rest.
Proof.
  change speak_close_re
    with (One (Lit LT) :: One (Lit SLASH) :: Star Space
            :: One (LitI 115) :: One (LitI 112) :: One (LitI 101) :: One (LitI 97)
            :: One (LitI 107) :: Star Space :: [One (Lit GT)]).
  intros E.
  apply one_inv in E as (x0 & s0 & -> & H0 & E).
  apply one_inv in E as (x1 & s1 & -> & H1 & E).
  apply star_space_inv in E as (ws & s2 & p2 & -> & Hws & E).
  apply one_inv in E as (a & s3 & -> & Ha & E).
  apply one_inv in E as (b & s4 & -> & Hb & E).
  apply one_inv in E as (d & s5 & -> & Hd & E).
  apply one_inv in E as (e & s6 & -> & He & E).
  apply one_inv in E as (f & s7 & -> & Hf & E).
  apply star_space_inv in E as (ws' & s8 & p8 & -> & Hws' & E).
  apply one_inv in E as (x9 & s9 & -> & H9 & E).
  cbn [match_here] in E. injection E as ->.
  cbn [accepts] in H0, H1, H9. apply N.eqb_eq in H0, H1, H9. subst x0 x1 x9.
  exists (of_string "</" ++ ws ++ [a; b; d; e; f] ++ ws' ++ [GT]). split.
  - exists ws, [a; b; d; e; f], ws'. repeat split; try assumption.
    repeat constructor; assumption.
  - cbn [of_string list_ascii_of_string List.map app].
    change (of_ascii "<") with LT. change (of_ascii "/") with SLASH.
    do 2 f_equal. rewrite <- !app_assoc. f_equal. cbn [app].
    do 5 f_equal. rewrite <- app_assoc. reflexivity.
Qed.

(** The normalisation only removes a leading part of the text. *)
Lemma normalize_prolog_tail txt : exists k, txt = k ++ normalize_prolog txt.
Proof.
  assert (forall r s, sub (Bol :: r) s `suffix_of` s) as Hsub.
  { intros r s. rewrite sub_bol.
    destruct (match_here (Bol :: r) None s) eqn:E; [|reflexivity].
    eapply match_here_suffix, E. }
  assert (strip_bom txt `suffix_of` txt) as Hbom.
  { destruct txt as [|x s]; [reflexivity|]. simpl.
    destruct (x =? BOM)%N; [apply suffix_cons_r|]; reflexivity. }
  change (normalize_prolog txt `suffix_of` txt). unfold normalize_prolog.
  etransitivity; [apply (Hsub (tail top_comment_re))|].
  etransitivity; [apply (Hsub (tail xml_prolog_re))|]. exact Hbom.
Qed.

(** A text in which the close tag is found has a closing root tag. *)
Lemma search_close_tag txt m :
  search speak_close_re (normalize_prolog txt) = Some m -> has_close_tag txt.
Proof.
  intros Hm. destruct (normalize_prolog_tail txt) as [k Hk].
  destruct (search_from_somewhere _ _ _ _ Hm) as (pre & post & prev & rest & E & Hp).
  destruct (speak_close_re_tag _ _ _ Hp) as (g & Hg & ->).
  exists (k ++ pre), g, rest. split; [|exact Hg].
  rewrite Hk at 1. rewrite E, <- app_assoc. reflexivity.
Qed.

(** C6, amended: a document [doc] with nothing to strip, preceded by a
    byte-order mark, an XML declaration and one comment (each optional, in
    this order, with white space around the declaration), is split into
    the same chunks as [doc] alone; and a document in which the root open
    tag or the root close tag is not found makes the split raise the
    ValueError about the missing root, which is the case of every document
    that has no closing root tag in it. *)
Theorem prolog_is_ignored_and_root_required bom ws0 decl ws1 comm doc M :
  well_formed_prolog ws0 decl ws1 comm ->
  prolog_free doc ->
  split_ssml_by_voice (with_prolog bom ws0 decl ws1 comm doc) M
  = split_ssml_by_voice doc M
  /\ (forall other, no_root other ->
        split_ssml_by_voice other M = inl (ValueError no_root_msg))
  /\ (forall other, ~ has_close_tag other ->
        split_ssml_by_voice other M = inl (ValueError no_root_msg)).
Proof.
  intros Hwf Hfree.
  assert (forall other, no_root other ->
            split_ssml_by_voice other M = inl (ValueError no_root_msg)) as Hroot.
  { intros other Hno. unfold split_ssml_by_voice, extract_speak_body.
    destruct Hno as [-> | Hc]; [reflexivity|].
    rewrite Hc. destruct (search speak_open_re (normalize_prolog other)); reflexivity. }
  split; [|split; [exact Hroot|]].
  - unfold split_ssml_by_voice. rewrite !extract_speak_body_root.
    rewrite <- (root_of_lstrip (normalize_prolog (with_prolog _ _ _ _ _ _))).
    rewrite (normalize_with_prolog bom ws0 decl ws1 comm doc Hwf Hfree).
    rewrite root_of_lstrip, (prolog_free_normalize doc Hfree). reflexivity.
  - intros other Hno. apply Hroot. right.
    destruct (search speak_close_re (normalize_prolog other)) as [m|] eqn:Hm;
      [|reflexivity].
    exfalso. apply Hno. apply (search_close_tag other m Hm).
Qed.

End Root.
End RootFacts.

Module RootWitnesses.
Import Unicode Re SsmlToWav PrologSpec RootSpec RootFacts Examples.

Lemma prolog_is_ignored_and_root_required_witness :
  well_formed_prolog [] (Some (of_string " version='1.0' encoding='UTF-8'")) [LF]
    (Some (of_string " lesson 1 "))
  /\ prolog_free (H := ascii_words) plain_doc
  /\ split_ssml_by_voice (H := ascii_words)
       (with_prolog true [] (Some (of_string " version='1.0' encoding='UTF-8'")) [LF]
          (Some (of_string " lesson 1 ")) plain_doc) 48
     = split_ssml_by_voice (H := ascii_words) plain_doc 48
  /\ no_root (H := ascii_words) unclosed_doc
  /\ split_ssml_by_voice (H := ascii_words) unclosed_doc 48
     = inl (ValueError no_root_msg)
  /\ ~ has_close_tag open_only_doc
  /\ split_ssml_by_voice (H := ascii_words) open_only_doc 48
     = inl (ValueError no_root_msg).
Proof.
  assert (well_formed_prolog [] (Some (of_string " version='1.0' encoding='UTF-8'"))
            [LF] (Some (of_string " lesson 1 "))) as Hwf.
  { split; [constructor|]. split; [repeat constructor|]. split.
    - intros a [= <-]. apply (bool_decide_unpack _). vm_compute. reflexivity.
    - intros a [= <-]. reflexivity. }
  assert (prolog_free (H := ascii_words) plain_doc) as Hfree
    by (split; [discriminate|]; split; reflexivity).
  assert (no_root (H := ascii_words) unclosed_doc) as Hno by (right; reflexivity).
  assert (~ has_close_tag open_only_doc) as Hopen.
  { intros (pre & g & post & E & ws & name & ws' & -> & _).
    assert (SLASH ∈ open_only_doc) as Hin.
    { rewrite E. apply elem_of_app. right. apply elem_of_app. left.
      right. left. }
    revert Hin. apply (bool_decide_unpack _). vm_compute. reflexivity. }
  split; [exact Hwf|]. split; [exact Hfree|].
  destruct (prolog_is_ignored_and_root_required (H := ascii_words) true []
              (Some (of_string " version='1.0' encoding='UTF-8'")) [LF]
              (Some (of_string " lesson 1 ")) plain_doc 48
              Hwf Hfree) as (Hsame & Hroot & Hclose).
  split; [exact Hsame|]. split; [exact Hno|].
  split; [exact (Hroot unclosed_doc Hno)|].
  split; [exact Hopen | exact (Hclose open_only_doc Hopen)].
Defined.

(** The chunks of the example, with its prolog. *)
Example with_prolog_chunks :
  split_ssml_by_voice (H := ascii_words)
    (with_prolog true [] (Some (of_string " version='1.0' encoding='UTF-8'")) [LF]
       (Some (of_string " lesson 1 ")) plain_doc) 48
  = inr [of_string "<speak version='1.0'>" ++ [LF]
           ++ of_string "<voice name='a'>hello</voice>" ++ [LF] ++ of_string "</speak>"].
Proof. vm_compute. reflexivity. Qed.

(** The two places where the split is not what a reader expects.  A
    document behind two comments is not split as the document alone: the
    second comment stays, and the open tag written in it is taken for the
    root.  And a document whose close tag comes before its open tag, so
    that no open tag has a close tag after it, raises nothing: it gives
    one chunk with an empty body. *)
Lemma second_comment_and_tag_order :
  let doc := of_string "<speak new><voice>v</voice></speak>" in
  let variant := comment (of_string " a ") ++ comment (of_string " <speak old> ") ++ doc in
  split_ssml_by_voice (H := ascii_words) doc 48
  = inr [of_string "<speak new>" ++ [LF] ++ of_string "<voice>v</voice>" ++ [LF]
           ++ of_string "</speak>"]
  /\ split_ssml_by_voice (H := ascii_words) variant 48
     = inr [of_string "<speak old>" ++ [LF] ++ of_string "<voice>v</voice>" ++ [LF]
              ++ of_string "</speak>"]
  /\ split_ssml_by_voice (H := ascii_words) variant 48
     <> split_ssml_by_voice (H := ascii_words) doc 48
  /\ split_ssml_by_voice (H := ascii_words) (of_string "</speak><speak>") 48
     = inr [of_string "<speak>" ++ [LF; LF] ++ of_string "</speak>"]
  /\ split_ssml_by_voice (H := ascii_words) (of_string "</speak><speak>") 48
     <> inl (ValueError no_root_msg).
Proof.
  cbv zeta. repeat split; try (vm_compute; reflexivity); vm_compute; discriminate.
Qed.
End RootWitnesses.

(** ** Grouping of voice blocks *)

Module SplitFacts.
Import Unicode Re SsmlToWav.

Import SplitSpec.

Lemma ceil_div_spec n m q :
  0 < m -> (ceil_div n m = q <-> m * (q - 1) < n <= m * q).
Proof.
  intros Hm. unfold ceil_div. split.
  - intros <-.
    pose proof (Z.div_mod (n + m - 1) m ltac:(lia)) as E.
    pose proof (Z.mod_pos_bound (n + m - 1) m Hm) as B. nia.
  - intros [Hlo Hhi]. symmetry.
    apply (Z.div_unique _ _ _ (n + m - 1 - m * q)); lia.
Qed.

(** The rendering loop is the grouping loop followed by [wrap]. *)
Lemma fold_part_step o c M vbs : forall gs cur,
  fold_left (part_step o c M) vbs (List.map (wrap o c) gs, cur) =
  (List.map (wrap o c) (fold_left (group_step M) vbs (gs, cur)).1,
   (fold_left (group_step M) vbs (gs, cur)).2).
Proof.
  induction vbs as [|vb vbs IH]; intros gs cur; simpl; [reflexivity|].
  destruct (Z.of_nat (length (cur ++ [vb])) >=? M) eqn:E.
  - rewrite <- IH. f_equal. f_equal. rewrite List.map_app. reflexivity.
  - apply IH.
Qed.

(** Nothing is lost, reordered or duplicated by the loop. *)
Lemma group_fold_concat M vbs : forall gs cur,
  concat (fold_left (group_step M) vbs (gs, cur)).1
    ++ (fold_left (group_step M) vbs (gs, cur)).2
  = concat gs ++ cur ++ vbs.
Proof.
  induction vbs as [|vb vbs IH]; intros gs cur; simpl.
  - rewrite app_nil_r. reflexivity.
  - destruct (Z.of_nat (length (cur ++ [vb])) >=? M); rewrite IH.
    + rewrite concat_app. simpl. rewrite !app_nil_r, <- !app_assoc. reflexivity.
    + rewrite <- !app_assoc. reflexivity.
Qed.

(** With a positive maximum, a group is flushed when it has exactly
    [M] blocks, and fewer than [M] are pending. *)
Lemma group_fold_sizes M vbs : 1 <= M -> forall gs cur,
  Forall (fun g => Z.of_nat (length g) = M) gs ->
  Z.of_nat (length cur) < M ->
  Forall (fun g => Z.of_nat (length g) = M) (fold_left (group_step M) vbs (gs, cur)).1
  /\ Z.of_nat (length (fold_left (group_step M) vbs (gs, cur)).2) < M.
Proof.
  intros HM. induction vbs as [|vb vbs IH]; intros gs cur Hgs Hcur; simpl.
  - auto.
  - destruct (Z.of_nat (length (cur ++ [vb])) >=? M) eqn:E.
    + rewrite Z.geb_leb in E. apply Z.leb_le in E.
      apply IH; [|simpl; lia].
      apply Forall_app. split; [assumption|].
      constructor; [|constructor].
      rewrite length_app in *. simpl in *. lia.
    + rewrite Z.geb_leb in E. apply Z.leb_gt in E.
      apply IH; [assumption|]. lia.
Qed.

(** Whatever the maximum, no group is empty. *)
Lemma group_fold_nonempty M vbs : forall gs cur,
  Forall (fun g => g <> []) gs ->
  Forall (fun g => g <> []) (fold_left (group_step M) vbs (gs, cur)).1.
Proof.
  induction vbs as [|vb vbs IH]; intros gs cur Hgs; simpl; [assumption|].
  destruct (Z.of_nat (length (cur ++ [vb])) >=? M); apply IH; [|assumption].
  apply Forall_app. split; [assumption|].
  constructor; [|constructor]. destruct cur; discriminate.
Qed.

Lemma group_blocks_concat M vbs : concat (group_blocks M vbs) = vbs.
Proof.
  unfold group_blocks.
  pose proof (group_fold_concat M vbs [] []) as E.
  destruct (fold_left (group_step M) vbs ([], [])) as [gs cur]. simpl in E.
  destruct cur as [|x cur].
  - rewrite app_nil_r in E. exact E.
  - rewrite concat_app. simpl. rewrite app_nil_r. exact E.
Qed.

Lemma group_blocks_bounded M vbs :
  1 <= M -> Forall (fun g => Z.of_nat (length g) <= M) (group_blocks M vbs).
Proof.
  intros HM. unfold group_blocks.
  destruct (group_fold_sizes M vbs HM [] []) as [Hgs Hcur];
    [constructor | simpl; lia |].
  destruct (fold_left (group_step M) vbs ([], [])) as [gs cur]. simpl in *.
  assert (Forall (fun g => Z.of_nat (length g) <= M) gs) as Hle.
  { eapply Forall_impl; [exact Hgs|]. simpl. intros g Hg. lia. }
  destruct cur as [|x cur]; [exact Hle|].
  apply Forall_app. split; [exact Hle|].
  constructor; [lia | constructor].
Qed.

Lemma group_blocks_nonempty M vbs :
  Forall (fun g => g <> []) (group_blocks M vbs).
Proof.
  unfold group_blocks.
  pose proof (group_fold_nonempty M vbs [] [] ltac:(constructor)) as Hgs.
  destruct (fold_left (group_step M) vbs ([], [])) as [gs cur]. simpl in *.
  destruct cur as [|x cur]; [exact Hgs|].
  apply Forall_app. split; [exact Hgs|].
  constructor; [discriminate | constructor].
Qed.

Lemma length_concat_uniform {A} (M : Z) (gs : list (list A)) :
  Forall (fun g => Z.of_nat (length g) = M) gs ->
  Z.of_nat (length (concat gs)) = M * Z.of_nat (length gs).
Proof.
  induction 1 as [|g gs Hg _ IH]; simpl; [lia|].
  rewrite length_app. lia.
Qed.

Lemma group_blocks_count M vbs :
  1 <= M ->
  Z.of_nat (length (group_blocks M vbs)) = ceil_div (Z.of_nat (length vbs)) M.
Proof.
  intros HM. unfold group_blocks.
  destruct (group_fold_sizes M vbs HM [] []) as [Hgs Hcur];
    [constructor | simpl; lia |].
  pose proof (group_fold_concat M vbs [] []) as E.
  destruct (fold_left (group_step M) vbs ([], [])) as [gs cur]. simpl in *.
  apply (f_equal (fun l => Z.of_nat (length l))) in E.
  rewrite length_app, Nat2Z.inj_add, (length_concat_uniform M gs Hgs) in E.
  symmetry. apply ceil_div_spec; [lia|].
  destruct cur as [|x cur]; simpl in *.
  - nia.
  - rewrite length_app. simpl. nia.
Qed.

Section Split.
Context `{WordTable}.

(** [split_ssml_by_voice] renders the groups of the blocks of the body. *)
Lemma split_ssml_by_voice_groups ssml_text M o body c :
  extract_speak_body ssml_text = inr (o, body, c) ->
  split_ssml_by_voice ssml_text M
  = inr (List.map (wrap o c) (group_blocks M (voice_blocks_of body))).
Proof.
  intros E. unfold split_ssml_by_voice. rewrite E.
  rewrite (fold_part_step o c M (voice_blocks_of body) [] []).
  unfold group_blocks.
  destruct (fold_left (group_step M) (voice_blocks_of body) ([], [])) as [gs cur].
  simpl. destruct cur; [reflexivity|].
  rewrite List.map_app. reflexivity.
Qed.

Lemma voice_blocks_of_matches body :
  findall voice_block_re body <> [] ->
  voice_blocks_of body = findall voice_block_re body.
Proof. unfold voice_blocks_of. destruct (findall voice_block_re body); congruence. Qed.

Lemma voice_blocks_of_none body :
  findall voice_block_re body = [] -> voice_blocks_of body = [body].
Proof. unfold voice_blocks_of. intros ->. reflexivity. Qed.

(** C1: with a positive maximum [M], a document whose body holds [N]
    voice blocks is split into ceil(N / M) chunk documents when
    [N > 0], and into exactly one, wrapping the raw body, when
    [N = 0]. *)
Theorem split_chunk_count ssml_text M o body c :
  1 <= M ->
  extract_speak_body ssml_text = inr (o, body, c) ->
  exists parts,
    split_ssml_by_voice ssml_text M = inr parts
    /\ ((0 < length (findall voice_block_re body))%nat ->
        Z.of_nat (length parts)
        = ceil_div (Z.of_nat (length (findall voice_block_re body))) M)
    /\ (length (findall voice_block_re body) = 0%nat ->
        parts = [o ++ [LF] ++ body ++ [LF] ++ c]).
Proof.
  intros HM E. eexists. split; [apply split_ssml_by_voice_groups, E|].
  rewrite length_map. split.
  - intros HN. rewrite group_blocks_count by assumption.
    rewrite voice_blocks_of_matches; [reflexivity|].
    intros E0. rewrite E0 in HN. simpl in HN. lia.
  - intros HN. apply length_zero_iff_nil in HN.
    rewrite voice_blocks_of_none by assumption.
    unfold group_blocks. simpl.
    destruct (Z.of_nat 1 >=? M); reflexivity.
Qed.

(** C2: with a positive maximum [M], every chunk is rendered from at
    most [M] blocks, and the blocks of all chunks, taken in chunk
    order, are exactly the blocks of the body: none lost, reordered or
    duplicated. *)
Theorem chunks_bounded_and_exhaustive ssml_text M o body c :
  1 <= M ->
  extract_speak_body ssml_text = inr (o, body, c) ->
  split_ssml_by_voice ssml_text M
  = inr (List.map (wrap o c) (group_blocks M (voice_blocks_of body)))
  /\ Forall (fun g => Z.of_nat (length g) <= M)
       (group_blocks M (voice_blocks_of body))
  /\ concat (group_blocks M (voice_blocks_of body)) = voice_blocks_of body.
Proof.
  intros HM E. split; [apply split_ssml_by_voice_groups, E|].
  split; [apply group_blocks_bounded, HM | apply group_blocks_concat].
Qed.

Lemma voice_block_re_shorter prev s rest :
  match_here voice_block_re prev s = Some rest -> (length rest < length s)%nat.
Proof. apply ReFacts.match_here_one_shorter. Qed.

(** Joining with newlines and adding one at the end is ending every
    line with a newline. *)
Lemma join_lines_newline (g : list text) :
  g <> [] -> join_lines g ++ [LF] = concat (List.map (fun b => b ++ [LF]) g).
Proof.
  induction g as [|b g IH]; [congruence|]. intros _.
  destruct g as [|b' g].
  - cbn. rewrite app_nil_r. reflexivity.
  - change (join_lines (b :: b' :: g)) with (b ++ LF :: join_lines (b' :: g)).
    change (concat (List.map (fun b => b ++ [LF]) (b :: b' :: g)))
      with ((b ++ [LF]) ++ concat (List.map (fun b => b ++ [LF]) (b' :: g))).
    rewrite <- IH by discriminate. rewrite <- !app_assoc. reflexivity.
Qed.

(** C10: when the body has at least one voice block, every chunk is the
    root open tag, a newline, a run of consecutive matched blocks
    joined by newlines, a newline and the root close tag: character for
    character, the open tag and a newline, then each block of the run
    followed by a newline, then the close tag.  The runs are not empty
    and, one after the other, they are the matched blocks in order.  The
    body is the matched blocks interleaved with the text around them, and
    none of that text goes into a chunk. *)
Theorem chunks_are_wrapped_voice_runs ssml_text M o body c :
  extract_speak_body ssml_text = inr (o, body, c) ->
  findall voice_block_re body <> [] ->
  exists groups gaps tail,
    split_ssml_by_voice ssml_text M
    = inr (List.map
             (fun g => o ++ [LF] ++ concat (List.map (fun b => b ++ [LF]) g) ++ c)
             groups)
    /\ Forall (fun g => g <> []) groups
    /\ concat groups = findall voice_block_re body
    /\ length gaps = length (findall voice_block_re body)
    /\ body = weave gaps (findall voice_block_re body) ++ tail.
Proof.
  intros E Hne.
  destruct (ReFacts.findall_from_weave voice_block_re voice_block_re_shorter
              body None O) as (gaps & tail & Hlen & Hbody).
  exists (group_blocks M (findall voice_block_re body)), gaps, tail.
  split; [|split; [|split; [|split]]].
  - rewrite (split_ssml_by_voice_groups _ M _ _ _ E).
    rewrite voice_blocks_of_matches by assumption. f_equal.
    apply Forall_fmap_ext_1.
    eapply Forall_impl; [apply (group_blocks_nonempty M)|].
    intros g Hg. cbn beta. unfold wrap.
    rewrite <- (join_lines_newline g Hg), <- !app_assoc. reflexivity.
  - apply group_blocks_nonempty.
  - apply group_blocks_concat.
  - exact Hlen.
  - rewrite drop_0 in Hbody. exact Hbody.
Qed.

End Split.

End SplitFacts.

Module SplitWitnesses.
Import Unicode Re SsmlToWav SplitSpec SplitFacts Examples.

Lemma split_chunk_count_witness :
  1 <= 2
  /\ extract_speak_body (H := ascii_words) three_voices
     = inr (of_string "<speak>",
            of_string "<voice>a</voice>x<voice>b</voice>y<voice>c</voice>",
            of_string "</speak>")
  /\ exists parts,
      split_ssml_by_voice (H := ascii_words) three_voices 2 = inr parts
      /\ length parts = 2%nat.
Proof.
  split; [lia|]. split; [reflexivity|].
  destruct (split_chunk_count (H := ascii_words) three_voices 2
              (of_string "<speak>")
              (of_string "<voice>a</voice>x<voice>b</voice>y<voice>c</voice>")
              (of_string "</speak>") ltac:(lia) eq_refl)
    as (parts & Hparts & Hpos & _).
  exists parts. split; [exact Hparts|].
  apply Nat2Z.inj. rewrite Hpos; [reflexivity | vm_compute; lia].
Defined.

Lemma chunks_bounded_and_exhaustive_witness :
  1 <= 2
  /\ extract_speak_body (H := ascii_words) three_voices
     = inr (of_string "<speak>",
            of_string "<voice>a</voice>x<voice>b</voice>y<voice>c</voice>",
            of_string "</speak>")
  /\ split_ssml_by_voice (H := ascii_words) three_voices 2
     = inr [of_string "<speak>" ++ [LF] ++ of_string "<voice>a</voice>" ++ [LF]
              ++ of_string "<voice>b</voice>" ++ [LF] ++ of_string "</speak>";
            of_string "<speak>" ++ [LF] ++ of_string "<voice>c</voice>" ++ [LF]
              ++ of_string "</speak>"].
Proof.
  split; [lia|]. split; [reflexivity|].
  destruct (chunks_bounded_and_exhaustive (H := ascii_words) three_voices 2
              (of_string "<speak>")
              (of_string "<voice>a</voice>x<voice>b</voice>y<voice>c</voice>")
              (of_string "</speak>") ltac:(lia) eq_refl)
    as (Hparts & _ & _).
  rewrite Hparts. reflexivity.
Defined.

Lemma chunks_are_wrapped_voice_runs_witness :
  extract_speak_body (H := ascii_words) three_voices
  = inr (of_string "<speak>",
         of_string "<voice>a</voice>x<voice>b</voice>y<voice>c</voice>",
         of_string "</speak>")
  /\ findall (H := ascii_words) voice_block_re
       (of_string "<voice>a</voice>x<voice>b</voice>y<voice>c</voice>") <> []
  /\ (exists groups,
        split_ssml_by_voice (H := ascii_words) three_voices 2
        = inr (List.map
                 (fun g => of_string "<speak>" ++ [LF]
                             ++ concat (List.map (fun b => b ++ [LF]) g)
                             ++ of_string "</speak>") groups)
        /\ concat groups
           = [of_string "<voice>a</voice>"; of_string "<voice>b</voice>";
              of_string "<voice>c</voice>"])
  /\ split_ssml_by_voice (H := ascii_words) three_voices 2
     = inr [of_string "<speak>" ++ [LF] ++ of_string "<voice>a</voice>" ++ [LF]
              ++ of_string "<voice>b</voice>" ++ [LF] ++ of_string "</speak>";
            of_string "<speak>" ++ [LF] ++ of_string "<voice>c</voice>" ++ [LF]
              ++ of_string "</speak>"].
Proof.
  split; [reflexivity|]. split; [discriminate|].
  destruct (chunks_are_wrapped_voice_runs (H := ascii_words) three_voices 2
              (of_string "<speak>")
              (of_string "<voice>a</voice>x<voice>b</voice>y<voice>c</voice>")
              (of_string "</speak>") eq_refl ltac:(discriminate))
    as (groups & gaps & tail & Hparts & _ & Hcat & _).
  split; [exists groups; split; [exact Hparts | exact Hcat]|].
  reflexivity.
Defined.
End SplitWitnesses.

(** ** The synthesis retry loop *)

Module SynthesisFacts.
Import PyStr Synthesis SynthesisSpec Examples.

Lemma attempt_loop_raised remote retries iterations attempt :
  remote (attempt + 1) = Raises ->
  attempt_loop remote retries (S iterations) attempt
  = ((attempt_loop remote retries iterations (attempt + 1)).1,
     Speak (attempt + 1) :: Sleep (backoff (attempt + 1))
       :: (attempt_loop remote retries iterations (attempt + 1)).2).
Proof.
  intros E. cbn [attempt_loop]. rewrite E.
  destruct (attempt_loop remote retries iterations (attempt + 1)); reflexivity.
Qed.

Lemma attempt_loop_completed remote retries iterations attempt :
  remote (attempt + 1) = SynthesizingAudioCompleted ->
  attempt_loop remote retries (S iterations) attempt = (inr true, [Speak (attempt + 1)]).
Proof. intros E. cbn [attempt_loop]. rewrite E. reflexivity. Qed.

(** The exception of [speechsdk.CancellationDetails] is raised outside the
    [try]: it ends the loop. *)
Lemma attempt_loop_cancelled remote retries iterations attempt e :
  remote (attempt + 1) = Canceled (inl e) ->
  attempt_loop remote retries (S iterations) attempt = (inl e, [Speak (attempt + 1)]).
Proof. intros E. cbn [attempt_loop]. rewrite E. reflexivity. Qed.

(** The loop never makes more calls than it has iterations. *)
Lemma attempt_loop_calls remote retries : forall iterations attempt,
  (length (speaks (attempt_loop remote retries iterations attempt).2) <= iterations)%nat.
Proof.
  induction iterations as [|it IH]; intros attempt; [simpl; lia|].
  cbn [attempt_loop]. specialize (IH (attempt + 1)).
  destruct (remote (attempt + 1)) as [| |[e|[code err]]|].
  - destruct (attempt_loop remote retries it (attempt + 1)); simpl in *. lia.
  - simpl. lia.
  - simpl. lia.
  - destruct (transient code err); [|simpl; lia].
    destruct (attempt + 1 <=? retries); [|simpl; lia].
    destruct (attempt_loop remote retries it (attempt + 1)); simpl in *. lia.
  - destruct (attempt_loop remote retries it (attempt + 1)); simpl in *. lia.
Qed.

(** Calls that raise are retried, each after its wait, as long as the
    budget lasts. *)
Lemma attempt_loop_after_raises remote retries : forall n iterations attempt,
  (forall j, attempt < j <= attempt + Z.of_nat n -> remote j = Raises) ->
  attempt_loop remote retries (n + iterations) attempt
  = ((attempt_loop remote retries iterations (attempt + Z.of_nat n)).1,
     retried (attempt + 1) n
       ++ (attempt_loop remote retries iterations (attempt + Z.of_nat n)).2).
Proof.
  induction n as [|n IH]; intros iterations attempt Hall.
  - cbn [Nat.add retried app]. rewrite Z.add_0_r.
    destruct (attempt_loop remote retries iterations attempt); reflexivity.
  - change (S n + iterations)%nat with (S (n + iterations)).
    rewrite attempt_loop_raised by (apply Hall; lia).
    rewrite (IH iterations (attempt + 1)) by (intros j Hj; apply Hall; lia).
    replace (attempt + 1 + Z.of_nat n) with (attempt + Z.of_nat (S n)) by lia.
    reflexivity.
Qed.

(** X29: a cancelled attempt that follows [n] attempts that raised, within
    the budget, ends the call with the exception that
    [speechsdk.CancellationDetails] raises on its result: whatever the
    cause of the cancellation, the call returns nothing and makes no
    further attempt, after [n + 1] calls and a wait of 1.5 * j seconds
    after each of the first [n]. *)
Theorem cancellation_escapes remote retries n e :
  Z.of_nat n <= retries ->
  (forall j, 0 < j <= Z.of_nat n -> remote j = Raises) ->
  remote (Z.of_nat n + 1) = Canceled (inl e) ->
  synthesize_to_wav true remote retries = inl e
  /\ synthesize_events true remote retries
     = retried 1 n ++ [Speak (Z.of_nat n + 1)].
Proof.
  intros Hn Hall Hc. unfold synthesize_to_wav, synthesize_events.
  replace (Z.to_nat (retries + 1)) with (n + S (Z.to_nat retries - n))%nat by lia.
  rewrite (attempt_loop_after_raises remote retries n _ 0) by exact Hall.
  change (0 + Z.of_nat n) with (Z.of_nat n).
  rewrite (attempt_loop_cancelled remote retries _ (Z.of_nat n) e Hc).
  split; reflexivity.
Qed.

(** C5: the loop does not treat a cancelled attempt as the claim says.  It
    builds [speechsdk.CancellationDetails(result)] outside its [try], and
    for the result of a synthesis this construction raises: the exception
    ends the call after the attempt that was cancelled, on the first
    attempt and also after an attempt that raised and was retried.  No
    cancellation is retried and none makes the call return False. *)
Theorem cancelled_attempt_raises :
  synthesize_to_wav true rejected 2 = inl sdk_error
  /\ synthesize_events true rejected 2 = [Speak 1]
  /\ synthesize_to_wav true dropped 2 = inl sdk_error
  /\ synthesize_events true dropped 2 = [Speak 1; Sleep (backoff 1); Speak 2].
Proof. repeat split. Qed.

(** The test that the loop applies to the details, where it gets them. *)
Example transient_examples :
  lower "Connection TimeOut" = "connection timeout"%string
  /\ transient "CancellationErrorCode.ServiceTimeout" (Some "Request TIMEOUT after 10s") = true
  /\ transient "CancellationErrorCode.ConnectionFailure" None = true
  /\ transient "CancellationErrorCode.connectionfailure" (Some "Time out") = false
  /\ transient "CancellationErrorCode.BadRequest" (Some "Invalid SSML") = false.
Proof. repeat split. Qed.

End SynthesisFacts.

Module SynthesisWitnesses.
Import PyStr Synthesis SynthesisSpec SynthesisFacts Examples.

Lemma cancellation_escapes_witness :
  Z.of_nat 1 <= 2
  /\ (forall j, 0 < j <= Z.of_nat 1 -> dropped j = Raises)
  /\ dropped (Z.of_nat 1 + 1) = Canceled (inl sdk_error)
  /\ synthesize_to_wav true dropped 2 = inl sdk_error
  /\ synthesize_events true dropped 2 = [Speak 1; Sleep (backoff 1); Speak 2].
Proof.
  assert (forall j, 0 < j <= Z.of_nat 1 -> dropped j = Raises) as Hall.
  { intros j Hj. assert (j = 1) as -> by lia. reflexivity. }
  split; [lia|]. split; [exact Hall|]. split; [reflexivity|].
  exact (cancellation_escapes dropped 2 1 sdk_error ltac:(lia) Hall eq_refl).
Defined.
End SynthesisWitnesses.

(** ** Concatenation of WAV parts *)

Module WavFacts.
Import PyStr Wav.

(** Once the expected parameters are known, files that have them are read
    to the end. *)
Lemma read_parts_same (fs : gmap string file) wav_paths files expected :
  Forall2 (fun p w => fs !! p = Some (WavData w)) wav_paths files ->
  Forall (fun w => params_of w = expected) files ->
  forall data_frames,
    read_parts fs wav_paths (Some expected) data_frames
    = inr (Some expected, data_frames ++ List.map frames files).
Proof.
  induction 1 as [|p w ps ws Hp _ IH]; intros Hall data_frames; simpl.
  - rewrite app_nil_r. reflexivity.
  - inversion Hall as [|? ? Hw Hws]; subst.
    rewrite Hp. destruct (decide (params_of w = params_of w)); [|congruence].
    rewrite IH by assumption. rewrite <- app_assoc. reflexivity.
Qed.

(** The loop stops at the first file whose parameters differ. *)
Lemma read_parts_differ (fs : gmap string file) wav_paths files expected :
  Forall2 (fun p w => fs !! p = Some (WavData w)) wav_paths files ->
  Exists (fun w => params_of w <> expected) files ->
  forall data_frames,
    exists i p w,
      wav_paths !! i = Some p /\ files !! i = Some w
      /\ params_of w <> expected
      /\ (forall j w', (j < i)%nat -> files !! j = Some w' -> params_of w' = expected)
      /\ read_parts fs wav_paths (Some expected) data_frames
         = inl (ValueError (mismatch_msg p (params_of w) expected)).
Proof.
  induction 1 as [|p w ps ws Hp _ IH]; intros Hex data_frames.
  - inversion Hex.
  - simpl. rewrite Hp.
    destruct (decide (params_of w = expected)) as [Heq|Hne].
    + inversion Hex as [? ? Hw|? ? Hws]; subst; [congruence|].
      destruct (IH Hws (data_frames ++ [frames w]))
        as (i & q & v & Hq & Hv & Hne & Hbefore & Hread).
      exists (S i), q, v. repeat split; try assumption.
      intros [|j] w' Hj Hw'; simpl in Hw'.
      * congruence.
      * apply (Hbefore j); [lia | assumption].
    + exists O, p, w. repeat split; try reflexivity; try assumption.
      intros j w' Hj. lia.
Qed.

(** What is read of a file with a whole number of frames is all of it;
    otherwise it is cut after the last whole frame. *)
Lemma readable_frames_cut ch sw data :
  1 <= ch * sw ->
  let cut := readable_frames ch sw (Z.of_nat (length data)) data in
  cut `prefix_of` data
  /\ (ch * sw | Z.of_nat (length cut))
  /\ Z.of_nat (length data) - Z.of_nat (length cut) < ch * sw
  /\ ((ch * sw | Z.of_nat (length data)) -> cut = data).
Proof.
  intros Hfs cut. unfold readable_frames in cut.
  set (n := Z.of_nat (length data)) in *.
  assert (0 <= n) as Hn by lia.
  pose proof (Z.div_mod n (ch * sw) ltac:(lia)) as Hdm.
  pose proof (Z.mod_pos_bound n (ch * sw) ltac:(lia)) as Hmod.
  assert (0 <= n / (ch * sw)) as Hq by (apply Z.div_pos; lia).
  assert (0 <= n / (ch * sw) * (ch * sw) <= n) as Hle by nia.
  assert (Z.of_nat (length cut) = n / (ch * sw) * (ch * sw)) as Hlen.
  { subst cut. rewrite length_take_le by lia. lia. }
  split; [apply prefix_take|]. split; [|split].
  - rewrite Hlen. apply Z.divide_factor_r.
  - rewrite Hlen. lia.
  - intros [k Hk]. subst cut.
    assert (n / (ch * sw) * (ch * sw) = n) as ->.
    { rewrite Hk, Z.div_mul by lia. reflexivity. }
    apply take_ge. lia.
Qed.

Lemma patch_header_length declared written d :
  patch_header declared written = Some d -> d = Z.of_nat (length written).
Proof.
  unfold patch_header.
  destruct (declared =? Z.of_nat (length written)) eqn:E.
  - apply Z.eqb_eq in E. congruence.
  - destruct (36 + Z.of_nat (length written) <? 2 ^ 32); congruence.
Qed.

Lemma patch_header_fits declared written :
  36 + Z.of_nat (length written) < 2 ^ 32 ->
  patch_header declared written = Some (Z.of_nat (length written)).
Proof.
  intros Hfit. unfold patch_header.
  destruct (declared =? Z.of_nat (length written)) eqn:E.
  - apply Z.eqb_eq in E. congruence.
  - apply Z.ltb_lt in Hfit. rewrite Hfit. reflexivity.
Qed.

(** Where the writing ends, in every case: with all the data in a file
    that reads as their whole frames; or with struct.error and a file
    that cannot be read, or that reads as a leading part of the data. *)
Lemma write_frames_cases ch sw fr : forall data_frames declared data,
  (declared = None -> data = []) ->
  let all := data ++ concat data_frames in
  (write_frames ch sw fr data_frames declared data
   = (None, WavData (WavFile ch sw fr
                       (readable_frames ch sw (Z.of_nat (length all)) all))))
  \/ (exists f,
        write_frames ch sw fr data_frames declared data = (Some StructError, f)
        /\ (f = Unreadable EOFError
            \/ f = Unreadable (WaveError "not a WAVE file")
            \/ exists part, f = WavData (WavFile ch sw fr part) /\ part `prefix_of` all)).
Proof.
  assert (forall d (data all : list Byte.byte),
            data `prefix_of` all ->
            readable_frames ch sw d data `prefix_of` all) as Hpre.
  { intros d data all Hp. etransitivity; [apply prefix_take | exact Hp]. }
  induction data_frames as [|chunk rest IH]; intros declared data Hnone all.
  - subst all. cbn [concat write_frames]. rewrite app_nil_r.
    destruct declared as [d|].
    + destruct (patch_header d data) as [d'|] eqn:Ep.
      * left. rewrite (patch_header_length _ _ _ Ep). reflexivity.
      * right. eexists. split; [reflexivity|]. right. right.
        eexists. split; [reflexivity|]. apply prefix_take.
    + rewrite (Hnone eq_refl). destruct (header_fits ch sw fr 0).
      * left. reflexivity.
      * right. eexists. split; [reflexivity|]. left. reflexivity.
  - cbn [write_frames].
    assert (all = (data ++ chunk) ++ concat rest) as Eall.
    { subst all. cbn [concat]. rewrite app_assoc. reflexivity. }
    assert (forall d,
              match patch_header d (data ++ chunk) with
              | Some d' => write_frames ch sw fr rest (Some d') (data ++ chunk)
              | None =>
                  (Some StructError,
                   WavData (WavFile ch sw fr (readable_frames ch sw d (data ++ chunk))))
              end
              = (None, WavData (WavFile ch sw fr
                                  (readable_frames ch sw (Z.of_nat (length all)) all)))
              \/ (exists f,
                    match patch_header d (data ++ chunk) with
                    | Some d' => write_frames ch sw fr rest (Some d') (data ++ chunk)
                    | None =>
                        (Some StructError,
                         WavData (WavFile ch sw fr
                                    (readable_frames ch sw d (data ++ chunk))))
                    end = (Some StructError, f)
                    /\ (f = Unreadable EOFError
                        \/ f = Unreadable (WaveError "not a WAVE file")
                        \/ exists part,
                             f = WavData (WavFile ch sw fr part)
                             /\ part `prefix_of` all))) as Hstep.
    { intros d. destruct (patch_header d (data ++ chunk)) as [d'|].
      - rewrite Eall. apply IH. discriminate.
      - right. eexists. split; [reflexivity|]. right. right.
        eexists. split; [reflexivity|]. apply Hpre.
        rewrite Eall. apply prefix_app_r. reflexivity. }
    destruct declared as [d|]; [apply Hstep|].
    destruct (header_fits ch sw fr
                (Z.of_nat (length chunk) / (ch * sw) * (ch * sw))); [apply Hstep|].
    right. eexists. split; [reflexivity|]. right. left. reflexivity.
Qed.

(** Data that fit the header are written to the end. *)
Lemma write_frames_fits ch sw fr : forall data_frames data,
  36 + Z.of_nat (length (data ++ concat data_frames)) < 2 ^ 32 ->
  write_frames ch sw fr data_frames (Some (Z.of_nat (length data))) data
  = (None, WavData (WavFile ch sw fr
                      (readable_frames ch sw
                         (Z.of_nat (length (data ++ concat data_frames)))
                         (data ++ concat data_frames)))).
Proof.
  induction data_frames as [|chunk rest IH]; intros data Hfit.
  - cbn [concat write_frames] in *. rewrite app_nil_r in *.
    rewrite patch_header_fits by exact Hfit. reflexivity.
  - cbn [concat write_frames] in *. rewrite app_assoc in *.
    rewrite patch_header_fits.
    + apply IH. exact Hfit.
    + rewrite length_app in Hfit. lia.
Qed.

(** The writer accepts samples of one to four bytes, a positive frame
    rate, and numbers that fit the fields of the header. *)
Lemma write_wav_fits ch sw fr data_frames :
  data_frames <> [] ->
  1 <= ch -> 1 <= sw <= 4 -> 1 <= fr ->
  ch * sw < 2 ^ 16 -> ch * fr * sw < 2 ^ 32 ->
  36 + Z.of_nat (length (concat data_frames)) < 2 ^ 32 ->
  write_wav ch sw fr data_frames
  = (None, WavData (WavFile ch sw fr
                      (readable_frames ch sw (Z.of_nat (length (concat data_frames)))
                         (concat data_frames)))).
Proof.
  intros Hne Hch Hsw Hfr Hblock Hrate Hfit. unfold write_wav.
  assert ((ch <? 1) = false) as -> by (apply Z.ltb_ge; lia).
  assert ((sw <? 1) = false) as -> by (apply Z.ltb_ge; lia).
  assert ((4 <? sw) = false) as -> by (apply Z.ltb_ge; lia).
  assert ((fr <=? 0) = false) as -> by (apply Z.leb_gt; lia).
  cbn [orb]. destruct data_frames as [|chunk rest]; [congruence|].
  cbn [write_frames concat app] in *.
  assert (0 <= Z.of_nat (length chunk) / (ch * sw) * (ch * sw) <= Z.of_nat (length chunk))
    as Hd.
  { pose proof (Z.div_mod (Z.of_nat (length chunk)) (ch * sw) ltac:(nia)).
    pose proof (Z.mod_pos_bound (Z.of_nat (length chunk)) (ch * sw) ltac:(nia)).
    assert (0 <= Z.of_nat (length chunk) / (ch * sw)) by (apply Z.div_pos; nia).
    nia. }
  rewrite length_app in Hfit.
  assert (header_fits ch sw fr (Z.of_nat (length chunk) / (ch * sw) * (ch * sw)) = true)
    as ->.
  { unfold header_fits. rewrite !andb_true_iff, !Z.ltb_lt.
    assert (2 ^ 16 = 65536) by reflexivity. assert (2 ^ 32 = 4294967296) by reflexivity.
    repeat split; nia. }
  rewrite patch_header_fits by lia.
  apply (write_frames_fits ch sw fr rest chunk). rewrite length_app. lia.
Qed.

(** The whole frames of a list of chunks of whole frames are all of them. *)
Lemma whole_frames_concat ch sw (files : list wav_file) :
  Forall (fun w => (ch * sw | Z.of_nat (length (frames w)))) files ->
  (ch * sw | Z.of_nat (length (concat (List.map frames files)))).
Proof.
  induction 1 as [|w ws Hw _ IH]; [apply Z.divide_0_r|].
  cbn [List.map concat]. rewrite length_app, Nat2Z.inj_add.
  apply Z.divide_add_r; assumption.
Qed.

(** Files of one format that the writer accepts: what is written. *)
Lemma concat_wavs_fits (fs : gmap string file) wav_paths out_wav files ch sw fr :
  wav_paths <> [] ->
  Forall2 (fun p w => fs !! p = Some (WavData w)) wav_paths files ->
  Forall (fun w => params_of w = (ch, sw, fr)) files ->
  1 <= ch -> 1 <= sw <= 4 -> 1 <= fr ->
  ch * sw < 2 ^ 16 -> ch * fr * sw < 2 ^ 32 ->
  36 + Z.of_nat (length (concat (List.map frames files))) < 2 ^ 32 ->
  concat_wavs wav_paths out_wav fs
  = (None,
     <[out_wav := WavData (WavFile ch sw fr
                     (readable_frames ch sw
                        (Z.of_nat (length (concat (List.map frames files))))
                        (concat (List.map frames files))))]> fs).
Proof.
  intros Hne Hfiles Hall Hch Hsw Hfr Hblock Hrate Hfit.
  destruct Hfiles as [|p w ps ws Hp Hrest']; [congruence|].
  inversion Hall as [|? ? Hw Hws]; subst.
  unfold concat_wavs. cbn [read_parts]. rewrite Hp, Hw. cbn [app].
  rewrite (read_parts_same fs ps ws (ch, sw, fr) Hrest' Hws).
  change ([frames w] ++ List.map frames ws) with (List.map frames (w :: ws)).
  rewrite write_wav_fits; try assumption; [reflexivity | discriminate].
Qed.

(** C3, amended: for a non-empty sequence of files that all have the
    parameters (ch, sw, fr), with samples of 1 to 4 bytes, a frame rate of
    at least 1 and numbers that fit the header of the output (ch * sw below
    2^16, ch * fr * sw and the data length plus 36 below 2^32), the
    concatenation raises nothing and writes, at the output path, a file
    with these parameters; no other file changes.  Its frame data are the
    inputs' frame data in input order, as far as they make whole frames:
    all of them when every input holds a whole number of frames. *)
Theorem concat_wavs_same_format (fs : gmap string file) wav_paths out_wav
  files ch sw fr :
  wav_paths <> [] ->
  Forall2 (fun p w => fs !! p = Some (WavData w)) wav_paths files ->
  Forall (fun w => params_of w = (ch, sw, fr)) files ->
  1 <= ch -> 1 <= sw <= 4 -> 1 <= fr ->
  ch * sw < 2 ^ 16 -> ch * fr * sw < 2 ^ 32 ->
  36 + Z.of_nat (length (concat (List.map frames files))) < 2 ^ 32 ->
  exists written,
    concat_wavs wav_paths out_wav fs
    = (None, <[out_wav := WavData (WavFile ch sw fr written)]> fs)
    /\ (concat_wavs wav_paths out_wav fs).2 !! out_wav
       = Some (WavData (WavFile ch sw fr written))
    /\ written `prefix_of` concat (List.map frames files)
    /\ (ch * sw | Z.of_nat (length written))
    /\ Z.of_nat (length (concat (List.map frames files))) - Z.of_nat (length written)
       < ch * sw
    /\ (Forall (fun w => (ch * sw | Z.of_nat (length (frames w)))) files ->
        written = concat (List.map frames files)).
Proof.
  intros Hne Hfiles Hall Hch Hsw Hfr Hblock Hrate Hfit.
  set (data := concat (List.map frames files)) in *.
  destruct (readable_frames_cut ch sw data ltac:(nia)) as (Hpre & Hdiv & Hrest & Hwhole).
  exists (readable_frames ch sw (Z.of_nat (length data)) data).
  pose proof (concat_wavs_fits fs wav_paths out_wav files ch sw fr
                Hne Hfiles Hall Hch Hsw Hfr Hblock Hrate Hfit) as E.
  fold data in E.
  split; [exact E|]. split; [rewrite E; apply lookup_insert_eq|].
  split; [exact Hpre|]. split; [exact Hdiv|]. split; [exact Hrest|].
  intros Hwholes. apply Hwhole. apply whole_frames_concat. exact Hwholes.
Qed.

(** C4: when some file's parameters differ from the first file's, the
    concatenation raises the ValueError whose message names the first such
    file, its parameters and those of the first file, and the files are as
    before: nothing is written. *)
Theorem concat_wavs_mismatch (fs : gmap string file) wav_paths out_wav
  files first :
  Forall2 (fun p w => fs !! p = Some (WavData w)) wav_paths files ->
  head files = Some first ->
  Exists (fun w => params_of w <> params_of first) files ->
  exists i p w,
    wav_paths !! i = Some p /\ files !! i = Some w
    /\ params_of w <> params_of first
    /\ (forall j w', (j < i)%nat -> files !! j = Some w' ->
                     params_of w' = params_of first)
    /\ concat_wavs wav_paths out_wav fs
       = (Some (ValueError
                  ("WAV format mismatch in " ++ p ++ ": "
                     ++ str_of_triple (params_of w) ++ " vs "
                     ++ str_of_triple (params_of first))%string), fs).
Proof.
  intros Hfiles Hfirst Hex.
  destruct Hfiles as [|p0 w0 ps ws Hp0 Hrest]; [discriminate|].
  simpl in Hfirst. injection Hfirst as ->.
  inversion Hex as [? ? Hw|? ? Hws]; subst; [congruence|].
  destruct (read_parts_differ fs ps ws (params_of first) Hrest Hws [frames first])
    as (i & p & w & Hp & Hw & Hne & Hbefore & Hread).
  exists (S i), p, w. repeat split; try assumption.
  - intros [|j] w' Hj Hw'; simpl in Hw'.
    + congruence.
    + apply (Hbefore j); [lia | assumption].
  - unfold concat_wavs. cbn [read_parts app]. rewrite Hp0.
    cbn [app]. rewrite Hread. reflexivity.
Qed.

End WavFacts.

Module WavWitnesses.
Import PyStr Wav WavFacts Examples.
Local Open Scope string_scope.

Lemma concat_wavs_same_format_witness :
  ["p1.wav"; "p2.wav"] <> []
  /\ Forall2 (fun p w => disk !! p = Some (WavData w)) ["p1.wav"; "p2.wav"] [part1; part2]
  /\ Forall (fun w => params_of w = (1, 2, 24000)%Z) [part1; part2]
  /\ exists written,
       (concat_wavs ["p1.wav"; "p2.wav"] "out.wav" disk).2 !! "out.wav"
       = Some (WavData (WavFile 1 2 24000 written))
       /\ written = [Byte.x01; Byte.x02; Byte.x03; Byte.x04].
Proof.
  assert (Forall2 (fun p w => disk !! p = Some (WavData w)) ["p1.wav"; "p2.wav"]
            [part1; part2]) as Hfiles by (repeat constructor).
  assert (Forall (fun w => params_of w = (1, 2, 24000)%Z) [part1; part2])
    as Hall by (repeat constructor).
  split; [discriminate|]. split; [exact Hfiles|]. split; [exact Hall|].
  destruct (concat_wavs_same_format disk ["p1.wav"; "p2.wav"] "out.wav"
              [part1; part2] 1 2 24000 ltac:(discriminate) Hfiles Hall
              ltac:(lia) ltac:(lia) ltac:(lia) ltac:(reflexivity) ltac:(reflexivity)
              ltac:(reflexivity))
    as (written & _ & Hout & _ & _ & _ & Hwhole).
  exists written. split; [exact Hout|].
  apply Hwhole. repeat constructor; exists 1%Z; reflexivity.
Defined.

(** Two files of the same format, with samples of five bytes: the reader
    accepts them, the writer does not.  The exception comes from the
    close() of the output, which is left empty. *)
Lemma concat_wavs_wide_samples :
  ["w1.wav"; "w2.wav"] <> []
  /\ Forall2 (fun p w => wide_disk !! p = Some (WavData w)) ["w1.wav"; "w2.wav"]
       [wide1; wide2]
  /\ Forall (fun w => params_of w = (1, 5, 8000)%Z) [wide1; wide2]
  /\ concat_wavs ["w1.wav"; "w2.wav"] "out.wav" wide_disk
     = (Some (WaveError "sample width not specified"),
        <["out.wav" := Unreadable EOFError]> wide_disk).
Proof.
  split; [discriminate|]. split; [repeat constructor|]. split; [repeat constructor|].
  vm_compute. reflexivity.
Qed.

Lemma concat_wavs_mismatch_witness :
  Forall2 (fun p w => disk !! p = Some (WavData w)) ["p1.wav"; "st.wav"; "p2.wav"]
    [part1; stereo; part2]
  /\ head [part1; stereo; part2] = Some part1
  /\ Exists (fun w => params_of w <> params_of part1) [part1; stereo; part2]
  /\ exists i p w,
      ["p1.wav"; "st.wav"; "p2.wav"] !! i = Some p
      /\ [part1; stereo; part2] !! i = Some w
      /\ concat_wavs ["p1.wav"; "st.wav"; "p2.wav"] "out.wav" disk
         = (Some (ValueError
                    ("WAV format mismatch in " ++ p ++ ": "
                       ++ str_of_triple (params_of w) ++ " vs "
                       ++ str_of_triple (params_of part1))), disk).
Proof.
  assert (Forall2 (fun p w => disk !! p = Some (WavData w))
            ["p1.wav"; "st.wav"; "p2.wav"] [part1; stereo; part2])
    as Hfiles by (repeat constructor).
  assert (Exists (fun w => params_of w <> params_of part1) [part1; stereo; part2])
    as Hex by (right; left; discriminate).
  split; [exact Hfiles|]. split; [reflexivity|]. split; [exact Hex|].
  destruct (concat_wavs_mismatch disk ["p1.wav"; "st.wav"; "p2.wav"] "out.wav"
              [part1; stereo; part2] part1 Hfiles eq_refl Hex)
    as (i & p & w & Hp & Hw & _ & _ & Hres).
  exists i, p, w. repeat split; assumption.
Defined.

(** The message raised for [disk]: file, actual and expected parameters. *)
Example mismatch_message :
  concat_wavs ["p1.wav"; "st.wav"; "p2.wav"] "out.wav" disk
  = (Some (ValueError "WAV format mismatch in st.wav: (2, 2, 24000) vs (1, 2, 24000)"),
     disk).
Proof. vm_compute. reflexivity. Qed.

End WavWitnesses.

(** ** Float arithmetic *)

Module PyFloatFacts.
Import PyFloat.

Lemma rne_exact q d : 0 < d -> rne (q * d) d = q.
Proof.
  intros Hd. unfold rne. rewrite Z.div_mul, Z.mod_mul by lia.
  assert ((2 * 0 <? d) = true) as -> by (apply Z.ltb_lt; lia). reflexivity.
Qed.

Lemma rne_bounds a d : 0 < d -> a / d <= rne a d <= a / d + 1.
Proof.
  intros Hd. unfold rne.
  destruct (2 * (a mod d) <? d); [lia|].
  destruct (d <? 2 * (a mod d)); [lia|].
  destruct (Z.even (a / d)); lia.
Qed.

Lemma rne_nonneg a d : 0 < d -> 0 <= a -> 0 <= rne a d.
Proof.
  intros Hd Ha. pose proof (rne_bounds a d Hd).
  pose proof (Z.div_pos a d Ha Hd). lia.
Qed.

(** The rounded quotient is within half a unit of the exact one. *)
Lemma rne_error a d : 0 < d -> 2 * Z.abs (rne a d * d - a) <= d.
Proof.
  intros Hd. unfold rne.
  pose proof (Z.div_mod a d ltac:(lia)) as E.
  pose proof (Z.mod_pos_bound a d Hd) as B.
  destruct (2 * (a mod d) <? d) eqn:E1.
  - apply Z.ltb_lt in E1. lia.
  - apply Z.ltb_ge in E1.
    destruct (d <? 2 * (a mod d)) eqn:E2.
    + apply Z.ltb_lt in E2. lia.
    + apply Z.ltb_ge in E2. destruct (Z.even (a / d)); lia.
Qed.

Lemma rne_scale a d c : 0 < d -> 0 < c -> rne (a * c) (d * c) = rne a d.
Proof.
  intros Hd Hc. unfold rne.
  rewrite Z.div_mul_cancel_r, Z.mul_mod_distr_r by lia.
  replace (2 * (a mod d * c) <? d * c) with (2 * (a mod d) <? d).
  2:{ apply eq_true_iff_eq. rewrite !Z.ltb_lt. nia. }
  replace (d * c <? 2 * (a mod d * c)) with (d <? 2 * (a mod d)).
  2:{ apply eq_true_iff_eq. rewrite !Z.ltb_lt. nia. }
  reflexivity.
Qed.

(** Rounding a quotient whose divisor cancels. *)
Lemma fl_scale q b : 0 < b -> fl (q * b) b = fl q 1.
Proof.
  intros Hb. unfold fl. rewrite Z.div_mul, Z.div_1_r by lia.
  set (k := Z.max 0 (Z.log2 q - 52)).
  assert (0 < 2 ^ k) by (apply Z.pow_pos_nonneg; lia).
  replace (b * 2 ^ k) with (2 ^ k * b) by lia.
  replace (1 * 2 ^ k) with (2 ^ k) by lia.
  rewrite rne_scale by lia. reflexivity.
Qed.

(** A value with at most 53 significant bits is not changed by rounding. *)
Lemma fl_exact a :
  a mod 2 ^ Z.max 0 (Z.log2 a - 52) = 0 -> fl a 1 = a.
Proof.
  intros Hm. unfold fl. rewrite Z.div_1_r.
  set (k := Z.max 0 (Z.log2 a - 52)) in *.
  assert (0 < 2 ^ k) by (apply Z.pow_pos_nonneg; lia).
  replace (1 * 2 ^ k) with (2 ^ k) by lia.
  clearbody k. apply Z.mod_divide in Hm as [q ->]; [|lia].
  rewrite rne_exact by lia. reflexivity.
Qed.

Lemma is_float_fl x : is_float x -> fl x 1 = x.
Proof. intros [_ Hm]. apply fl_exact, Hm. Qed.

Lemma pow2_divide j k : 0 <= j <= k -> (2 ^ j | 2 ^ k).
Proof.
  intros Hjk. exists (2 ^ (k - j)).
  rewrite <- Z.pow_add_r by lia. f_equal. lia.
Qed.

(** Integers below 2^53 are floats. *)
Lemma int_mod_pow2 n :
  0 <= n < 2 ^ 53 -> (n * one) mod 2 ^ Z.max 0 (Z.log2 (n * one) - 52) = 0.
Proof.
  intros Hn. apply Z.mod_divide; [apply Z.pow_nonzero; lia|].
  destruct (Z.eq_dec n 0) as [->|Hnz]; [apply Z.divide_0_r|].
  unfold one. rewrite Z.log2_mul_pow2 by lia.
  assert (Z.log2 n < 53) by (apply Z.log2_lt_pow2; lia).
  pose proof (Z.log2_nonneg n).
  apply Z.divide_mul_r, pow2_divide. lia.
Qed.

Lemma fl_int n : 0 <= n < 2 ^ 53 -> fl (n * one) 1 = n * one.
Proof. intros Hn. apply fl_exact, int_mod_pow2, Hn. Qed.

Lemma of_int_exact n : 0 <= n < 2 ^ 53 -> of_int n = n * one.
Proof. apply fl_int. Qed.

Lemma one_pos : 0 < one.
Proof. unfold one. apply Z.pow_pos_nonneg; lia. Qed.

Lemma to_int_int n : to_int (n * one) = n.
Proof. unfold to_int. apply Z.div_mul. pose proof one_pos. lia. Qed.

Lemma fl_zero : fl 0 1 = 0.
Proof. reflexivity. Qed.

(** x // c for an integer [c]: the difference x - fmod(x, c) is a multiple
    of [c] and is computed exactly, and so is its quotient by [c]. *)
Lemma float_floor_div_int t c :
  0 <= t -> 0 < c -> c * (t / (c * one)) < 2 ^ 53 ->
  float_floor_div t (c * one) = (t / (c * one)) * one.
Proof.
  intros Ht Hc Hk. pose proof one_pos as Hone.
  assert (0 < c * one) as HW by lia.
  set (k := t / (c * one)) in *.
  assert (0 <= k) as Hk0 by (apply Z.div_pos; lia).
  assert (k <= c * k) as Hkc by nia.
  unfold float_floor_div, fmod. rewrite Z.rem_mod_nonneg by lia.
  assert (fdiv (fsub t (t mod (c * one))) (c * one) = k * one) as ->.
  { assert (t - t mod (c * one) = (c * k) * one) as E.
    { pose proof (Z.div_mod t (c * one) ltac:(lia)). subst k. lia. }
    unfold fsub. rewrite E, fl_int by lia.
    unfold fdiv.
    replace (c * k * one * one) with ((k * one) * (c * one)) by lia.
    rewrite fl_scale, fl_int by lia. reflexivity. }
  destruct (k * one =? 0) eqn:E0.
  - apply Z.eqb_eq in E0. lia.
  - unfold ffloor. rewrite Z.div_mul by lia.
    unfold fsub. rewrite Z.sub_diag, fl_zero.
    assert ((one <? 2 * 0) = false) as -> by (apply Z.ltb_ge; lia).
    reflexivity.
Qed.

(** Whole seconds out of a remainder. *)
Lemma mod_div_units t c w :
  0 < w -> 0 < c -> (t mod (c * w)) / w = (t / w) mod c.
Proof.
  intros Hw Hc. rewrite (Z.mul_comm c w), Z.rem_mul_r by lia.
  rewrite (Z.mul_comm w), Z.div_add, Z.div_small by (try lia; apply Z.mod_pos_bound; lia).
  lia.
Qed.

(** Rounding a value below 1024 moves it by at most 2^-44. *)
Lemma fl_error a : 0 <= a < 2 ^ 1084 -> 2 * Z.abs (fl a 1 - a) <= 2 ^ 1031.
Proof.
  intros Ha. unfold fl. rewrite Z.div_1_r.
  set (k := Z.max 0 (Z.log2 a - 52)).
  assert (0 <= k <= 1031) as Hk.
  { subst k. destruct (Z.eq_dec a 0) as [->|Hnz]; [simpl; lia|].
    assert (Z.log2 a < 1084) by (apply Z.log2_lt_pow2; lia). lia. }
  clearbody k.
  assert (0 < 2 ^ k) by (apply Z.pow_pos_nonneg; lia).
  assert (2 ^ k <= 2 ^ 1031) by (apply Z.pow_le_mono_r; lia).
  replace (1 * 2 ^ k) with (2 ^ k) by lia.
  pose proof (rne_error a (2 ^ k) ltac:(lia)). lia.
Qed.

Lemma fl_nonneg a : 0 <= a -> 0 <= fl a 1.
Proof.
  intros Ha. unfold fl.
  assert (0 < 2 ^ Z.max 0 (Z.log2 (a / 1) - 52)) by (apply Z.pow_pos_nonneg; lia).
  apply Z.mul_nonneg_nonneg; [|lia]. apply rne_nonneg; lia.
Qed.

(** The fractional part of a float is a float. *)
Lemma frac_float t : is_float t -> fl (t mod one) 1 = t mod one.
Proof.
  intros [[Ht _] Hm]. apply fl_exact. pose proof one_pos as Hone.
  pose proof (Z.mod_pos_bound t one Hone) as Hr.
  set (r := t mod one) in *.
  apply Z.mod_divide; [apply Z.pow_nonzero; lia|].
  apply Z.mod_divide in Hm; [|apply Z.pow_nonzero; lia].
  assert (r <= t) as Hrt by (apply Z.mod_le; lia).
  pose proof (Z.log2_le_mono r t Hrt) as Hlog.
  assert (Z.max 0 (Z.log2 r - 52) <= 1074) as Hk.
  { destruct (Z.eq_dec r 0) as [E|Hnz]; [rewrite E; simpl; lia|].
    assert (Z.log2 r < 1074) by (apply Z.log2_lt_pow2; unfold one in Hr; lia). lia. }
  assert (r = t - one * (t / one)) as E.
  { pose proof (Z.div_mod t one ltac:(lia)). subst r. lia. }
  rewrite E at 2. apply Z.divide_sub_r.
  - eapply Z.divide_trans; [|exact Hm]. apply pow2_divide. lia.
  - apply Z.divide_mul_l. unfold one. apply pow2_divide. lia.
Qed.

End PyFloatFacts.

(** ** Transcription: credentials and subtitles *)

Module SpeechToTextFacts.
Import PyStr PyFloat SpeechToText Examples.
Local Open Scope string_scope.

(** Whenever the key and the endpoint are set, the configuration is built
    from the endpoint, whether or not the region is set. *)
Lemma make_speech_config_endpoint (environ : gmap string string) key endpoint :
  environ !! "SPEECH_KEY" = Some key -> key <> "" ->
  environ !! "SPEECH_ENDPOINT" = Some endpoint -> endpoint <> "" ->
  make_speech_config environ = inr (FromEndpoint key endpoint).
Proof.
  intros Hk Hkne He Hene. unfold make_speech_config. rewrite Hk, He.
  assert (truthy (Some key) = true) as ->.
  { simpl. apply negb_true_iff, String.eqb_neq. exact Hkne. }
  assert (truthy (Some endpoint) = true) as ->.
  { simpl. apply negb_true_iff, String.eqb_neq. exact Hene. }
  rewrite orb_true_r. reflexivity.
Qed.

(** The region is used only when the endpoint is unset or empty. *)
Lemma make_speech_config_region (environ : gmap string string) key region :
  environ !! "SPEECH_KEY" = Some key -> key <> "" ->
  environ !! "SPEECH_REGION" = Some region -> region <> "" ->
  truthy (environ !! "SPEECH_ENDPOINT") = false ->
  make_speech_config environ = inr (FromRegion key region).
Proof.
  intros Hk Hkne Hr Hrne He. unfold make_speech_config. rewrite Hk, Hr, He.
  assert (truthy (Some key) = true) as ->.
  { simpl. apply negb_true_iff, String.eqb_neq. exact Hkne. }
  assert (truthy (Some region) = true) as ->.
  { simpl. apply negb_true_iff, String.eqb_neq. exact Hrne. }
  reflexivity.
Qed.

(** C9: with the key, the region and the endpoint all set, the code builds
    the configuration from the endpoint, not from the region. *)
Theorem both_set_uses_endpoint :
  both_set !! "SPEECH_REGION" = Some "canadacentral"
  /\ both_set !! "SPEECH_ENDPOINT"
     = Some "https://canadacentral.api.cognitive.microsoft.com/"
  /\ make_speech_config both_set
     = inr (FromEndpoint "0123abcd" "https://canadacentral.api.cognitive.microsoft.com/")
  /\ make_speech_config both_set <> inr (FromRegion "0123abcd" "canadacentral").
Proof.
  split; [reflexivity|]. split; [reflexivity|].
  assert (make_speech_config both_set
          = inr (FromEndpoint "0123abcd"
                   "https://canadacentral.api.cognitive.microsoft.com/")) as E.
  { apply make_speech_config_endpoint; [reflexivity | discriminate
                                       | reflexivity | discriminate]. }
  split; [exact E|]. rewrite E. discriminate.
Qed.

(** C7: the SRT and WebVTT files written for the two segments
    {0.0, 1.5, "A"} and {1.5, 3.25, "B"}. *)
Theorem two_segments_subtitles :
  srt_content two_segments
  = "1" ++ NL ++ "00:00:00,000 --> 00:00:01,500" ++ NL ++ "A" ++ NL ++ NL
    ++ "2" ++ NL ++ "00:00:01,500 --> 00:00:03,250" ++ NL ++ "B" ++ NL ++ NL
  /\ vtt_content two_segments
     = "WEBVTT" ++ NL ++ NL
       ++ "00:00:00.000 --> 00:00:01.500" ++ NL ++ "A" ++ NL ++ NL
       ++ "00:00:01.500 --> 00:00:03.250" ++ NL ++ "B" ++ NL ++ NL
  /\ transcribe_one_outputs false false true true two_segments
     = [(".srt", srt_content two_segments); (".vtt", vtt_content two_segments)].
Proof.
  split; [vm_compute; reflexivity|]. split; [vm_compute; reflexivity|]. reflexivity.
Qed.

End SpeechToTextFacts.

(** ** SRT timestamps *)

Module SrtFacts.
Import PyStr PyFloat SpeechToText SrtSpec SrtFields PyFloatFacts Examples.
Local Open Scope string_scope.

Lemma format_0d_two n : (0 <= n < 100)%Z -> format_0d 2 n = two_digits n.
Proof.
  intros Hn.
  assert (List.forallb
            (fun i => String.eqb (format_0d 2 (Z.of_nat i)) (two_digits (Z.of_nat i)))
            (List.seq 0 100) = true) as Hall by (vm_compute; reflexivity).
  rewrite List.forallb_forall in Hall. specialize (Hall (Z.to_nat n)).
  rewrite Z2Nat.id in Hall by lia.
  apply String.eqb_eq, Hall, List.in_seq. lia.
Qed.

Lemma format_0d_three n : (0 <= n < 1000)%Z -> format_0d 3 n = three_digits n.
Proof.
  intros Hn.
  assert (List.forallb
            (fun i => String.eqb (format_0d 3 (Z.of_nat i)) (three_digits (Z.of_nat i)))
            (List.seq 0 1000) = true) as Hall by (vm_compute; reflexivity).
  rewrite List.forallb_forall in Hall. specialize (Hall (Z.to_nat n)).
  rewrite Z2Nat.id in Hall by lia.
  apply String.eqb_eq, Hall, List.in_seq. lia.
Qed.

Lemma is_digit_digit_char d : (0 <= d <= 9)%Z -> is_digit (digit_char d) = true.
Proof.
  intros Hd.
  assert (d = 0 \/ d = 1 \/ d = 2 \/ d = 3 \/ d = 4 \/ d = 5 \/ d = 6 \/ d = 7
          \/ d = 8 \/ d = 9)%Z as Hcases by lia.
  repeat (destruct Hcases as [-> | Hcases]; [reflexivity|]). subst. reflexivity.
Qed.

Lemma srt_shape_chars h1 h2 m1 m2 s1 s2 f1 f2 f3 :
  is_digit h1 = true -> is_digit h2 = true -> is_digit m1 = true ->
  is_digit m2 = true -> is_digit s1 = true -> is_digit s2 = true ->
  is_digit f1 = true -> is_digit f2 = true -> is_digit f3 = true ->
  is_srt_timestamp
    (String h1 (String h2 (String ":" (String m1 (String m2 (String ":"
       (String s1 (String s2 (String "," (String f1 (String f2 (String f3 ""))))))))))))
  = true.
Proof.
  intros H1 H2 H3 H4 H5 H6 H7 H8 H9. unfold is_srt_timestamp.
  cbn [list_ascii_of_string List.forallb].
  rewrite H1, H2, H3, H4, H5, H6, H7, H8, H9. reflexivity.
Qed.

Lemma srt_shape h m s ms :
  (0 <= h < 100)%Z -> (0 <= m < 100)%Z -> (0 <= s < 100)%Z -> (0 <= ms < 1000)%Z ->
  is_srt_timestamp
    (two_digits h ++ ":" ++ two_digits m ++ ":" ++ two_digits s ++ "," ++ three_digits ms)
  = true.
Proof.
  intros Hh Hm Hs Hms.
  assert (forall n, 0 <= n < 100 -> 0 <= n / 10 <= 9 /\ 0 <= n mod 10 <= 9)%Z as H2.
  { intros n Hn. pose proof (Z.mod_pos_bound n 10 ltac:(lia)).
    pose proof (Z.div_pos n 10 ltac:(lia) ltac:(lia)).
    pose proof (Z.div_lt_upper_bound n 10 10 ltac:(lia) ltac:(lia)). lia. }
  assert (0 <= ms / 100 <= 9)%Z.
  { pose proof (Z.div_pos ms 100 ltac:(lia) ltac:(lia)).
    pose proof (Z.div_lt_upper_bound ms 100 10 ltac:(lia) ltac:(lia)). lia. }
  pose proof (Z.mod_pos_bound ms 100 ltac:(lia)).
  exact (srt_shape_chars
           (digit_char (h / 10)) (digit_char (h mod 10))
           (digit_char (m / 10)) (digit_char (m mod 10))
           (digit_char (s / 10)) (digit_char (s mod 10))
           (digit_char (ms / 100)) (digit_char (ms mod 100 / 10))
           (digit_char (ms mod 100 mod 10))
           (is_digit_digit_char _ (proj1 (H2 h Hh)))
           (is_digit_digit_char _ (proj2 (H2 h Hh)))
           (is_digit_digit_char _ (proj1 (H2 m Hm)))
           (is_digit_digit_char _ (proj2 (H2 m Hm)))
           (is_digit_digit_char _ (proj1 (H2 s Hs)))
           (is_digit_digit_char _ (proj2 (H2 s Hs)))
           (is_digit_digit_char (ms / 100)%Z ltac:(lia))
           (is_digit_digit_char _ (proj1 (H2 (ms mod 100)%Z ltac:(lia))))
           (is_digit_digit_char _ (proj2 (H2 (ms mod 100)%Z ltac:(lia))))).
Qed.

Local Open Scope Z_scope.

(** Below a hundred hours the three floor divisions are exact. *)
Lemma sec_to_srt_fields t :
  0 <= t < 360000 * one ->
  sec_to_srt t
  = (format_0d 2 (to_int t / 3600) ++ ":" ++ format_0d 2 (to_int t / 60 mod 60) ++ ":"
       ++ format_0d 2 (to_int t mod 60) ++ "," ++ format_0d 3 (srt_millis t))%string.
Proof.
  intros Ht. pose proof one_pos as Hone.
  unfold sec_to_srt. fold (srt_millis t).
  rewrite (of_int_exact 3600), (of_int_exact 60) by lia.
  unfold float_rem, fmod. rewrite !Z.rem_mod_nonneg by lia.
  assert (t / (3600 * one) < 100) as Hh
    by (apply Z.div_lt_upper_bound; lia).
  assert (0 <= t / (3600 * one)) as Hh0 by (apply Z.div_pos; lia).
  pose proof (Z.mod_pos_bound t (3600 * one) ltac:(lia)) as Hr.
  assert (t mod (3600 * one) / (60 * one) = (t / (60 * one)) mod 60) as Em.
  { replace (3600 * one) with (60 * (60 * one)) by lia.
    apply mod_div_units; lia. }
  pose proof (Z.mod_pos_bound (t / (60 * one)) 60 ltac:(lia)) as Hm.
  rewrite (float_floor_div_int t 3600) by lia.
  rewrite (float_floor_div_int (t mod (3600 * one)) 60) by lia.
  rewrite !to_int_int, Em. unfold to_int at 1.
  rewrite (mod_div_units t 60 one) by lia.
  unfold to_int.
  rewrite (Z.div_div t one 3600), (Z.div_div t one 60) by lia.
  rewrite (Z.mul_comm one 3600), (Z.mul_comm one 60). reflexivity.
Qed.

(** What the milliseconds field is: the fractional part is exact, its
    product by 1000 is rounded to a float, and that is rounded to an int. *)
Lemma srt_millis_frac t :
  is_float t -> t < 360000 * one ->
  srt_millis t = round (fl (1000 * (t mod one)) 1).
Proof.
  intros Hf Ht. pose proof one_pos as Hone.
  pose proof Hf as [[Ht0 _] _].
  assert (0 <= to_int t < 360000) as Hu.
  { unfold to_int. split; [apply Z.div_pos; lia|].
    apply Z.div_lt_upper_bound; lia. }
  unfold srt_millis. rewrite (of_int_exact (to_int t)), (of_int_exact 1000) by lia.
  assert (t - to_int t * one = t mod one) as E.
  { unfold to_int. pose proof (Z.div_mod t one ltac:(lia)). lia. }
  unfold fsub. rewrite E, (frac_float t Hf).
  unfold fmul. replace (t mod one * (1000 * one)) with (1000 * (t mod one) * one) by lia.
  rewrite fl_scale by lia. reflexivity.
Qed.

Lemma srt_millis_nonneg t : is_float t -> t < 360000 * one -> 0 <= srt_millis t.
Proof.
  intros Hf Ht. rewrite srt_millis_frac by assumption. pose proof one_pos.
  pose proof (Z.mod_pos_bound t one ltac:(lia)).
  apply rne_nonneg; [lia|]. apply fl_nonneg. lia.
Qed.

(** C8, amended: for a float [t] below 360000 s (a hundred hours) whose
    milliseconds field comes out below 1000, [sec_to_srt t] has the form
    HH:MM:SS,mmm, two digits each for the hours, minutes and seconds of
    the whole seconds of [t] and three for the milliseconds; these are the
    fractional part times 1000, rounded to a float and then to an int, so
    that the time shown is within 0.5 + 2^-44 ms of [t]. *)
Theorem sec_to_srt_below_100h t :
  is_float t -> t < of_int 360000 -> srt_millis t < 1000 ->
  sec_to_srt t
  = (two_digits (to_int t / 3600) ++ ":" ++ two_digits (to_int t / 60 mod 60) ++ ":"
       ++ two_digits (to_int t mod 60) ++ "," ++ three_digits (srt_millis t))%string
  /\ is_srt_timestamp (sec_to_srt t) = true
  /\ srt_millis t = round (fl (1000 * (t mod one)) 1)
  /\ 2 * Z.abs ((1000 * to_int t + srt_millis t) * one - 1000 * t) <= one + 2 ^ 1031.
Proof.
  intros Hf Ht Hms. rewrite (of_int_exact 360000) in Ht by lia.
  pose proof one_pos as Hone. pose proof Hf as [[Ht0 _] _].
  pose proof (srt_millis_nonneg t Hf Ht) as Hms0.
  assert (0 <= to_int t < 360000) as Hu.
  { unfold to_int. split; [apply Z.div_pos; lia|].
    apply Z.div_lt_upper_bound; lia. }
  assert (0 <= to_int t / 3600 < 100) as Hh.
  { split; [apply Z.div_pos; lia | apply Z.div_lt_upper_bound; lia]. }
  pose proof (Z.mod_pos_bound (to_int t / 60) 60 ltac:(lia)) as Hm.
  pose proof (Z.mod_pos_bound (to_int t) 60 ltac:(lia)) as Hs.
  assert (sec_to_srt t
          = (two_digits (to_int t / 3600) ++ ":" ++ two_digits (to_int t / 60 mod 60)
               ++ ":" ++ two_digits (to_int t mod 60) ++ ","
               ++ three_digits (srt_millis t))%string) as E.
  { rewrite sec_to_srt_fields by lia.
    rewrite !format_0d_two, format_0d_three by lia. reflexivity. }
  split; [exact E|]. split; [rewrite E; apply srt_shape; lia|].
  split; [apply srt_millis_frac; assumption|].
  rewrite (srt_millis_frac t Hf Ht).
  pose proof (Z.mod_pos_bound t one ltac:(lia)) as Hfrac.
  assert (1000 * one < 2 ^ 1084) as Hbig by reflexivity.
  pose proof (fl_error (1000 * (t mod one)) ltac:(lia)) as Herr.
  pose proof (rne_error (fl (1000 * (t mod one)) 1) one Hone) as Hrnd.
  fold (round (fl (1000 * (t mod one)) 1)) in Hrnd.
  assert (t = to_int t * one + t mod one) as Et.
  { unfold to_int. pose proof (Z.div_mod t one ltac:(lia)). lia. }
  lia.
Qed.

End SrtFacts.

Module SrtWitnesses.
Import PyStr PyFloat SpeechToText SrtSpec SrtFields PyFloatFacts SrtFacts Examples.
Local Open Scope string_scope.

Lemma is_float_t_100h : is_float t_100h.
Proof.
  unfold is_float. split; [split|]; vm_compute; (reflexivity || discriminate).
Qed.

Lemma is_float_t_2047_2048 : is_float t_2047_2048.
Proof.
  unfold is_float. split; [split|]; vm_compute; (reflexivity || discriminate).
Qed.

(** At a hundred hours the hours field takes three digits. *)
Lemma sec_to_srt_hundred_hours :
  is_float t_100h
  /\ sec_to_srt t_100h = "100:00:00,000"
  /\ is_srt_timestamp (sec_to_srt t_100h) = false.
Proof.
  split; [exact is_float_t_100h|]. split; vm_compute; reflexivity.
Qed.

(** At 2047/2048 s the fractional part rounds up to 1000 ms, which is
    printed as it is, with no carry into the seconds. *)
Example sec_to_srt_millis_overflow :
  is_float t_2047_2048
  /\ srt_millis t_2047_2048 = 1000%Z
  /\ sec_to_srt t_2047_2048 = "00:00:00,1000".
Proof.
  split; [exact is_float_t_2047_2048|]. split; vm_compute; reflexivity.
Qed.

(** The product by 1000 is rounded before [round] sees it: the float
    nearest to 0.0005 is above half a millisecond, yet its product rounds
    to 0.5 exactly and then to 0. *)
Example sec_to_srt_double_rounding :
  is_float t_0_0005
  /\ (one < 2 * (1000 * t_0_0005))%Z
  /\ fmul t_0_0005 (of_int 1000) = of_bits 1 (-1)
  /\ sec_to_srt t_0_0005 = "00:00:00,000".
Proof.
  split; [unfold is_float; split; [split|]; vm_compute; (reflexivity || discriminate)|].
  split; [|split]; vm_compute; reflexivity.
Qed.

Lemma sec_to_srt_below_100h_witness :
  is_float t_1_5 /\ (t_1_5 < of_int 360000)%Z /\ (srt_millis t_1_5 < 1000)%Z
  /\ sec_to_srt t_1_5 = "00:00:01,500".
Proof.
  assert (is_float t_1_5) as H0
    by (unfold is_float; split; [split|]; vm_compute; (reflexivity || discriminate)).
  assert (t_1_5 < of_int 360000)%Z as H1 by (vm_compute; reflexivity).
  assert (srt_millis t_1_5 < 1000)%Z as H2 by (vm_compute; reflexivity).
  split; [exact H0|]. split; [exact H1|]. split; [exact H2|].
  rewrite (proj1 (sec_to_srt_below_100h t_1_5 H0 H1 H2)).
  vm_compute. reflexivity.
Defined.
End SrtWitnesses.

(** ** More on normalisation, the root and the grouping *)

Module SplitMore.
Import Unicode Re SsmlToWav PrologSpec RootSpec SplitSpec ReFacts PrologFacts RootFacts
  SplitFacts Examples.

Section More.
Context `{WordTable}.

Lemma strip_bom_suffix s : strip_bom s `suffix_of` s.
Proof.
  destruct s as [|x s]; [reflexivity|]. simpl.
  destruct (x =? BOM)%N; [apply suffix_cons_r|]; reflexivity.
Qed.

Lemma sub_bol_suffix r s : sub (Bol :: r) s `suffix_of` s.
Proof.
  rewrite sub_bol. destruct (match_here (Bol :: r) None s) eqn:E; [|reflexivity].
  eapply match_here_suffix, E.
Qed.

(** X1: [normalize_prolog] only removes a leading part of the text: what it
    returns is a suffix of what it was given, and so never longer. *)
Theorem normalize_prolog_suffix ssml_text :
  normalize_prolog ssml_text `suffix_of` ssml_text
  /\ (length (normalize_prolog ssml_text) <= length ssml_text)%nat.
Proof.
  assert (normalize_prolog ssml_text `suffix_of` ssml_text) as Hs.
  { unfold normalize_prolog.
    etransitivity; [apply (sub_bol_suffix (tail top_comment_re))|].
    etransitivity; [apply (sub_bol_suffix (tail xml_prolog_re))|].
    apply strip_bom_suffix. }
  split; [exact Hs | apply suffix_length, Hs].
Qed.

(** A match found by a search lies where the match object says. *)
Lemma search_from_split r : forall s seen m,
  search_from r seen s = Some m ->
  rev seen ++ s = before m ++ group0 m ++ after m.
Proof.
  induction s as [|x s IH]; intros seen m; cbn [search_from].
  - destruct (match_here r (head seen) []) as [rest|] eqn:E; [|discriminate].
    intros [= <-]. cbn [before group0 after].
    rewrite <- (match_here_split _ _ _ _ E). reflexivity.
  - destruct (match_here r (head seen) (x :: s)) as [rest|] eqn:E.
    + intros [= <-]. cbn [before group0 after].
      rewrite <- (match_here_split _ _ _ _ E). reflexivity.
    + intros Hm. apply IH in Hm. rewrite <- Hm. cbn [rev].
      rewrite <- app_assoc. reflexivity.
Qed.

Lemma search_split r s m :
  search r s = Some m -> s = before m ++ group0 m ++ after m.
Proof. intros Hm. apply (search_from_split r s [] m Hm). Qed.

Lemma prefix_between {A} (txt P rest1 M rest2 : list A) :
  txt = P ++ rest1 -> txt = M ++ rest2 -> (length P <= length M)%nat ->
  M = P ++ take (length M - length P) (drop (length P) txt).
Proof.
  intros E1 E2 Hle.
  assert (M = take (length M) txt) as HM by (rewrite E2, take_app_length; reflexivity).
  rewrite E1, drop_app_length. rewrite HM at 1.
  rewrite E1, take_app, take_ge by lia. reflexivity.
Qed.

(** X2: when [extract_speak_body] returns (open_tag, body, close_tag), both
    tags occur in the normalised text; if the close tag starts at or after
    the end of the open tag, the text is what precedes the open tag, the
    open tag, the body, the close tag and what follows it, so the body is
    the text between the tags, character for character; otherwise the body
    is empty. *)
Theorem extract_speak_body_parts ssml_text o body c :
  extract_speak_body ssml_text = inr (o, body, c) ->
  exists pre mid post post',
    normalize_prolog ssml_text = pre ++ o ++ post
    /\ normalize_prolog ssml_text = mid ++ c ++ post'
    /\ ((length pre + length o <= length mid)%nat ->
        normalize_prolog ssml_text = pre ++ o ++ body ++ c ++ post')
    /\ ((length mid <= length pre + length o)%nat -> body = []).
Proof.
  unfold extract_speak_body.
  destruct (search speak_open_re (normalize_prolog ssml_text)) as [mo|] eqn:Eo;
    [|discriminate].
  destruct (search speak_close_re (normalize_prolog ssml_text)) as [mc|] eqn:Ec;
    [|discriminate].
  intros [= <- <- <-].
  pose proof (search_split _ _ _ Eo) as Ho.
  pose proof (search_split _ _ _ Ec) as Hc.
  exists (before mo), (before mc), (after mo), (after mc).
  split; [exact Ho|]. split; [exact Hc|].
  unfold slice, m_end, m_start. split.
  - intros Hle. rewrite <- length_app in *.
    rewrite app_assoc in Ho.
    pose proof (prefix_between _ _ _ _ _ Ho Hc Hle) as Hmid.
    rewrite Hc at 1. rewrite Hmid at 1. rewrite <- !app_assoc. reflexivity.
  - intros Hle.
    replace (length (before mc) - (length (before mo) + length (group0 mo)))%nat
      with 0%nat by lia.
    reflexivity.
Qed.

Lemma group_fold_nonpositive M vbs : M <= 0 -> forall gs,
  fold_left (group_step M) vbs (gs, []) = (gs ++ List.map (fun vb => [vb]) vbs, []).
Proof.
  intros HM. induction vbs as [|vb vbs IH]; intros gs; simpl.
  - rewrite app_nil_r. reflexivity.
  - assert ((Z.of_nat 1 >=? M) = true) as ->.
    { rewrite Z.geb_leb. apply Z.leb_le. lia. }
    rewrite IH, <- app_assoc. reflexivity.
Qed.

(** X3: with a maximum of zero or less, every block is flushed as soon as
    it is read: each chunk holds exactly one block, and there are as many
    chunks as blocks. *)
Theorem split_nonpositive_max ssml_text M o body c :
  M <= 0 ->
  extract_speak_body ssml_text = inr (o, body, c) ->
  split_ssml_by_voice ssml_text M
  = inr (List.map (fun vb => o ++ [LF] ++ vb ++ [LF] ++ c) (voice_blocks_of body)).
Proof.
  intros HM E. rewrite (split_ssml_by_voice_groups _ M _ _ _ E).
  unfold group_blocks. rewrite (group_fold_nonpositive M _ HM []).
  cbn [app]. rewrite List.map_map. reflexivity.
Qed.

Lemma voice_blocks_of_nonempty body : voice_blocks_of body <> [].
Proof.
  unfold voice_blocks_of. destruct (findall voice_block_re body); discriminate.
Qed.

Lemma group_blocks_nil M vbs : group_blocks M vbs = [] -> vbs = [].
Proof.
  intros E. rewrite <- (group_blocks_concat M vbs), E. reflexivity.
Qed.

Lemma extract_speak_body_error ssml_text e :
  extract_speak_body ssml_text = inl e ->
  e = ValueError no_root_msg /\ no_root ssml_text.
Proof.
  unfold no_root, extract_speak_body. intros E.
  destruct (search speak_open_re (normalize_prolog ssml_text)) as [mo|].
  - destruct (search speak_close_re (normalize_prolog ssml_text)) as [mc|];
      [discriminate|].
    injection E as <-. split; [|right]; reflexivity.
  - injection E as <-. split; [|left]; reflexivity.
Qed.

Lemma extract_speak_body_found ssml_text r :
  extract_speak_body ssml_text = inr r -> ~ no_root ssml_text.
Proof.
  unfold no_root, extract_speak_body. intros E [Hn | Hn]; rewrite Hn in E.
  - discriminate.
  - destruct (search speak_open_re (normalize_prolog ssml_text)); discriminate.
Qed.

Lemma split_chunks_nonempty ssml_text M o body c :
  extract_speak_body ssml_text = inr (o, body, c) ->
  exists part parts, split_ssml_by_voice ssml_text M = inr (part :: parts).
Proof.
  intros E. rewrite (split_ssml_by_voice_groups _ M _ _ _ E).
  destruct (group_blocks M (voice_blocks_of body)) as [|g gs] eqn:Eg.
  - apply group_blocks_nil in Eg. destruct (voice_blocks_of_nonempty _ Eg).
  - eexists _, _. reflexivity.
Qed.

(** X4: the split either raises the ValueError about the missing root,
    which it does exactly when the open tag or the close tag is not found,
    or returns at least one chunk: never an empty list, and never another
    exception, whatever the maximum. *)
Theorem split_ssml_by_voice_outcome ssml_text M :
  (no_root ssml_text
   /\ split_ssml_by_voice ssml_text M = inl (ValueError no_root_msg))
  \/ (~ no_root ssml_text
      /\ exists part parts, split_ssml_by_voice ssml_text M = inr (part :: parts)).
Proof.
  destruct (extract_speak_body ssml_text) as [e|[[o body] c]] eqn:E.
  - left. destruct (extract_speak_body_error _ _ E) as [-> Hn].
    split; [exact Hn|]. unfold split_ssml_by_voice. rewrite E. reflexivity.
  - right. split; [apply (extract_speak_body_found _ _ E)|].
    apply (split_chunks_nonempty _ M _ _ _ E).
Qed.

(** X5: with a positive maximum [M], every chunk but the last is rendered
    from exactly [M] blocks, and the last from at least one and at most
    [M]. *)
Theorem chunk_sizes ssml_text M o body c :
  1 <= M ->
  extract_speak_body ssml_text = inr (o, body, c) ->
  split_ssml_by_voice ssml_text M
  = inr (List.map (wrap o c) (group_blocks M (voice_blocks_of body)))
  /\ forall i g,
      group_blocks M (voice_blocks_of body) !! i = Some g ->
      1 <= Z.of_nat (length g) <= M
      /\ ((S i < length (group_blocks M (voice_blocks_of body)))%nat ->
          Z.of_nat (length g) = M).
Proof.
  intros HM E. split; [apply split_ssml_by_voice_groups, E|].
  unfold group_blocks.
  destruct (group_fold_sizes M (voice_blocks_of body) HM [] [])
    as [Hgs Hcur]; [constructor | simpl; lia |].
  destruct (fold_left (group_step M) (voice_blocks_of body) ([], [])) as [gs cur].
  cbn [fst snd] in *.
  assert (forall i g, gs !! i = Some g -> Z.of_nat (length g) = M) as Hfull.
  { intros i g Hg. rewrite Forall_lookup in Hgs. apply (Hgs i g Hg). }
  destruct cur as [|x cur].
  - intros i g Hg. pose proof (Hfull i g Hg). split; [lia | intros _; assumption].
  - intros i g Hg. apply lookup_app_Some in Hg as [Hg | [Hge Hg]].
    + pose proof (Hfull i g Hg). split; [lia | intros _; assumption].
    + apply list_lookup_singleton_Some in Hg as [Hi <-].
      split; [simpl in *; lia|]. rewrite length_app. simpl. lia.
Qed.

(** X6: when the maximum is at least the number of blocks, nothing is
    split: the result is the single chunk that holds all the blocks. *)
Theorem split_single_chunk ssml_text M o body c :
  Z.of_nat (length (voice_blocks_of body)) <= M ->
  extract_speak_body ssml_text = inr (o, body, c) ->
  split_ssml_by_voice ssml_text M
  = inr [o ++ [LF] ++ join_lines (voice_blocks_of body) ++ [LF] ++ c].
Proof.
  intros HN E. rewrite (split_ssml_by_voice_groups _ M _ _ _ E).
  pose proof (voice_blocks_of_nonempty body) as Hne.
  assert (1 <= M) as HM.
  { destruct (voice_blocks_of body); [congruence | simpl in HN; lia]. }
  pose proof (group_blocks_count M (voice_blocks_of body) HM) as Hc.
  pose proof (group_blocks_concat M (voice_blocks_of body)) as Hcat.
  assert (ceil_div (Z.of_nat (length (voice_blocks_of body))) M = 1) as H1.
  { apply ceil_div_spec; [lia|].
    destruct (voice_blocks_of body); [congruence | simpl in *; lia]. }
  rewrite H1 in Hc.
  destruct (group_blocks M (voice_blocks_of body)) as [|g [|g' gs]];
    simpl in Hc; try lia.
  simpl in Hcat. rewrite app_nil_r in Hcat. subst g. reflexivity.
Qed.

End More.
End SplitMore.

Module SplitMoreWitnesses.
Import Unicode Re SsmlToWav PrologSpec RootSpec SplitSpec SplitMore Examples.

Lemma extract_speak_body_parts_witness :
  extract_speak_body (H := ascii_words) three_voices
  = inr (of_string "<speak>",
         of_string "<voice>a</voice>x<voice>b</voice>y<voice>c</voice>",
         of_string "</speak>")
  /\ exists pre mid post post',
      normalize_prolog (H := ascii_words) three_voices
      = pre ++ of_string "<speak>" ++ post
      /\ normalize_prolog (H := ascii_words) three_voices
         = mid ++ of_string "</speak>" ++ post'.
Proof.
  split; [reflexivity|].
  destruct (extract_speak_body_parts (H := ascii_words) three_voices
              (of_string "<speak>")
              (of_string "<voice>a</voice>x<voice>b</voice>y<voice>c</voice>")
              (of_string "</speak>") eq_refl)
    as (pre & mid & post & post' & Ho & Hc & _).
  exists pre, mid, post, post'. split; assumption.
Defined.

Lemma split_nonpositive_max_witness :
  0 <= 0
  /\ extract_speak_body (H := ascii_words) three_voices
     = inr (of_string "<speak>",
            of_string "<voice>a</voice>x<voice>b</voice>y<voice>c</voice>",
            of_string "</speak>")
  /\ split_ssml_by_voice (H := ascii_words) three_voices 0
     = inr [of_string "<speak>" ++ [LF] ++ of_string "<voice>a</voice>" ++ [LF]
              ++ of_string "</speak>";
            of_string "<speak>" ++ [LF] ++ of_string "<voice>b</voice>" ++ [LF]
              ++ of_string "</speak>";
            of_string "<speak>" ++ [LF] ++ of_string "<voice>c</voice>" ++ [LF]
              ++ of_string "</speak>"].
Proof.
  split; [lia|]. split; [reflexivity|].
  rewrite (split_nonpositive_max (H := ascii_words) three_voices 0
             (of_string "<speak>")
             (of_string "<voice>a</voice>x<voice>b</voice>y<voice>c</voice>")
             (of_string "</speak>") ltac:(lia) eq_refl).
  reflexivity.
Defined.

Lemma chunk_sizes_witness :
  1 <= 2
  /\ extract_speak_body (H := ascii_words) three_voices
     = inr (of_string "<speak>",
            of_string "<voice>a</voice>x<voice>b</voice>y<voice>c</voice>",
            of_string "</speak>")
  /\ forall i g,
      group_blocks 2
        (voice_blocks_of (H := ascii_words)
           (of_string "<voice>a</voice>x<voice>b</voice>y<voice>c</voice>")) !! i
      = Some g ->
      1 <= Z.of_nat (length g) <= 2.
Proof.
  split; [lia|]. split; [reflexivity|].
  intros i g Hg.
  exact (proj1 (proj2 (chunk_sizes (H := ascii_words) three_voices 2
                         (of_string "<speak>")
                         (of_string "<voice>a</voice>x<voice>b</voice>y<voice>c</voice>")
                         (of_string "</speak>") ltac:(lia) eq_refl) i g Hg)).
Defined.

Lemma split_single_chunk_witness :
  Z.of_nat (length (voice_blocks_of (H := ascii_words)
                      (of_string "<voice>a</voice>x<voice>b</voice>y<voice>c</voice>")))
  <= 48
  /\ extract_speak_body (H := ascii_words) three_voices
     = inr (of_string "<speak>",
            of_string "<voice>a</voice>x<voice>b</voice>y<voice>c</voice>",
            of_string "</speak>")
  /\ split_ssml_by_voice (H := ascii_words) three_voices 48
     = inr [of_string "<speak>" ++ [LF]
              ++ of_string "<voice>a</voice>" ++ [LF] ++ of_string "<voice>b</voice>"
              ++ [LF] ++ of_string "<voice>c</voice>" ++ [LF] ++ of_string "</speak>"].
Proof.
  assert (Z.of_nat (length (voice_blocks_of (H := ascii_words)
                      (of_string "<voice>a</voice>x<voice>b</voice>y<voice>c</voice>")))
          <= 48) as HN by (vm_compute; discriminate).
  split; [exact HN|]. split; [reflexivity|].
  rewrite (split_single_chunk (H := ascii_words) three_voices 48
             (of_string "<speak>")
             (of_string "<voice>a</voice>x<voice>b</voice>y<voice>c</voice>")
             (of_string "</speak>") HN eq_refl).
  reflexivity.
Defined.
End SplitMoreWitnesses.

(** ** What the patterns match *)

Module ReMore.
Import Unicode Re SsmlToWav ReSpec ReFacts.

Section Spans.
Context `{WordTable}.

Lemma excludes_cons c i r :
  excludes c (i :: r) = true ->
  excludes c r = true
  /\ match i with
     | One cl | Star cl | LazyStar cl => accepts cl c = false
     | WordB | Bol => True
     end.
Proof.
  unfold excludes, classes. destruct i as [cl|cl|cl| |]; simpl;
    rewrite ?andb_true_iff, ?negb_true_iff; intuition.
Qed.

(** A match of r ++ tail is a stretch that [r] accounts for, free of the
    characters [r] excludes, followed by a match of [tail]. *)
Lemma match_here_span c tail r : forall prev s rest,
  excludes c r = true ->
  match_here (r ++ tail) prev s = Some rest ->
  exists m s' prev',
    s = m ++ s' /\ (c ∉ m) /\ match_here tail prev' s' = Some rest.
Proof.
  induction r as [|i r IH]; intros prev s rest Hex Hm.
  - exists [], s, prev. repeat split; [apply not_elem_of_nil | exact Hm].
  - apply excludes_cons in Hex as [Hex Hi]. specialize (IH).
    destruct i as [cl|cl|cl| |].
    + cbn [app match_here] in Hm. destruct s as [|x s]; [discriminate|].
      destruct (accepts cl x) eqn:Hx; [|discriminate].
      destruct (IH _ _ _ Hex Hm) as (m & s' & prev' & -> & Hc & Ht).
      exists (x :: m), s', prev'. repeat split; [|exact Ht].
      apply not_elem_of_cons. split; [|exact Hc]. intros <-. congruence.
    + change ((Star cl :: r) ++ tail) with (Star cl :: (r ++ tail)) in Hm.
      revert prev Hm. induction s as [|x s IHs]; intros prev Hm;
        rewrite match_here_star in Hm.
      * apply (IH _ _ _ Hex Hm).
      * destruct (accepts cl x) eqn:Hx; [|apply (IH _ _ _ Hex Hm)].
        destruct (match_here (Star cl :: r ++ tail) (Some x) s) as [rest'|] eqn:Hg;
          [|apply (IH _ _ _ Hex Hm)].
        injection Hm as ->.
        destruct (IHs _ Hg) as (m & s' & prev' & -> & Hc & Ht).
        exists (x :: m), s', prev'. repeat split; [|exact Ht].
        apply not_elem_of_cons. split; [|exact Hc]. intros <-. congruence.
    + change ((LazyStar cl :: r) ++ tail) with (LazyStar cl :: (r ++ tail)) in Hm.
      revert prev Hm. induction s as [|x s IHs]; intros prev Hm;
        rewrite match_here_lazy in Hm.
      * destruct (match_here (r ++ tail) prev []) as [rest'|] eqn:Hr; [|discriminate].
        injection Hm as ->. apply (IH _ _ _ Hex Hr).
      * destruct (match_here (r ++ tail) prev (x :: s)) as [rest'|] eqn:Hr.
        -- injection Hm as ->. apply (IH _ _ _ Hex Hr).
        -- destruct (accepts cl x) eqn:Hx; [|discriminate].
           destruct (IHs _ Hm) as (m & s' & prev' & -> & Hc & Ht).
           exists (x :: m), s', prev'. repeat split; [|exact Ht].
           apply not_elem_of_cons. split; [|exact Hc]. intros <-. congruence.
    + cbn [app match_here] in Hm.
      destruct (at_boundary prev s); [|discriminate]. apply (IH _ _ _ Hex Hm).
    + cbn [app match_here] in Hm.
      destruct prev; [discriminate|]. apply (IH _ _ _ Hex Hm).
Qed.

(** What a search returns is a match at the place it names. *)
Lemma search_from_match r : forall s seen m,
  search_from r seen s = Some m ->
  exists prev, match_here r prev (group0 m ++ after m) = Some (after m).
Proof.
  induction s as [|x s IH]; intros seen m; cbn [search_from].
  - destruct (match_here r (head seen) []) as [rest|] eqn:E; [|discriminate].
    intros [= <-]. cbn [group0 after]. exists (head seen).
    rewrite <- (match_here_split _ _ _ _ E). exact E.
  - destruct (match_here r (head seen) (x :: s)) as [rest|] eqn:E.
    + intros [= <-]. cbn [group0 after]. exists (head seen).
      rewrite <- (match_here_split _ _ _ _ E). exact E.
    + apply IH.
Qed.

(** A pattern "<" r ">" where [r] excludes ">" matches single tags. *)
Lemma tag_pattern r prev s rest :
  excludes GT r = true ->
  match_here (One (Lit LT) :: r ++ [One (Lit GT)]) prev s = Some rest ->
  exists m, s = (LT :: m ++ [GT]) ++ rest /\ GT ∉ m.
Proof.
  intros Hex Hm. cbn [match_here] in Hm.
  destruct s as [|x s]; [discriminate|].
  destruct (accepts (Lit LT) x) eqn:Hx; [|discriminate].
  cbn [accepts] in Hx. apply N.eqb_eq in Hx as ->.
  destruct (match_here_span GT _ r _ _ _ Hex Hm) as (m & s' & prev' & -> & Hc & Ht).
  cbn [match_here] in Ht. destruct s' as [|y s']; [discriminate|].
  destruct (accepts (Lit GT) y) eqn:Hy; [|discriminate].
  cbn [accepts] in Hy. apply N.eqb_eq in Hy as ->. injection Ht as ->.
  exists m. split; [|exact Hc].
  cbn [app]. rewrite <- app_assoc. reflexivity.
Qed.

Lemma search_tag r s m :
  excludes GT r = true ->
  search (One (Lit LT) :: r ++ [One (Lit GT)]) s = Some m ->
  is_tag (group0 m).
Proof.
  intros Hex Hs. destruct (search_from_match _ _ _ _ Hs) as [prev Hm].
  destruct (tag_pattern _ _ _ _ Hex Hm) as (g & Hg & Hc).
  apply app_inv_tail in Hg. exists g. split; assumption.
Qed.

End Spans.
End ReMore.

Module TagFacts.
Import Unicode Re SsmlToWav ReSpec ReFacts ReMore SplitFacts.

Section Tags.
Context `{WordTable}.

(** X7: the open tag and the close tag that [extract_speak_body] returns
    are single tags: each starts with "<", ends with ">" and has no ">"
    before its end.  So every chunk of the split starts with "<" and ends
    with ">". *)
Theorem extract_speak_body_tags ssml_text o body c :
  extract_speak_body ssml_text = inr (o, body, c) ->
  is_tag o /\ is_tag c
  /\ forall M parts,
       split_ssml_by_voice ssml_text M = inr parts ->
       Forall (fun part => head part = Some LT /\ last part = Some GT) parts.
Proof.
  intros E.
  assert (is_tag o /\ is_tag c) as [Ho Hc].
  { unfold extract_speak_body in E.
    destruct (search speak_open_re (normalize_prolog ssml_text)) as [mo|] eqn:Eo;
      [|discriminate].
    destruct (search speak_close_re (normalize_prolog ssml_text)) as [mc|] eqn:Ec;
      [|discriminate].
    injection E as <- _ <-. split.
    - apply (search_tag ([Star Space] ++ litsI "speak" ++ [WordB; Star (Not GT)])
               _ _ eq_refl Eo).
    - apply (search_tag ([One (Lit SLASH); Star Space] ++ litsI "speak" ++ [Star Space])
               _ _ eq_refl Ec). }
  split; [exact Ho|]. split; [exact Hc|].
  intros M parts Hparts.
  rewrite (split_ssml_by_voice_groups _ M _ _ _ E) in Hparts. injection Hparts as <-.
  apply Forall_forall. intros part Hin.
  apply list_elem_of_In, List.in_map_iff in Hin as (g & <- & _).
  destruct Ho as (mo & -> & _). destruct Hc as (mc & -> & _).
  unfold wrap. split; [reflexivity|].
  match goal with
  | |- last ?l = _ =>
      replace l with (((LT :: mo ++ [GT]) ++ LF :: join_lines g ++ LF :: LT :: mc) ++ [GT])
  end.
  - apply last_snoc.
  - rewrite <- !app_assoc. cbn [app]. rewrite <- !app_assoc. reflexivity.
Qed.

End Tags.
End TagFacts.

Module TagWitnesses.
Import Unicode Re SsmlToWav ReSpec TagFacts Examples.

Lemma extract_speak_body_tags_witness :
  exists o body c,
    extract_speak_body (H := ascii_words) three_voices = inr (o, body, c)
    /\ is_tag o /\ is_tag c.
Proof.
  destruct (extract_speak_body (H := ascii_words) three_voices)
    as [e|[[o body] c]] eqn:E; [vm_compute in E; discriminate|].
  exists o, body, c. split; [reflexivity|].
  destruct (extract_speak_body_tags (H := ascii_words) three_voices o body c E)
    as (Ho & Hc & _).
  split; assumption.
Defined.
End TagWitnesses.

(** ** Counting voice elements *)

Module CountFacts.
Import Unicode Re SsmlToWav ReSpec ReFacts ReMore.

Section Count.
Context `{WordTable}.

(** When a pattern matches, so does every pattern it starts with. *)
Lemma match_here_prefix tail r : forall prev s rest,
  match_here (r ++ tail) prev s = Some rest ->
  exists rest', match_here r prev s = Some rest'.
Proof.
  induction r as [|i r IH]; intros prev s rest Hm.
  - exists s. reflexivity.
  - destruct i as [cl|cl|cl| |].
    + cbn [app match_here] in *. destruct s as [|x s]; [discriminate|].
      destruct (accepts cl x); [|discriminate]. apply (IH _ _ _ Hm).
    + change ((Star cl :: r) ++ tail) with (Star cl :: (r ++ tail)) in Hm.
      revert prev Hm. induction s as [|x s IHs]; intros prev Hm;
        rewrite match_here_star in Hm; rewrite match_here_star.
      * apply (IH _ _ _ Hm).
      * destruct (accepts cl x); [|apply (IH _ _ _ Hm)].
        destruct (match_here (Star cl :: r ++ tail) (Some x) s) as [rest'|] eqn:Hg.
        -- injection Hm as ->.
           destruct (IHs _ Hg) as [rest'' ->]. exists rest''. reflexivity.
        -- destruct (match_here (Star cl :: r) (Some x) s) as [rest''|];
             [exists rest''; reflexivity | apply (IH _ _ _ Hm)].
    + change ((LazyStar cl :: r) ++ tail) with (LazyStar cl :: (r ++ tail)) in Hm.
      revert prev Hm. induction s as [|x s IHs]; intros prev Hm;
        rewrite match_here_lazy in Hm; rewrite match_here_lazy.
      * destruct (match_here (r ++ tail) prev []) as [rest'|] eqn:Hr; [|discriminate].
        destruct (IH _ _ _ Hr) as [rest'' ->]. exists rest''. reflexivity.
      * destruct (match_here (r ++ tail) prev (x :: s)) as [rest'|] eqn:Hr.
        -- destruct (IH _ _ _ Hr) as [rest'' ->]. exists rest''. reflexivity.
        -- destruct (match_here r prev (x :: s)) as [rest''|];
             [exists rest''; reflexivity|].
           destruct (accepts cl x); [|discriminate]. apply (IHs _ Hm).
    + cbn [app match_here] in *.
      destruct (at_boundary prev s); [|discriminate]. apply (IH _ _ _ Hm).
    + cbn [app match_here] in *.
      destruct prev; [discriminate|]. apply (IH _ _ _ Hm).
Qed.

(** A match of "<" r, where [r] excludes "<", has its only "<" in front. *)
Lemma open_pattern r prev s rest :
  excludes LT r = true ->
  match_here (One (Lit LT) :: r) prev s = Some rest ->
  exists s', s = LT :: s'
    /\ LT ∉ take (pred (length s - length rest)) s'.
Proof.
  intros Hex Hm. pose proof (match_here_suffix _ _ _ _ Hm) as Hsuf.
  cbn [match_here] in Hm. destruct s as [|x s]; [discriminate|].
  destruct (accepts (Lit LT) x) eqn:Hx; [|discriminate].
  cbn [accepts] in Hx. apply N.eqb_eq in Hx as ->.
  exists s. split; [reflexivity|].
  rewrite <- (app_nil_r r) in Hm.
  destruct (match_here_span LT [] r _ _ _ Hex Hm) as (m & s' & prev' & -> & Hc & Ht).
  cbn [match_here] in Ht. injection Ht as ->.
  cbn [length]. rewrite length_app.
  replace (pred (S (length m + length rest) - length rest)) with (length m) by lia.
  rewrite take_app_length. exact Hc.
Qed.

Lemma findall_from_nil r prev skip :
  match_here r prev [] = None -> findall_from r prev skip [] = [].
Proof.
  intros Hn. cbn [findall_from]. unfold match_len.
  destruct skip; [rewrite Hn|]; reflexivity.
Qed.

(** A scan for a pattern finds no more matches than a scan for a pattern
    "<" r it starts with, when [r] excludes "<": the second scan is never
    inside a match where the first one finds its next match. *)
Lemma findall_from_le r1 r tail :
  r1 = (One (Lit LT) :: r) ++ tail ->
  excludes LT r = true ->
  forall s prev skip1 skip2,
    LT ∉ take skip2 s ->
    (length (findall_from r1 prev skip1 s)
     <= length (findall_from (One (Lit LT) :: r) prev skip2 s))%nat.
Proof.
  intros -> Hex. induction s as [|x s IH]; intros prev skip1 skip2 Hinv.
  - rewrite (findall_from_nil ((One (Lit LT) :: r) ++ tail)) by reflexivity.
    cbn [length]. lia.
  - cbn [findall_from].
    destruct (match_len ((One (Lit LT) :: r) ++ tail) prev skip1 (x :: s))
      as [n1|] eqn:E1.
    + unfold match_len in E1. destruct skip1; [|discriminate].
      destruct (match_here ((One (Lit LT) :: r) ++ tail) prev (x :: s))
        as [rest1|] eqn:Hm1; [|discriminate].
      destruct (match_here_prefix _ _ _ _ _ Hm1) as [rest2 Hm2].
      destruct (open_pattern _ _ _ _ Hex Hm2) as (s' & Es & Hno).
      injection Es as -> <-.
      destruct skip2 as [|k2].
      * unfold match_len. rewrite Hm2. cbn [length].
        apply le_n_S, IH. exact Hno.
      * exfalso. apply Hinv. cbn [take]. apply list_elem_of_here.
    + destruct (match_len (One (Lit LT) :: r) prev skip2 (x :: s)) as [n2|] eqn:E2.
      * unfold match_len in E2. destruct skip2; [|discriminate].
        destruct (match_here (One (Lit LT) :: r) prev (x :: s))
          as [rest2|] eqn:Hm2; [|discriminate].
        injection E2 as <-.
        destruct (open_pattern _ _ _ _ Hex Hm2) as (s' & Es & Hno).
        injection Es as -> <-.
        cbn [length]. apply Nat.le_le_succ_r, IH. exact Hno.
      * apply IH. destruct skip2 as [|k2]; [apply not_elem_of_nil|].
        cbn [pred]. intros Hin. apply Hinv. cbn [take].
        apply list_elem_of_further, Hin.
Qed.

(** X8: in any text, [count_voice_elements] counts at least as many
    elements as the split finds voice blocks; a text in which it counts
    none is kept whole, as the single block of the fallback. *)
Theorem voice_blocks_counted s :
  (length (findall voice_block_re s) <= count_voice_elements s)%nat
  /\ (count_voice_elements s = 0%nat -> voice_blocks_of s = [s]).
Proof.
  assert (length (findall voice_block_re s) <= count_voice_elements s)%nat as Hle.
  { unfold count_voice_elements, findall.
    apply (findall_from_le voice_block_re
             ([Star Space] ++ litsI "voice" ++ [WordB])
             ([Star (Not GT); One (Lit GT); LazyStar Any;
               One (Lit LT); Star Space; One (Lit SLASH); Star Space]
                ++ litsI "voice" ++ [Star Space; One (Lit GT)]));
      [reflexivity | reflexivity | apply not_elem_of_nil]. }
  split; [exact Hle|].
  intros H0. unfold voice_blocks_of.
  destruct (findall voice_block_re s); [reflexivity|].
  rewrite H0 in Hle. cbn [length] in Hle. lia.
Qed.

End Count.
End CountFacts.

Module CountWitnesses.
Import Unicode Re SsmlToWav CountFacts Examples.

Lemma voice_blocks_counted_witness :
  count_voice_elements (H := ascii_words) (of_string "<speak>hello</speak>") = 0%nat
  /\ voice_blocks_of (H := ascii_words) (of_string "<speak>hello</speak>")
     = [of_string "<speak>hello</speak>"].
Proof.
  split; [reflexivity|].
  apply (proj2 (voice_blocks_counted (H := ascii_words)
                  (of_string "<speak>hello</speak>"))).
  reflexivity.
Defined.
End CountWitnesses.

(** ** More on the retry loop *)

Module SynthesisMore.
Import PyStr Synthesis SynthesisSpec SynthesisMeasure SynthesisFacts Examples.


(** The loop numbers its calls consecutively; when it returns, it reports
    success exactly when its last call completed, and no earlier call
    did. *)
Lemma attempt_loop_sound remote retries : forall iterations attempt ok,
  (attempt_loop remote retries iterations attempt).1 = inr ok ->
  exists n,
    speaks (attempt_loop remote retries iterations attempt).2
    = attempts_from (attempt + 1) n
    /\ (ok = true
        <-> ((0 < n)%nat
             /\ remote (attempt + Z.of_nat n) = SynthesizingAudioCompleted))
    /\ (forall j, attempt < j < attempt + Z.of_nat n ->
          remote j <> SynthesizingAudioCompleted).
Proof.
  induction iterations as [|it IH]; intros attempt ok Hret.
  - exists 0%nat. simpl in *. injection Hret as <-.
    split; [reflexivity|]. split; [|intros j Hj; lia].
    split; [discriminate | intros [Hn _]; lia].
  - assert (forall evs n,
              speaks evs = attempts_from (attempt + 1 + 1) n ->
              (ok = true <-> (0 < n)%nat
                 /\ remote (attempt + 1 + Z.of_nat n) = SynthesizingAudioCompleted) ->
              (forall j, attempt + 1 < j < attempt + 1 + Z.of_nat n ->
                 remote j <> SynthesizingAudioCompleted) ->
              remote (attempt + 1) <> SynthesizingAudioCompleted ->
              forall evs', speaks evs' = attempt + 1 :: speaks evs ->
              exists n',
                speaks evs' = attempts_from (attempt + 1) n'
                /\ (ok = true <-> (0 < n')%nat
                      /\ remote (attempt + Z.of_nat n') = SynthesizingAudioCompleted)
                /\ (forall j, attempt < j < attempt + Z.of_nat n' ->
                      remote j <> SynthesizingAudioCompleted)) as Hcont.
    { intros evs n Hs Hok Hbefore Hhere evs' Hevs'.
      exists (S n). split; [rewrite Hevs', Hs; reflexivity|]. split.
      - rewrite Hok. replace (attempt + Z.of_nat (S n)) with (attempt + 1 + Z.of_nat n) by lia.
        split.
        + intros [Hn Hr]. split; [lia | exact Hr].
        + intros [_ Hr]. split; [|exact Hr].
          destruct n; [|lia]. exfalso. apply Hhere. rewrite <- Hr. f_equal.
          simpl. lia.
      - intros j Hj. destruct (Z.eq_dec j (attempt + 1)) as [->|Hne]; [exact Hhere|].
        apply Hbefore. lia. }
    assert (forall evs', speaks evs' = [attempt + 1] ->
              remote (attempt + 1) <> SynthesizingAudioCompleted ->
              exists n',
                speaks evs' = attempts_from (attempt + 1) n'
                /\ (false = true <-> (0 < n')%nat
                      /\ remote (attempt + Z.of_nat n') = SynthesizingAudioCompleted)
                /\ (forall j, attempt < j < attempt + Z.of_nat n' ->
                      remote j <> SynthesizingAudioCompleted)) as Hstop.
    { intros evs' Hevs' Hhere. exists 1%nat. split; [exact Hevs'|]. split.
      - split; [discriminate|]. intros [_ Hr]. exfalso. apply Hhere. exact Hr.
      - intros j Hj. lia. }
    cbn [attempt_loop] in *.
    specialize (IH (attempt + 1) ok).
    destruct (remote (attempt + 1)) as [| |[e|[code err]]|] eqn:Er.
    + destruct (attempt_loop remote retries it (attempt + 1)) as [r evs].
      cbn [fst snd] in *. destruct (IH Hret) as (n & Hs & Hok & Hbefore).
      apply (Hcont evs n); try assumption; try discriminate. reflexivity.
    + exists 1%nat. cbn [fst snd] in *. injection Hret as <-.
      split; [reflexivity|]. split.
      * split; [intros _; split; [lia | exact Er] | reflexivity].
      * intros j Hj. lia.
    + discriminate.
    + destruct (transient code err).
      * destruct (attempt + 1 <=? retries).
        -- destruct (attempt_loop remote retries it (attempt + 1)) as [r evs].
           cbn [fst snd] in *. destruct (IH Hret) as (n & Hs & Hok & Hbefore).
           apply (Hcont evs n); try assumption; try discriminate. reflexivity.
        -- cbn [fst snd] in *. injection Hret as <-.
           apply Hstop; [reflexivity | discriminate].
      * cbn [fst snd] in *. injection Hret as <-.
        apply Hstop; [reflexivity | discriminate].
    + destruct (attempt_loop remote retries it (attempt + 1)) as [r evs].
      cbn [fst snd] in *. destruct (IH Hret) as (n & Hs & Hok & Hbefore).
      apply (Hcont evs n); try assumption; try discriminate. reflexivity.
Qed.

(** X10: the calls are attempts 1, 2, ..., n with no gap; the result is True
    exactly when the last of them completed, and none of the earlier ones
    did: the loop stops at the first completed synthesis and never reports
    a failure after one. *)
Theorem synthesize_result_sound remote retries ok evs :
  synthesize_to_wav true remote retries = inr (ok, evs) ->
  exists n,
    speaks evs = attempts_from 1 n
    /\ (ok = true <-> ((0 < n)%nat /\ remote (Z.of_nat n) = SynthesizingAudioCompleted))
    /\ (forall j, 0 < j < Z.of_nat n -> remote j <> SynthesizingAudioCompleted).
Proof.
  intros E. unfold synthesize_to_wav in E.
  pose proof (attempt_loop_sound remote retries (Z.to_nat (retries + 1)) 0 ok) as Hsound.
  destruct (attempt_loop remote retries (Z.to_nat (retries + 1)) 0)
    as [[e|ok'] evs']; [discriminate|].
  injection E as <- <-. cbn [fst snd] in Hsound.
  destruct (Hsound eq_refl) as (n & Hs & Hok & Hbefore). exists n.
  split; [exact Hs|]. split; [exact Hok | exact Hbefore].
Qed.

Lemma attempt_loop_all_raise remote retries : forall iterations attempt,
  (forall j, attempt < j <= attempt + Z.of_nat iterations -> remote j = Raises) ->
  attempt_loop remote retries iterations attempt
  = (inr false, retried (attempt + 1) iterations).
Proof.
  induction iterations as [|it IH]; intros attempt Hall; [reflexivity|].
  cbn [attempt_loop retried]. rewrite (Hall (attempt + 1)) by lia.
  rewrite IH by (intros j Hj; apply Hall; lia). reflexivity.
Qed.

Lemma retried_last first n :
  last (retried first (S n)) = Some (Sleep (backoff (first + Z.of_nat n))).
Proof.
  revert first. induction n as [|n IH]; intros first.
  - simpl. rewrite Z.add_0_r. reflexivity.
  - change (last (retried (first + 1) (S n))
            = Some (Sleep (backoff (first + Z.of_nat (S n))))).
    rewrite IH.
    replace (first + 1 + Z.of_nat n) with (first + Z.of_nat (S n)) by lia.
    reflexivity.
Qed.

(** X11: when every attempt raises, the call is made retries + 1 times and
    each failure is followed by its wait of 1.5 * attempt seconds, the last
    one too: the result False comes only after a final wait of
    1.5 * (retries + 1) seconds. *)
Theorem synthesize_all_raise remote retries :
  0 <= retries ->
  (forall j, 1 <= j <= retries + 1 -> remote j = Raises) ->
  synthesize_to_wav true remote retries
  = inr (false, retried 1 (Z.to_nat (retries + 1)))
  /\ last (retried 1 (Z.to_nat (retries + 1)))
     = Some (Sleep (backoff (retries + 1))).
Proof.
  intros Hr Hall. split.
  - unfold synthesize_to_wav.
    rewrite attempt_loop_all_raise; [reflexivity|].
    intros j Hj. apply Hall. lia.
  - replace (Z.to_nat (retries + 1)) with (S (Z.to_nat retries)) by lia.
    rewrite retried_last.
    replace (1 + Z.of_nat (Z.to_nat retries)) with (retries + 1) by lia. reflexivity.
Qed.





End SynthesisMore.

Module SynthesisMoreWitnesses.
Import PyStr Synthesis SynthesisSpec SynthesisMeasure Examples SynthesisMore.


Lemma synthesize_result_sound_witness :
  synthesize_to_wav true flaky 2
  = inr (true, [Speak 1; Sleep (backoff 1); Speak 2; Sleep (backoff 2); Speak 3])
  /\ exists n,
       speaks [Speak 1; Sleep (backoff 1); Speak 2; Sleep (backoff 2); Speak 3]
       = attempts_from 1 n
       /\ (true = true <->
           ((0 < n)%nat /\ flaky (Z.of_nat n) = SynthesizingAudioCompleted))
       /\ (forall j, 0 < j < Z.of_nat n -> flaky j <> SynthesizingAudioCompleted).
Proof.
  split; [reflexivity|].
  apply (synthesize_result_sound flaky 2). reflexivity.
Defined.

Lemma synthesize_all_raise_witness :
  synthesize_to_wav true (fun _ => Raises) 2
  = inr (false, retried 1 (Z.to_nat (2 + 1)))
  /\ last (retried 1 (Z.to_nat (2 + 1))) = Some (Sleep (backoff (2 + 1))).
Proof.
  apply (synthesize_all_raise (fun _ => Raises) 2); [lia | reflexivity].
Defined.

End SynthesisMoreWitnesses.

(** ** More on the concatenation of WAV parts *)

Module WavMore.
Import PyStr Wav WavSpec WavFacts.
Local Open Scope string_scope.
Local Open Scope Z_scope.

(** What the reading loop has seen when it raises. *)
Lemma read_parts_error (fs : gmap string file) : forall wav_paths params data_frames e,
  read_parts fs wav_paths params data_frames = inl e ->
  (exists p, e = FileNotFoundError p /\ p ∈ wav_paths /\ fs !! p = None)
  \/ (exists p, p ∈ wav_paths /\ fs !! p = Some (Unreadable e))
  \/ (exists p w expected,
        e = ValueError (mismatch_msg p (params_of w) expected)
        /\ p ∈ wav_paths /\ fs !! p = Some (WavData w) /\ params_of w <> expected).
Proof.
  induction wav_paths as [|p rest IH]; intros params data_frames e E;
    cbn [read_parts] in E; [discriminate|].
  assert (forall params' data',
            read_parts fs rest params' data' = inl e ->
            (exists q, e = FileNotFoundError q /\ q ∈ p :: rest /\ fs !! q = None)
            \/ (exists q, q ∈ p :: rest /\ fs !! q = Some (Unreadable e))
            \/ (exists q w expected,
                  e = ValueError (mismatch_msg q (params_of w) expected)
                  /\ q ∈ p :: rest /\ fs !! q = Some (WavData w)
                  /\ params_of w <> expected))
    as Hrest.
  { intros params' data' E'.
    destruct (IH _ _ _ E')
      as [(q & ? & ? & ?)|[(q & ? & ?)|(q & w & x & ? & ? & ? & ?)]].
    - left. exists q. repeat split; try assumption. apply elem_of_cons. right. assumption.
    - right. left. exists q. split; [|assumption]. apply elem_of_cons. right. assumption.
    - right. right. exists q, w, x. repeat split; try assumption.
      apply elem_of_cons. right. assumption. }
  destruct (fs !! p) as [[w|e']|] eqn:Hp.
  - destruct params as [expected|].
    + destruct (decide (params_of w = expected)) as [Heq|Hne].
      * apply (Hrest _ _ E).
      * injection E as <-. right. right. exists p, w, expected.
        repeat split; try assumption. apply elem_of_cons. left. reflexivity.
    + apply (Hrest _ _ E).
  - injection E as <-. right. left. exists p. split; [|assumption].
    apply elem_of_cons. left. reflexivity.
  - injection E as <-. left. exists p. repeat split; try assumption.
    apply elem_of_cons. left. reflexivity.
Qed.

(** What the reading loop has read when it ends, the expected parameters
    being known. *)
Lemma read_parts_read (fs : gmap string file) : forall wav_paths expected data_frames r,
  read_parts fs wav_paths (Some expected) data_frames = inr r ->
  exists files,
    Forall2 (fun p w => fs !! p = Some (WavData w)) wav_paths files
    /\ Forall (fun w => params_of w = expected) files
    /\ r = (Some expected, (data_frames ++ List.map frames files)%list).
Proof.
  induction wav_paths as [|p rest IH]; intros expected data_frames r E;
    cbn [read_parts] in E.
  - injection E as <-. exists []. repeat split; try constructor.
    rewrite app_nil_r. reflexivity.
  - destruct (fs !! p) as [[w|e']|] eqn:Hp; [|discriminate|discriminate].
    destruct (decide (params_of w = expected)) as [Heq|Hne]; [|discriminate].
    destruct (IH _ _ _ E) as (files & Hfiles & Hall & ->).
    exists (w :: files). repeat split.
    + constructor; assumption.
    + constructor; assumption.
    + rewrite <- app_assoc. reflexivity.
Qed.

Lemma patch_header_bound declared written d :
  36 + declared < 2 ^ 32 ->
  patch_header declared written = Some d ->
  d = Z.of_nat (length written) /\ 36 + d < 2 ^ 32.
Proof.
  intros Hd. unfold patch_header.
  destruct (declared =? Z.of_nat (length written)) eqn:E.
  - apply Z.eqb_eq in E. intros [= <-]. split; assumption.
  - destruct (36 + Z.of_nat (length written) <? 2 ^ 32) eqn:E'; [|discriminate].
    apply Z.ltb_lt in E'. intros [= <-]. split; [reflexivity | assumption].
Qed.

(** Frames written to the end fit the header. *)
Lemma write_frames_done ch sw fr : forall data_frames d data f,
  36 + d < 2 ^ 32 ->
  write_frames ch sw fr data_frames (Some d) data = (None, f) ->
  36 + Z.of_nat (length (data ++ concat data_frames)) < 2 ^ 32.
Proof.
  induction data_frames as [|chunk rest IH]; intros d data f Hd E;
    cbn [write_frames concat] in *.
  - rewrite app_nil_r.
    destruct (patch_header d data) as [d'|] eqn:Ep; [|discriminate].
    destruct (patch_header_bound _ _ _ Hd Ep) as [-> Hfit]. exact Hfit.
  - destruct (patch_header d (data ++ chunk)) as [d'|] eqn:Ep; [|discriminate].
    destruct (patch_header_bound _ _ _ Hd Ep) as [_ Hfit].
    rewrite app_assoc. apply (IH d' _ f Hfit E).
Qed.

(** The writer raises nothing only for what it accepts. *)
Lemma write_wav_done ch sw fr data_frames f :
  data_frames <> [] ->
  write_wav ch sw fr data_frames = (None, f) ->
  writable ch sw fr (Z.of_nat (length (concat data_frames))).
Proof.
  intros Hne. unfold write_wav.
  destruct (ch <? 1) eqn:Ech; [discriminate|].
  destruct (sw <? 1) eqn:Esw; [discriminate|].
  destruct (4 <? sw) eqn:Esw'; [discriminate|].
  destruct (fr <=? 0) eqn:Efr; [discriminate|]. cbn [orb].
  apply Z.ltb_ge in Ech, Esw, Esw'. apply Z.leb_gt in Efr.
  destruct data_frames as [|chunk rest]; [congruence|].
  cbn [write_frames app].
  destruct (header_fits ch sw fr (Z.of_nat (length chunk) / (ch * sw) * (ch * sw)))
    eqn:Eh; [|discriminate].
  unfold header_fits in Eh. rewrite !andb_true_iff, !Z.ltb_lt in Eh.
  destruct Eh as (((((Hlen & _) & _) & Hrate) & Hblock) & _).
  destruct (patch_header _ chunk) as [d'|] eqn:Ep; [|discriminate].
  destruct (patch_header_bound _ _ _ Hlen Ep) as [_ Hfit].
  intros E. apply (write_frames_done ch sw fr rest d' chunk f Hfit) in E.
  unfold writable. cbn [concat]. repeat split; try lia; assumption.
Qed.

(** Once the header is written, the file at the output path reads as a
    WAVE file. *)
Lemma write_frames_header ch sw fr : forall data_frames d data e f,
  write_frames ch sw fr data_frames (Some d) data = (e, f) ->
  exists part, f = WavData (WavFile ch sw fr part).
Proof.
  induction data_frames as [|chunk rest IH]; intros d data e f; cbn [write_frames].
  - destruct (patch_header d data); intros [= <- <-]; eexists; reflexivity.
  - destruct (patch_header d (data ++ chunk)) as [d'|]; [apply IH|].
    intros [= <- <-]. eexists; reflexivity.
Qed.

(** How the writer fails. *)
Lemma write_wav_cases ch sw fr data_frames :
  data_frames <> [] ->
  let all := concat data_frames in
  (write_wav ch sw fr data_frames
   = (None, WavData (WavFile ch sw fr
                       (readable_frames ch sw (Z.of_nat (length all)) all))))
  \/ (exists msg,
        write_wav ch sw fr data_frames = (Some (WaveError msg), Unreadable EOFError)
        /\ (ch < 1 \/ sw < 1 \/ 4 < sw \/ fr <= 0))
  \/ (exists f,
        write_wav ch sw fr data_frames = (Some StructError, f)
        /\ (f = Unreadable (WaveError "not a WAVE file")
            \/ exists part, f = WavData (WavFile ch sw fr part) /\ part `prefix_of` all)).
Proof.
  intros Hne all. unfold write_wav.
  destruct (ch <? 1) eqn:Ech.
  { right. left. eexists. split; [reflexivity|]. apply Z.ltb_lt in Ech. lia. }
  destruct (sw <? 1) eqn:Esw.
  { right. left. eexists. split; [reflexivity|]. apply Z.ltb_lt in Esw. lia. }
  destruct (4 <? sw) eqn:Esw'.
  { right. left. eexists. split; [reflexivity|]. apply Z.ltb_lt in Esw'. lia. }
  destruct (fr <=? 0) eqn:Efr.
  { right. left. eexists. split; [reflexivity|]. apply Z.leb_le in Efr. lia. }
  cbn [orb].
  destruct (write_frames_cases ch sw fr data_frames None [] ltac:(reflexivity))
    as [E|(f & E & Hf)]; cbn [app] in *.
  - left. exact E.
  - right. right. exists f. split; [exact E|].
    destruct Hf as [->|[->|Hpart]]; [|left; reflexivity|right; exact Hpart].
    destruct data_frames as [|chunk rest]; [congruence|].
    cbn [write_frames app] in E.
    destruct (header_fits ch sw fr _); [|discriminate].
    destruct (patch_header _ chunk) as [d'|]; [|discriminate].
    destruct (write_frames_header _ _ _ _ _ _ _ _ E) as (part & [=]).
Qed.

(** X15: every way the concatenation can end.  Before the output is
    opened it raises the ValueError for an empty list, a FileNotFoundError
    for an input that does not exist, the exception of the reader for an
    input it cannot read, or the mismatch ValueError for an input whose
    parameters differ from the expected ones; then no file is changed.
    Otherwise every input is read with the parameters of the first and
    the only file changed is the output.  When the writer accepts the
    parameters and the amount of data, nothing is raised and the output
    reads as the whole frames of the inputs' data in input order.  When
    it does not, wave.Error or struct.error is raised and the output is
    left empty, unreadable, or with a leading part of the data. *)
Theorem concat_wavs_outcome (fs : gmap string file) wav_paths out_wav :
  (exists e,
     concat_wavs wav_paths out_wav fs = (Some e, fs)
     /\ ((wav_paths = [] /\ e = ValueError "No WAV parts to concatenate.")
         \/ (exists p, e = FileNotFoundError p /\ p ∈ wav_paths /\ fs !! p = None)
         \/ (exists p, p ∈ wav_paths /\ fs !! p = Some (Unreadable e))
         \/ (exists p w expected,
               e = ValueError (mismatch_msg p (params_of w) expected)
               /\ p ∈ wav_paths /\ fs !! p = Some (WavData w)
               /\ params_of w <> expected)))
  \/ (exists first files,
        Forall2 (fun p w => fs !! p = Some (WavData w)) wav_paths (first :: files)
        /\ Forall (fun w => params_of w = params_of first) files
        /\ let ch := nchannels first in
           let sw := sampwidth first in
           let fr := framerate first in
           let all := concat (List.map frames (first :: files)) in
           (writable ch sw fr (Z.of_nat (length all))
            /\ concat_wavs wav_paths out_wav fs
               = (None,
                  <[out_wav := WavData (WavFile ch sw fr
                                 (readable_frames ch sw (Z.of_nat (length all)) all))]> fs))
           \/ (~ writable ch sw fr (Z.of_nat (length all))
               /\ exists e f,
                    concat_wavs wav_paths out_wav fs = (Some e, <[out_wav := f]> fs)
                    /\ (((exists msg, e = WaveError msg) /\ f = Unreadable EOFError)
                        \/ (e = StructError
                            /\ (f = Unreadable (WaveError "not a WAVE file")
                                \/ exists part,
                                     f = WavData (WavFile ch sw fr part)
                                     /\ part `prefix_of` all))))).
Proof.
  destruct wav_paths as [|p rest].
  - left. eexists. split; [reflexivity|]. left. split; reflexivity.
  - destruct (read_parts fs (p :: rest) None []) as [e|r] eqn:E.
    + left. exists e. split; [unfold concat_wavs; rewrite E; reflexivity|].
      right. apply (read_parts_error fs _ _ _ _ E).
    + right. pose proof E as E0. cbn [read_parts] in E.
      destruct (fs !! p) as [[first|e']|] eqn:Hp; [|discriminate|discriminate].
      cbn [app] in E.
      destruct (read_parts_read fs _ _ _ _ E) as (files & Hfiles & Hall & ->).
      exists first, files. split; [constructor; assumption|].
      split; [assumption|].
      intros ch sw fr all.
      change ([frames first] ++ List.map frames files)%list
        with (List.map frames (first :: files)) in E0.
      assert (concat_wavs (p :: rest) out_wav fs
              = ((write_wav ch sw fr (List.map frames (first :: files))).1,
                 <[out_wav := (write_wav ch sw fr (List.map frames (first :: files))).2]>
                   fs)) as Ec.
      { unfold concat_wavs. rewrite E0. unfold params_of. fold ch sw fr.
        destruct (write_wav ch sw fr (List.map frames (first :: files))).
        reflexivity. }
      destruct (write_wav_cases ch sw fr (List.map frames (first :: files))
                  ltac:(discriminate)) as [Ew|[(msg & Ew & Hbad)|(f & Ew & Hf)]].
      * left. split; [|rewrite Ec, Ew; reflexivity].
        apply (write_wav_done ch sw fr (List.map frames (first :: files)) _
                 ltac:(discriminate) Ew).
      * right. split; [unfold writable; lia|].
        exists (WaveError msg), (Unreadable EOFError).
        split; [rewrite Ec, Ew; reflexivity|]. left. split; [exists msg|]; reflexivity.
      * right. split.
        -- intros (Hch & Hsw & Hfr & Hblock & Hrate & Hfit).
           rewrite write_wav_fits in Ew; try assumption; discriminate.
        -- exists StructError, f. split; [rewrite Ec, Ew; reflexivity|].
           right. split; [reflexivity | exact Hf].
Qed.

(** A missing file stops the loop when the files before it are accepted. *)
Lemma read_parts_missing (fs : gmap string file) before files expected p after :
  Forall2 (fun q w => fs !! q = Some (WavData w)) before files ->
  Forall (fun w => params_of w = expected) files ->
  fs !! p = None ->
  forall data_frames,
    read_parts fs (before ++ p :: after)%list (Some expected) data_frames
    = inl (FileNotFoundError p).
Proof.
  induction 1 as [|q w qs ws Hq _ IH]; intros Hall Hp data_frames.
  - cbn [app read_parts]. rewrite Hp. reflexivity.
  - inversion Hall as [|? ? Hw Hws]; subst.
    cbn [app read_parts]. rewrite Hq.
    destruct (decide (params_of w = params_of w)); [|congruence].
    apply IH; assumption.
Qed.

(** X16: when the inputs before [p] exist and share their parameters and
    [p] does not exist, the FileNotFoundError for [p] is raised, whatever
    follows [p] in the list, and no file is changed. *)
Theorem concat_wavs_missing_file (fs : gmap string file) before p after out_wav
  files expected :
  Forall2 (fun q w => fs !! q = Some (WavData w)) before files ->
  Forall (fun w => params_of w = expected) files ->
  fs !! p = None ->
  concat_wavs (before ++ p :: after)%list out_wav fs = (Some (FileNotFoundError p), fs).
Proof.
  intros Hfiles Hall Hp.
  destruct Hfiles as [|q w qs ws Hq Hrest].
  - unfold concat_wavs. cbn [app read_parts]. rewrite Hp. reflexivity.
  - inversion Hall as [|? ? Hw Hws]; subst.
    unfold concat_wavs. cbn [app read_parts]. rewrite Hq. cbn [app].
    rewrite (read_parts_missing fs qs ws (params_of w) p after Hrest Hws Hp).
    reflexivity.
Qed.

(** The files read and written by a run on whole frames that the writer
    accepts. *)
Lemma concat_wavs_written (fs : gmap string file) wav_paths out_wav files ch sw fr :
  wav_paths <> [] ->
  Forall2 (fun p w => fs !! p = Some (WavData w)) wav_paths files ->
  Forall (fun w => params_of w = (ch, sw, fr)) files ->
  Forall (whole_frames ch sw) files ->
  writable ch sw fr (Z.of_nat (length (concat (List.map frames files)))) ->
  concat_wavs wav_paths out_wav fs
  = (None, <[out_wav := WavData (WavFile ch sw fr (concat (List.map frames files)))]> fs).
Proof.
  intros Hne Hfiles Hall Hwhole (Hch & Hsw & Hfr & Hblock & Hrate & Hfit).
  rewrite (concat_wavs_fits fs wav_paths out_wav files ch sw fr
             Hne Hfiles Hall Hch Hsw Hfr Hblock Hrate Hfit).
  destruct (readable_frames_cut ch sw (concat (List.map frames files)) ltac:(nia))
    as (_ & _ & _ & Hcut).
  rewrite Hcut; [reflexivity|]. apply whole_frames_concat. exact Hwhole.
Qed.

(** X17: for inputs of whole frames that the writer accepts,
    concatenating in two stages gives the same output file as
    concatenating at once: joining [first_paths] into [tmp] and then [tmp]
    and [more_paths] into [out_wav] writes at [out_wav] what joining
    first_paths ++ more_paths into [out_wav] writes there. *)
Theorem concat_wavs_staged (fs : gmap string file) first_paths more_paths tmp out_wav
  first_files more_files ch sw fr :
  first_paths <> [] ->
  tmp ∉ more_paths ->
  Forall2 (fun p w => fs !! p = Some (WavData w)) first_paths first_files ->
  Forall2 (fun p w => fs !! p = Some (WavData w)) more_paths more_files ->
  Forall (fun w => params_of w = (ch, sw, fr)) (first_files ++ more_files)%list ->
  Forall (whole_frames ch sw) (first_files ++ more_files)%list ->
  writable ch sw fr
    (Z.of_nat (length (concat (List.map frames (first_files ++ more_files)%list)))) ->
  let staged := (concat_wavs first_paths tmp fs).2 in
  let joined :=
    WavData (WavFile ch sw fr
               (concat (List.map frames (first_files ++ more_files)%list))) in
  concat_wavs (tmp :: more_paths) out_wav staged = (None, <[out_wav := joined]> staged)
  /\ concat_wavs (first_paths ++ more_paths)%list out_wav fs
     = (None, <[out_wav := joined]> fs).
Proof.
  intros Hne Htmp Hfirst Hmore Hall Hwhole Hfit staged joined.
  apply Forall_app in Hall as [Hall1 Hall2].
  pose proof Hwhole as Hwhole0. apply Forall_app in Hwhole as [Hwhole1 Hwhole2].
  assert (concat (List.map frames (first_files ++ more_files)%list)
          = (concat (List.map frames first_files)
               ++ concat (List.map frames more_files))%list) as Ecat.
  { rewrite List.map_app, concat_app. reflexivity. }
  assert (whole_frames ch sw (WavFile ch sw fr (concat (List.map frames first_files))))
    as Hjoin.
  { unfold whole_frames. cbn [frames]. apply whole_frames_concat. exact Hwhole1. }
  assert (staged
          = <[tmp := WavData (WavFile ch sw fr (concat (List.map frames first_files)))]> fs)
    as Es.
  { unfold staged. rewrite (concat_wavs_written fs _ tmp _ ch sw fr Hne Hfirst Hall1 Hwhole1).
    - reflexivity.
    - destruct Hfit as (? & ? & ? & ? & ? & Hfit).
      rewrite Ecat, length_app in Hfit. unfold writable. lia. }
  split.
  - assert (joined
            = WavData (WavFile ch sw fr
                (concat (List.map frames
                   (WavFile ch sw fr (concat (List.map frames first_files))
                      :: more_files))))) as ->.
    { unfold joined. rewrite Ecat. reflexivity. }
    apply concat_wavs_written; [discriminate | | | |].
    + constructor.
      * rewrite Es. apply lookup_insert_eq.
      * rewrite Es. clear Hall2 Hwhole2 Hwhole0 Hfit Ecat.
        induction Hmore as [|p w ps ws Hp _ IH]; constructor.
        -- rewrite lookup_insert_ne; [exact Hp|].
           intros ->. apply Htmp. apply elem_of_cons. left. reflexivity.
        -- apply IH. intros Hin. apply Htmp. apply elem_of_cons. right. exact Hin.
    + constructor; [reflexivity | assumption].
    + constructor; assumption.
    + cbn [List.map concat frames]. rewrite <- Ecat. exact Hfit.
  - apply concat_wavs_written.
    + destruct first_paths; [congruence | discriminate].
    + apply Forall2_app; assumption.
    + apply Forall_app. split; assumption.
    + exact Hwhole0.
    + exact Hfit.
Qed.

End WavMore.

Module WavMoreWitnesses.
Import PyStr Wav WavSpec WavFacts Examples WavMore.
Local Open Scope string_scope.

Lemma concat_wavs_missing_file_witness :
  Forall2 (fun q w => disk !! q = Some (WavData w)) ["p1.wav"] [part1]
  /\ Forall (fun w => params_of w = (1, 2, 24000)) [part1]
  /\ disk !! "p3.wav" = None
  /\ concat_wavs (["p1.wav"] ++ "p3.wav" :: ["st.wav"])%list "out.wav" disk
     = (Some (FileNotFoundError "p3.wav"), disk).
Proof.
  assert (Forall2 (fun q w => disk !! q = Some (WavData w)) ["p1.wav"] [part1])
    as Hfiles by (repeat constructor).
  assert (Forall (fun w => params_of w = (1, 2, 24000)) [part1])
    as Hall by (repeat constructor).
  assert (disk !! "p3.wav" = None) as Hp by reflexivity.
  split; [exact Hfiles|]. split; [exact Hall|]. split; [exact Hp|].
  exact (concat_wavs_missing_file disk ["p1.wav"] "p3.wav" ["st.wav"] "out.wav"
           [part1] (1, 2, 24000) Hfiles Hall Hp).
Defined.

Lemma concat_wavs_staged_witness :
  ["p1.wav"; "p2.wav"] <> []
  /\ ("tmp.wav" ∉ ["p1.wav"])
  /\ Forall2 (fun p w => disk !! p = Some (WavData w)) ["p1.wav"; "p2.wav"] [part1; part2]
  /\ Forall2 (fun p w => disk !! p = Some (WavData w)) ["p1.wav"] [part1]
  /\ Forall (fun w => params_of w = (1, 2, 24000)) ([part1; part2] ++ [part1])%list
  /\ Forall (whole_frames 1 2) ([part1; part2] ++ [part1])%list
  /\ writable 1 2 24000 6
  /\ concat_wavs ("tmp.wav" :: ["p1.wav"]) "out.wav"
       (concat_wavs ["p1.wav"; "p2.wav"] "tmp.wav" disk).2
     = (None,
        <["out.wav" := WavData (WavFile 1 2 24000
                         (concat (List.map frames ([part1; part2] ++ [part1])%list)))]>
          (concat_wavs ["p1.wav"; "p2.wav"] "tmp.wav" disk).2).
Proof.
  assert ("tmp.wav" ∉ ["p1.wav"]) as Htmp.
  { intros Hin. apply list_elem_of_singleton in Hin. discriminate. }
  assert (Forall2 (fun p w => disk !! p = Some (WavData w)) ["p1.wav"; "p2.wav"]
            [part1; part2]) as Hfirst by (repeat constructor).
  assert (Forall2 (fun p w => disk !! p = Some (WavData w)) ["p1.wav"] [part1])
    as Hmore by (repeat constructor).
  assert (Forall (fun w => params_of w = (1, 2, 24000)) ([part1; part2] ++ [part1])%list)
    as Hall by (repeat constructor).
  assert (Forall (whole_frames 1 2) ([part1; part2] ++ [part1])%list) as Hwhole.
  { repeat constructor; exists 1%Z; reflexivity. }
  assert (writable 1 2 24000 6) as Hfit.
  { unfold writable. repeat split; try lia; reflexivity. }
  split; [discriminate|]. split; [exact Htmp|]. split; [exact Hfirst|].
  split; [exact Hmore|]. split; [exact Hall|]. split; [exact Hwhole|].
  split; [exact Hfit|].
  exact (proj1 (concat_wavs_staged disk ["p1.wav"; "p2.wav"] ["p1.wav"] "tmp.wav"
                  "out.wav" [part1; part2] [part1] 1 2 24000
                  ltac:(discriminate) Htmp Hfirst Hmore Hall Hwhole Hfit)).
Defined.
End WavMoreWitnesses.

(** ** More float arithmetic *)

Module PyFloatMore.
Import PyFloat PyFloatFacts.

Lemma log2_small v : 0 <= v < 2 ^ 53 -> Z.max 0 (Z.log2 v - 52) = 0.
Proof.
  intros Hv. destruct (Z.eq_dec v 0) as [->|Hnz]; [reflexivity|].
  assert (Z.log2 v < 53) by (apply Z.log2_lt_pow2; lia). lia.
Qed.

(** The 53 leading bits of a value of at least 2^53. *)
Lemma leading_bits v :
  2 ^ 53 <= v ->
  let k := Z.log2 v - 52 in
  0 < k /\ 2 ^ 52 <= v / 2 ^ k < 2 ^ 53.
Proof.
  intros Hv k.
  assert (53 <= Z.log2 v) as Hl by (apply Z.log2_le_pow2; lia).
  pose proof (Z.log2_spec v ltac:(lia)) as [Hlo Hhi].
  assert (0 < 2 ^ k) as Hk by (apply Z.pow_pos_nonneg; lia).
  split; [lia|]. split.
  - apply Z.div_le_lower_bound; [lia|].
    rewrite <- Z.pow_add_r by lia. replace (k + 52) with (Z.log2 v) by lia. exact Hlo.
  - apply Z.div_lt_upper_bound; [lia|].
    rewrite <- Z.pow_add_r by lia. replace (k + 53) with (Z.succ (Z.log2 v)) by lia.
    exact Hhi.
Qed.

(** A mantissa of at most 53 bits, or 2^53 itself, times a power of two. *)
Lemma is_float_mantissa r k :
  0 <= k -> k + 53 < 2098 -> 0 <= r <= 2 ^ 53 -> (k = 0 \/ 2 ^ 52 <= r) ->
  is_float (r * 2 ^ k).
Proof.
  intros Hk Hk' Hr Hnorm.
  assert (0 < 2 ^ k) as Hp by (apply Z.pow_pos_nonneg; lia).
  assert (2 ^ (k + 53) < 2 ^ 2098) as Hbig by (apply Z.pow_lt_mono_r; lia).
  assert (r * 2 ^ k <= 2 ^ (k + 53)) as Hle.
  { rewrite Z.pow_add_r by lia. nia. }
  split; [nia|].
  apply Z.mod_divide; [apply Z.pow_nonzero; lia|].
  destruct (Z.eq_dec r 0) as [->|Hnz]; [apply Z.divide_0_r|].
  rewrite Z.log2_mul_pow2 by lia.
  destruct (Z.eq_dec r (2 ^ 53)) as [->|Hlt].
  - rewrite Z.log2_pow2 by lia. rewrite <- Z.pow_add_r by lia.
    apply pow2_divide. lia.
  - assert (Z.log2 r < 53) by (apply Z.log2_lt_pow2; lia).
    destruct Hnorm as [->|Hn].
    + match goal with |- (2 ^ ?e | _) => replace e with 0 by lia end.
      rewrite Z.pow_0_r. apply Z.divide_1_l.
    + assert (52 <= Z.log2 r) by (apply Z.log2_le_pow2; lia).
      match goal with |- (2 ^ ?e | _) => replace e with k by lia end.
      apply Z.divide_factor_r.
Qed.

(** Rounding gives a float, and does not pass the next power of two. *)
Lemma fl_is_float a b n :
  0 <= a -> 0 < b -> 53 <= n < 2098 -> a / b < 2 ^ n ->
  is_float (fl a b) /\ fl a b <= 2 ^ n.
Proof.
  intros Ha Hb Hn Hv.
  assert (0 <= a / b) as Hv0 by (apply Z.div_pos; lia).
  unfold fl. set (v := a / b) in *.
  destruct (Z_lt_le_dec v (2 ^ 53)) as [Hs|Hl].
  - rewrite (log2_small v) by lia.
    replace (b * 2 ^ 0) with b by lia.
    pose proof (rne_bounds a b Hb) as Hr. fold v in Hr.
    split.
    + apply is_float_mantissa; try lia.
    + assert (2 ^ 53 <= 2 ^ n) by (apply Z.pow_le_mono_r; lia). lia.
  - destruct (leading_bits v Hl) as [Hk Hq].
    replace (Z.max 0 (Z.log2 v - 52)) with (Z.log2 v - 52) by lia.
    set (k := Z.log2 v - 52) in *.
    assert (0 < 2 ^ k) as Hp by (apply Z.pow_pos_nonneg; lia).
    pose proof (rne_bounds a (b * 2 ^ k) ltac:(nia)) as Hr.
    rewrite <- Z.div_div in Hr by lia. fold v in Hr.
    assert (Z.log2 v < n) as Hln by (apply Z.log2_lt_pow2; lia).
    split.
    + apply is_float_mantissa; lia.
    + assert (v / 2 ^ k < 2 ^ (n - k)) as Hqn.
      { apply Z.div_lt_upper_bound; [lia|].
        rewrite <- Z.pow_add_r by lia. replace (k + (n - k)) with n by lia. exact Hv. }
      replace (2 ^ n) with (2 ^ (n - k) * 2 ^ k)
        by (rewrite <- Z.pow_add_r by lia; f_equal; lia).
      nia.
Qed.

(** Rounding is monotone at a float: a value that is at least the float
    [x] is not rounded below [x]. *)
Lemma fl_ge_float x a : is_float x -> x <= a -> x <= fl a 1.
Proof.
  intros [[Hx0 _] Hm] Hxa. unfold fl. rewrite Z.div_1_r.
  destruct (Z_lt_le_dec a (2 ^ 53)) as [Hs|Hl].
  - rewrite (log2_small a) by lia. replace (1 * 2 ^ 0) with 1 by lia.
    pose proof (rne_bounds a 1 ltac:(lia)) as Hr. rewrite Z.div_1_r in Hr. lia.
  - destruct (leading_bits a Hl) as [Hk Hq].
    replace (Z.max 0 (Z.log2 a - 52)) with (Z.log2 a - 52) by lia.
    set (k := Z.log2 a - 52) in *.
    assert (0 < 2 ^ k) as Hp by (apply Z.pow_pos_nonneg; lia).
    replace (1 * 2 ^ k) with (2 ^ k) by lia.
    pose proof (rne_bounds a (2 ^ k) Hp) as Hr.
    destruct (Z_lt_le_dec (Z.log2 x) (Z.log2 a)) as [Hlt|Hge].
    + (* x is below the binade of a *)
      assert (x < 2 ^ (52 + k)).
      { destruct (Z.eq_dec x 0) as [->|Hnz]; [apply Z.pow_pos_nonneg; lia|].
        pose proof (Z.log2_spec x ltac:(lia)) as [_ Hhi].
        assert (2 ^ Z.succ (Z.log2 x) <= 2 ^ (52 + k))
          by (apply Z.pow_le_mono_r; lia).
        lia. }
      rewrite Z.pow_add_r in * by lia. nia.
    + (* same binade: x is a multiple of 2^k *)
      assert (Z.log2 x <= Z.log2 a) by (apply Z.log2_le_mono; lia).
      replace (Z.max 0 (Z.log2 x - 52)) with k in Hm by lia.
      apply Z.mod_divide in Hm as [q ->]; [|lia].
      assert (q <= a / 2 ^ k) by (apply Z.div_le_lower_bound; lia).
      nia.
Qed.

(** Adding a non-negative value does not decrease a float. *)
Lemma fadd_ge x y : is_float x -> 0 <= y -> x <= fadd x y.
Proof. intros Hx Hy. apply fl_ge_float; [exact Hx | lia]. Qed.

End PyFloatMore.

(** ** More on azure_speech_to_text.py *)

Module SpeechToTextMore.
Import PyStr PyFloat SpeechToText Recognition RecognitionSpec VttSpec SrtSpec MainSpec.
Import PyFloatFacts PyFloatMore SpeechToTextFacts SrtFacts.
Local Open Scope string_scope.

Lemma string_app_assoc (a b c : string) : (a ++ b) ++ c = a ++ (b ++ c).
Proof.
  induction a as [|x a IH]; [reflexivity|].
  change (String x ((a ++ b) ++ c) = String x (a ++ (b ++ c))). rewrite IH. reflexivity.
Qed.

Lemma recognized_from results : forall segments,
  fold_left on_recognized results segments
  = (segments ++ recognized_segments results)%list.
Proof.
  unfold recognized_segments.
  induction results as [|r rs IH]; intros segments; cbn [fold_left].
  - rewrite app_nil_r. reflexivity.
  - rewrite (IH (on_recognized segments r)), (IH (on_recognized [] r)).
    unfold on_recognized.
    destruct (reason r); try reflexivity.
    destruct (negb (String.eqb (result_text r) "")); [|reflexivity].
    rewrite <- app_assoc. reflexivity.
Qed.

Lemma recognized_cons r rs :
  recognized_segments (r :: rs)
  = (on_recognized [] r ++ recognized_segments rs)%list.
Proof. unfold recognized_segments at 1. cbn [fold_left]. apply recognized_from. Qed.

Lemma on_recognized_dropped r : kept r = false -> on_recognized [] r = [].
Proof.
  unfold kept, on_recognized. destruct (reason r); try reflexivity.
  intros ->. reflexivity.
Qed.

Lemma on_recognized_kept r :
  kept r = true ->
  on_recognized [] r
  = [Segment (int_true_div (offset r) 10000000)
       (fadd (int_true_div (offset r) 10000000) (int_true_div (duration r) 10000000))
       (result_text r)].
Proof.
  unfold kept, on_recognized. destruct (reason r); try discriminate.
  intros ->. reflexivity.
Qed.

(** X18: the segments are made from the results whose reason is
    RecognizedSpeech and whose text is not empty, one for one and in the
    order of arrival, with the text unchanged; every other result leaves
    no trace. *)
Theorem recognized_segments_texts results :
  List.map text (recognized_segments results)
  = List.map result_text (List.filter kept results)
  /\ Forall (fun s => text s <> "") (recognized_segments results).
Proof.
  induction results as [|r rs [IH1 IH2]]; [split; [reflexivity | constructor]|].
  rewrite recognized_cons. cbn [List.filter].
  destruct (kept r) eqn:Hk.
  - rewrite (on_recognized_kept r Hk). cbn [app List.map text]. split.
    + rewrite IH1. reflexivity.
    + constructor; [|exact IH2]. cbn [text].
      unfold kept in Hk. destruct (reason r); try discriminate.
      intros E. rewrite E in Hk. discriminate.
  - rewrite (on_recognized_dropped r Hk). split; assumption.
Qed.

(** X19: for offsets and durations that are non-negative tick counts below
    2^64, every segment's start and end are floats and the start is not
    after the end, although each of the two divisions and the sum is
    rounded. *)
Theorem recognized_times_ordered results :
  Forall (fun r => (0 <= offset r < 2 ^ 64)%Z /\ (0 <= duration r < 2 ^ 64)%Z) results ->
  Forall (fun s => is_float (start s) /\ is_float (end_ s) /\ (start s <= end_ s)%Z)
    (recognized_segments results).
Proof.
  induction 1 as [|r rs [Hoff Hdur] _ IH]; [constructor|].
  rewrite recognized_cons. destruct (kept r) eqn:Hk.
  2:{ rewrite (on_recognized_dropped r Hk). exact IH. }
  rewrite (on_recognized_kept r Hk). cbn [app]. constructor; [|exact IH].
  cbn [start end_]. pose proof one_pos as Hone.
  assert (forall n, 0 <= n < 2 ^ 64 ->
            is_float (int_true_div n 10000000)
            /\ int_true_div n 10000000 <= 2 ^ 1138)%Z as Hdiv.
  { intros n Hn. unfold int_true_div.
    apply fl_is_float; try lia.
    apply Z.div_lt_upper_bound; [lia|].
    assert (n * one < 2 ^ 64 * one)%Z by nia.
    assert (2 ^ 64 * one = 2 ^ 1138)%Z as E by (unfold one; rewrite <- Z.pow_add_r; lia).
    nia. }
  destruct (Hdiv _ Hoff) as [Hs Hsb]. destruct (Hdiv _ Hdur) as [[[Hd0 _] _] Hdb].
  pose proof Hs as [[Hs0 _] _].
  split; [exact Hs|]. split.
  - unfold fadd. apply (fl_is_float _ 1 1140); try lia.
    rewrite Z.div_1_r.
    assert (2 ^ 1140 = 4 * 2 ^ 1138)%Z by (change 1140%Z with (2 + 1138)%Z;
      rewrite Z.pow_add_r by lia; reflexivity).
    assert (0 < 2 ^ 1138)%Z by (apply Z.pow_pos_nonneg; lia). lia.
  - apply fadd_ge; assumption.
Qed.

Local Open Scope Z_scope.

(** Below a hundred hours the two floor divisions of [sec_to_vtt] are
    exact. *)
Lemma sec_to_vtt_fields t :
  0 <= t < 360000 * one ->
  sec_to_vtt t
  = (format_0d 2 (to_int t / 3600) ++ ":" ++ format_0d 2 (to_int t / 60 mod 60) ++ ":"
       ++ format_0f 6 3 (t mod (60 * one)))%string.
Proof.
  intros Ht. pose proof one_pos as Hone.
  unfold sec_to_vtt.
  rewrite (of_int_exact 3600), (of_int_exact 60) by lia.
  unfold float_rem, fmod. rewrite !Z.rem_mod_nonneg by lia.
  assert (t / (3600 * one) < 100) as Hh
    by (apply Z.div_lt_upper_bound; lia).
  assert (0 <= t / (3600 * one)) as Hh0 by (apply Z.div_pos; lia).
  pose proof (Z.mod_pos_bound t (3600 * one) ltac:(lia)) as Hr.
  assert (t mod (3600 * one) / (60 * one) = (t / (60 * one)) mod 60) as Em.
  { replace (3600 * one) with (60 * (60 * one)) by lia.
    apply mod_div_units; lia. }
  pose proof (Z.mod_pos_bound (t / (60 * one)) 60 ltac:(lia)) as Hm.
  rewrite (float_floor_div_int t 3600) by lia.
  rewrite (float_floor_div_int (t mod (3600 * one)) 60) by lia.
  rewrite !to_int_int, Em. unfold to_int.
  rewrite (Z.div_div t one 3600), (Z.div_div t one 60) by lia.
  rewrite (Z.mul_comm one 3600), (Z.mul_comm one 60). reflexivity.
Qed.

Lemma vtt_millis_mod t :
  0 <= t -> vtt_millis t = rne (t mod (60 * one) * 1000) one.
Proof.
  intros Ht. pose proof one_pos. unfold vtt_millis.
  rewrite (of_int_exact 60) by lia.
  unfold float_rem, fmod. rewrite Z.rem_mod_nonneg by lia. reflexivity.
Qed.

Lemma str_of_nonneg_two i :
  0 <= i < 100 ->
  str_of_nonneg i
  = if i <? 10 then String (digit_char i) "" else two_digits i.
Proof.
  intros Hi.
  assert (List.forallb
            (fun n => String.eqb (str_of_nonneg (Z.of_nat n))
                        (if Z.of_nat n <? 10 then String (digit_char (Z.of_nat n)) ""
                         else two_digits (Z.of_nat n)))
            (List.seq 0 100) = true) as Hall by (vm_compute; reflexivity).
  rewrite List.forallb_forall in Hall. specialize (Hall (Z.to_nat i)).
  rewrite Z2Nat.id in Hall by lia.
  apply String.eqb_eq, Hall, List.in_seq. lia.
Qed.

Lemma zfill_6_short c rest :
  String.length rest = 4%nat -> zfill 6 (String c rest) = String "0" (String c rest).
Proof. intros Hl. unfold zfill. cbn [String.length]. rewrite Hl. reflexivity. Qed.

Lemma zfill_6_full c1 c2 rest :
  String.length rest = 4%nat -> zfill 6 (String c1 (String c2 rest)) = String c1 (String c2 rest).
Proof. intros Hl. unfold zfill. cbn [String.length]. rewrite Hl. reflexivity. Qed.

(** '%06.3f' of a value that rounds to less than 100 *)
Lemma format_0f_6_3 x :
  0 <= rne (x * 1000) one < 100000 ->
  format_0f 6 3 x
  = (two_digits (rne (x * 1000) one / 1000) ++ "."
       ++ three_digits (rne (x * 1000) one mod 1000))%string.
Proof.
  intros Hms. unfold format_0f.
  change (10 ^ Z.of_nat 3) with 1000.
  set (ms := rne (x * 1000) one) in *.
  assert (0 <= ms / 1000 < 100) as Hi.
  { split; [apply Z.div_pos; lia | apply Z.div_lt_upper_bound; lia]. }
  pose proof (Z.mod_pos_bound ms 1000 ltac:(lia)) as Hf.
  assert (zfill 3 (str_of_nonneg (ms mod 1000)) = three_digits (ms mod 1000)) as ->.
  { pose proof (format_0d_three (ms mod 1000) Hf) as E. unfold format_0d in E.
    assert ((ms mod 1000 <? 0) = false) as E0 by (apply Z.ltb_ge; lia).
    rewrite E0 in E. exact E. }
  rewrite (str_of_nonneg_two _ Hi).
  destruct (ms / 1000 <? 10) eqn:E10.
  - apply Z.ltb_lt in E10.
    change (String (digit_char (ms / 1000)) "" ++ "." ++ three_digits (ms mod 1000))%string
      with (String (digit_char (ms / 1000)) (String "." (three_digits (ms mod 1000)))).
    rewrite zfill_6_short by reflexivity.
    unfold two_digits at 1.
    rewrite (Z.div_small (ms / 1000) 10), (Z.mod_small (ms / 1000) 10) by lia.
    reflexivity.
  - change (two_digits (ms / 1000) ++ "." ++ three_digits (ms mod 1000))%string
      with (String (digit_char (ms / 1000 / 10))
              (String (digit_char (ms / 1000 mod 10))
                 (String "." (three_digits (ms mod 1000))))).
    apply zfill_6_full. reflexivity.
Qed.

Lemma vtt_shape_chars h1 h2 m1 m2 s1 s2 f1 f2 f3 :
  is_digit h1 = true -> is_digit h2 = true -> is_digit m1 = true ->
  is_digit m2 = true -> is_digit s1 = true -> is_digit s2 = true ->
  is_digit f1 = true -> is_digit f2 = true -> is_digit f3 = true ->
  is_vtt_timestamp
    (String h1 (String h2 (String ":" (String m1 (String m2 (String ":"
       (String s1 (String s2 (String "." (String f1 (String f2 (String f3 ""))))))))))))
  = true.
Proof.
  intros H1 H2 H3 H4 H5 H6 H7 H8 H9. unfold is_vtt_timestamp.
  cbn [list_ascii_of_string List.forallb].
  rewrite H1, H2, H3, H4, H5, H6, H7, H8, H9. reflexivity.
Qed.

Lemma vtt_shape h m s ms :
  0 <= h < 100 -> 0 <= m < 100 -> 0 <= s < 100 -> 0 <= ms < 1000 ->
  is_vtt_timestamp
    (two_digits h ++ ":" ++ two_digits m ++ ":" ++ two_digits s ++ "." ++ three_digits ms)
  = true.
Proof.
  intros Hh Hm Hs Hms.
  assert (forall n, 0 <= n < 100 -> 0 <= n / 10 <= 9 /\ 0 <= n mod 10 <= 9) as H2.
  { intros n Hn. pose proof (Z.mod_pos_bound n 10 ltac:(lia)).
    pose proof (Z.div_pos n 10 ltac:(lia) ltac:(lia)).
    pose proof (Z.div_lt_upper_bound n 10 10 ltac:(lia) ltac:(lia)). lia. }
  assert (0 <= ms / 100 <= 9).
  { pose proof (Z.div_pos ms 100 ltac:(lia) ltac:(lia)).
    pose proof (Z.div_lt_upper_bound ms 100 10 ltac:(lia) ltac:(lia)). lia. }
  pose proof (Z.mod_pos_bound ms 100 ltac:(lia)).
  exact (vtt_shape_chars
           (digit_char (h / 10)) (digit_char (h mod 10))
           (digit_char (m / 10)) (digit_char (m mod 10))
           (digit_char (s / 10)) (digit_char (s mod 10))
           (digit_char (ms / 100)) (digit_char (ms mod 100 / 10))
           (digit_char (ms mod 100 mod 10))
           (is_digit_digit_char _ (proj1 (H2 h Hh)))
           (is_digit_digit_char _ (proj2 (H2 h Hh)))
           (is_digit_digit_char _ (proj1 (H2 m Hm)))
           (is_digit_digit_char _ (proj2 (H2 m Hm)))
           (is_digit_digit_char _ (proj1 (H2 s Hs)))
           (is_digit_digit_char _ (proj2 (H2 s Hs)))
           (is_digit_digit_char (ms / 100) ltac:(lia))
           (is_digit_digit_char _ (proj1 (H2 (ms mod 100) ltac:(lia))))
           (is_digit_digit_char _ (proj2 (H2 (ms mod 100) ltac:(lia))))).
Qed.

(** X20: for a float [t] below 360000 s whose seconds within the minute
    round to less than 60.000, [sec_to_vtt t] has the form HH:MM:SS.mmm.
    The seconds and milliseconds come from one rounding of the exact
    remainder t % 60 to three decimals, so the time shown is within half a
    millisecond of [t]. *)
Theorem sec_to_vtt_below_100h t :
  is_float t -> t < of_int 360000 -> vtt_millis t < 60000 ->
  sec_to_vtt t
  = (two_digits (to_int t / 3600) ++ ":" ++ two_digits (to_int t / 60 mod 60) ++ ":"
       ++ two_digits (vtt_millis t / 1000) ++ "."
       ++ three_digits (vtt_millis t mod 1000))%string
  /\ is_vtt_timestamp (sec_to_vtt t) = true
  /\ 2 * Z.abs ((60000 * (to_int t / 60) + vtt_millis t) * one - 1000 * t) <= one.
Proof.
  intros Hf Ht Hms. rewrite (of_int_exact 360000) in Ht by lia.
  pose proof one_pos as Hone. pose proof Hf as [[Ht0 _] _].
  rewrite (vtt_millis_mod t Ht0) in *.
  set (r := t mod (60 * one)) in *.
  pose proof (Z.mod_pos_bound t (60 * one) ltac:(lia)) as Hr. fold r in Hr.
  assert (0 <= rne (r * 1000) one) as Hms0 by (apply rne_nonneg; lia).
  set (ms := rne (r * 1000) one) in *.
  assert (0 <= to_int t < 360000) as Hu.
  { unfold to_int. split; [apply Z.div_pos; lia|].
    apply Z.div_lt_upper_bound; lia. }
  assert (0 <= to_int t / 3600 < 100) as Hh.
  { split; [apply Z.div_pos; lia | apply Z.div_lt_upper_bound; lia]. }
  pose proof (Z.mod_pos_bound (to_int t / 60) 60 ltac:(lia)) as Hm.
  assert (0 <= ms / 1000 < 60) as Hs.
  { split; [apply Z.div_pos; lia | apply Z.div_lt_upper_bound; lia]. }
  pose proof (Z.mod_pos_bound ms 1000 ltac:(lia)) as Hfr.
  assert (sec_to_vtt t
          = (two_digits (to_int t / 3600) ++ ":" ++ two_digits (to_int t / 60 mod 60)
               ++ ":" ++ two_digits (ms / 1000) ++ "."
               ++ three_digits (ms mod 1000))%string) as E.
  { rewrite sec_to_vtt_fields by lia. fold r.
    rewrite !format_0d_two by lia.
    rewrite format_0f_6_3 by (fold ms; lia). reflexivity. }
  split; [exact E|]. split; [rewrite E; apply vtt_shape; lia|].
  pose proof (rne_error (r * 1000) one Hone) as Hrnd. fold ms in Hrnd.
  assert (to_int t / 60 = t / (60 * one)) as Eq.
  { unfold to_int. rewrite Z.div_div by lia. f_equal; lia. }
  pose proof (Z.div_mod t (60 * one) ltac:(lia)) as Et. fold r in Et.
  rewrite Eq. lia.
Qed.

Lemma srt_cues_app a b : forall i,
  srt_cues i (a ++ b)
  = (srt_cues i a ++ srt_cues (i + Z.of_nat (length a)) b)%string.
Proof.
  induction a as [|s a IH]; intros i.
  - cbn [app srt_cues length]. rewrite Z.add_0_r. reflexivity.
  - cbn [app srt_cues]. rewrite IH, !string_app_assoc.
    replace (i + 1 + Z.of_nat (length a)) with (i + Z.of_nat (length (s :: a)))
      by (cbn [length]; lia).
    reflexivity.
Qed.

Lemma vtt_cues_app a b : vtt_cues (a ++ b) = (vtt_cues a ++ vtt_cues b)%string.
Proof.
  induction a as [|s a IH]; [reflexivity|].
  cbn [app vtt_cues]. rewrite IH, !string_app_assoc. reflexivity.
Qed.

Lemma txt_lines_app a b : txt_lines (a ++ b) = (txt_lines a ++ txt_lines b)%string.
Proof.
  induction a as [|s a IH]; [reflexivity|].
  cbn [app txt_lines]. rewrite IH, !string_app_assoc. reflexivity.
Qed.

Lemma tsv_rows_app a b : tsv_rows (a ++ b) = (tsv_rows a ++ tsv_rows b)%string.
Proof.
  induction a as [|s a IH]; [reflexivity|].
  cbn [app tsv_rows]. rewrite IH, !string_app_assoc. reflexivity.
Qed.

(** X21: what is written for a list of segments followed by another is
    what is written for the first followed by the cues, lines or rows of
    the second, the SRT numbers going on from where the first list ends:
    cue numbers are the positions, from 1.  The WebVTT header is written
    once. *)
Theorem subtitle_cues_append a b :
  srt_content (a ++ b)
  = (srt_content a ++ srt_cues (1 + Z.of_nat (length a)) b)%string
  /\ vtt_content (a ++ b) = (vtt_content a ++ vtt_cues b)%string
  /\ txt_lines (a ++ b) = (txt_lines a ++ txt_lines b)%string
  /\ tsv_rows (a ++ b) = (tsv_rows a ++ tsv_rows b)%string.
Proof.
  split; [apply srt_cues_app|]. split; [|split; [apply txt_lines_app | apply tsv_rows_app]].
  unfold vtt_content. rewrite vtt_cues_app, !string_app_assoc. reflexivity.
Qed.

(** X22: for one input file, output files are written exactly when some
    result was kept as a segment; then, with no format flag given, the four
    files .txt, .tsv, .srt and .vtt are written in this order, and with
    flags given at least one file is.  When nothing was recognised no file
    is written, not even an empty one. *)
Theorem main_outputs_written txt tsv srt vtt results :
  (main_outputs txt tsv srt vtt results = [] <-> List.existsb kept results = false)
  /\ (List.existsb kept results = true -> txt || tsv || srt || vtt = false ->
      List.map fst (main_outputs txt tsv srt vtt results)
      = [".txt"; ".tsv"; ".srt"; ".vtt"]%string).
Proof.
  assert (recognized_segments results = [] <-> List.existsb kept results = false) as Hrec.
  { induction results as [|r rs IH]; [split; reflexivity|].
    rewrite recognized_cons. cbn [List.existsb].
    destruct (kept r) eqn:Hk.
    - rewrite (on_recognized_kept r Hk). split; discriminate.
    - rewrite (on_recognized_dropped r Hk). exact IH. }
  unfold main_outputs, main_formats, transcribe_one_outputs.
  destruct (recognized_segments results) as [|s segs] eqn:Hsegs.
  - split.
    + destruct Hrec as [Hrec _]. specialize (Hrec eq_refl).
      destruct (negb (txt || tsv || srt || vtt)); split; intros _; try reflexivity;
        exact Hrec.
    + intros Hex. destruct Hrec as [Hrec _]. rewrite Hrec in Hex by reflexivity.
      discriminate.
  - assert (List.existsb kept results = true) as Hex.
    { destruct (List.existsb kept results); [reflexivity|].
      destruct Hrec as [_ Hrec]. specialize (Hrec eq_refl). discriminate. }
    split.
    + rewrite Hex. destruct txt, tsv, srt, vtt; split; discriminate.
    + intros _ Hnone. rewrite Hnone. reflexivity.
Qed.

Lemma truthy_some o :
  truthy o = true -> exists s, o = Some s /\ s <> "" /\ or_empty o = s.
Proof.
  destruct o as [s|]; [|discriminate]. cbn [truthy or_empty]. intros Hs.
  exists s. split; [reflexivity|]. split; [|reflexivity].
  intros ->. discriminate.
Qed.

(** X23: a connection configuration is built exactly when SPEECH_KEY is
    set and not empty and so is SPEECH_REGION or SPEECH_ENDPOINT; the
    subscription is then the key, and the endpoint or region passed on is
    not empty.  A missing or empty key is reported first, whatever the
    other two variables are. *)
Theorem make_speech_config_outcome (environ : gmap string string) :
  ((exists config, make_speech_config environ = inr config)
   <-> truthy (environ !! "SPEECH_KEY") = true
       /\ (truthy (environ !! "SPEECH_REGION") = true
           \/ truthy (environ !! "SPEECH_ENDPOINT") = true))
  /\ (truthy (environ !! "SPEECH_KEY") = false ->
      make_speech_config environ = inl (SystemExit "缺少环境变量 SPEECH_KEY"))
  /\ (forall config, make_speech_config environ = inr config ->
      exists key target,
        environ !! "SPEECH_KEY" = Some key /\ key <> ""
        /\ (config = FromEndpoint key target \/ config = FromRegion key target)
        /\ target <> "").
Proof.
  unfold make_speech_config.
  destruct (truthy (environ !! "SPEECH_KEY")) eqn:Hk; cbn [negb].
  2:{ split; [|split].
      - split; [intros [c Hc]; discriminate | intros [Hx _]; discriminate].
      - reflexivity.
      - intros c Hc. discriminate. }
  destruct (truthy_some _ Hk) as (key & Hkey & Hkne & Hkv).
  destruct (truthy (environ !! "SPEECH_ENDPOINT")) eqn:He.
  - rewrite orb_true_r. cbn [negb].
    destruct (truthy_some _ He) as (ep & Hep & Hepne & Hepv).
    split; [|split].
    + split; [intros _; split; [reflexivity | right; reflexivity]
             | intros _; eexists; reflexivity].
    + discriminate.
    + intros c Hc. injection Hc as <-. exists key, ep.
      rewrite Hkv, Hepv. repeat split; try assumption. left. reflexivity.
  - rewrite orb_false_r.
    destruct (truthy (environ !! "SPEECH_REGION")) eqn:Hr; cbn [negb].
    + destruct (truthy_some _ Hr) as (rg & Hrg & Hrgne & Hrgv).
      split; [|split].
      * split; [intros _; split; [reflexivity | left; reflexivity]
               | intros _; eexists; reflexivity].
      * discriminate.
      * intros c Hc. injection Hc as <-. exists key, rg.
        rewrite Hkv, Hrgv. repeat split; try assumption. right. reflexivity.
    + split; [|split].
      * split; [intros [c Hc]; discriminate | intros [_ [Hx|Hx]]; discriminate].
      * discriminate.
      * intros c Hc. discriminate.
Qed.

End SpeechToTextMore.

Module SpeechToTextMoreWitnesses.
Import PyStr PyFloat SpeechToText Recognition RecognitionSpec VttSpec SrtSpec MainSpec
  MoreExamples.
Import SpeechToTextMore.
Local Open Scope string_scope.

Lemma heard_ticks :
  Forall (fun r => (0 <= offset r < 2 ^ 64)%Z /\ (0 <= duration r < 2 ^ 64)%Z) heard.
Proof. repeat constructor; cbn [offset duration]; lia. Qed.

Lemma recognized_times_ordered_witness :
  Forall (fun r => (0 <= offset r < 2 ^ 64)%Z /\ (0 <= duration r < 2 ^ 64)%Z) heard
  /\ Forall (fun s => is_float (start s) /\ is_float (end_ s) /\ (start s <= end_ s)%Z)
       (recognized_segments heard).
Proof.
  split; [exact heard_ticks|].
  exact (recognized_times_ordered heard heard_ticks).
Defined.

Lemma is_float_t_3723_5 : is_float t_3723_5.
Proof.
  unfold is_float. split; [split|]; vm_compute; (reflexivity || discriminate).
Qed.

Lemma sec_to_vtt_below_100h_witness :
  is_float t_3723_5
  /\ (t_3723_5 < of_int 360000)%Z
  /\ (vtt_millis t_3723_5 < 60000)%Z
  /\ sec_to_vtt t_3723_5
     = two_digits (to_int t_3723_5 / 3600) ++ ":"
         ++ two_digits (to_int t_3723_5 / 60 mod 60) ++ ":"
         ++ two_digits (vtt_millis t_3723_5 / 1000) ++ "."
         ++ three_digits (vtt_millis t_3723_5 mod 1000)
  /\ sec_to_vtt t_3723_5 = "01:02:03.500".
Proof.
  assert (t_3723_5 < of_int 360000)%Z as Ht by (vm_compute; reflexivity).
  assert (vtt_millis t_3723_5 < 60000)%Z as Hms by (vm_compute; reflexivity).
  split; [exact is_float_t_3723_5|]. split; [exact Ht|]. split; [exact Hms|].
  split.
  - exact (proj1 (sec_to_vtt_below_100h t_3723_5 is_float_t_3723_5 Ht Hms)).
  - vm_compute. reflexivity.
Defined.

Lemma main_outputs_written_witness :
  List.existsb kept heard = true
  /\ false || false || false || false = false
  /\ List.map fst (main_outputs false false false false heard)
     = [".txt"; ".tsv"; ".srt"; ".vtt"].
Proof.
  split; [reflexivity|]. split; [reflexivity|].
  exact (proj2 (main_outputs_written false false false false heard) eq_refl eq_refl).
Defined.
End SpeechToTextMoreWitnesses.

(** ** The steps of main in azure_ssml_to_wav.py *)

Module SsmlMainFacts.
Import Unicode Re PyStr PyStrSpec Synthesis SynthesisSpec SsmlToWav PrologSpec.
Import SsmlMain SsmlMainSpec PyStrFacts SynthesisFacts SplitMore.
Local Open Scope string_scope.

Lemma truthy_inv o : truthy o = true -> exists s, o = Some s /\ s <> "".
Proof.
  destruct o as [s|]; [|discriminate]. cbn [truthy]. intros Hs.
  exists s. split; [reflexivity|]. intros ->. discriminate.
Qed.

Lemma py_or_cases a b :
  (truthy a = true /\ py_or a b = a) \/ (truthy a = false /\ py_or a b = b).
Proof. unfold py_or. destruct (truthy a); [left | right]; split; reflexivity. Qed.

(** X24: the credentials step of [main], which comes after the parsing
    of the command line, stops the run with status 2 exactly when
    SPEECH_KEY and AZURE_SPEECH_KEY are both unset or empty, and with no
    other status.  Otherwise the key is the first of the two that is not
    empty, and the region is never empty: it is the first non-empty one of
    SPEECH_REGION and AZURE_SPEECH_REGION, or "canadacentral". *)
Theorem credentials_outcome (environ : gmap string string) :
  (credentials environ = inl 2%Z
   <-> truthy (environ !! "SPEECH_KEY") = false
       /\ truthy (environ !! "AZURE_SPEECH_KEY") = false)
  /\ (forall status, credentials environ = inl status -> status = 2%Z)
  /\ (forall key region, credentials environ = inr (key, region) ->
      exists k r,
        key = Some k /\ k <> "" /\ region = Some r /\ r <> ""
        /\ (environ !! "SPEECH_KEY" = Some k
            \/ (truthy (environ !! "SPEECH_KEY") = false
                /\ environ !! "AZURE_SPEECH_KEY" = Some k))
        /\ (environ !! "SPEECH_REGION" = Some r
            \/ (truthy (environ !! "SPEECH_REGION") = false
                /\ environ !! "AZURE_SPEECH_REGION" = Some r)
            \/ (truthy (environ !! "SPEECH_REGION") = false
                /\ truthy (environ !! "AZURE_SPEECH_REGION") = false
                /\ r = "canadacentral"))).
Proof.
  unfold credentials.
  set (key := py_or (environ !! "SPEECH_KEY") (environ !! "AZURE_SPEECH_KEY")).
  set (region := py_or (py_or (environ !! "SPEECH_REGION")
                          (environ !! "AZURE_SPEECH_REGION")) (Some "canadacentral")).
  assert (truthy key = false
          <-> truthy (environ !! "SPEECH_KEY") = false
              /\ truthy (environ !! "AZURE_SPEECH_KEY") = false) as Hkey.
  { subst key.
    destruct (py_or_cases (environ !! "SPEECH_KEY") (environ !! "AZURE_SPEECH_KEY"))
      as [[Ht ->]|[Ht ->]]; rewrite Ht.
    - split; [discriminate | intros [? _]; discriminate].
    - split; [intros ->; split; reflexivity | intros [_ ?]; assumption]. }
  destruct (truthy key) eqn:Hk; cbn [negb].
  - split; [|split].
    + split; [discriminate|]. intros Hx. apply Hkey in Hx. discriminate.
    + discriminate.
    + intros key' region' E. injection E as <- <-.
      destruct (truthy_inv _ Hk) as (k & Ek & Hkne).
      assert (exists r, region = Some r /\ r <> ""
                /\ (environ !! "SPEECH_REGION" = Some r
                    \/ (truthy (environ !! "SPEECH_REGION") = false
                        /\ environ !! "AZURE_SPEECH_REGION" = Some r)
                    \/ (truthy (environ !! "SPEECH_REGION") = false
                        /\ truthy (environ !! "AZURE_SPEECH_REGION") = false
                        /\ r = "canadacentral"))) as (r & Er & Hrne & Hr).
      { subst region.
        destruct (py_or_cases (environ !! "SPEECH_REGION")
                    (environ !! "AZURE_SPEECH_REGION")) as [[Ht E]|[Ht E]]; rewrite E.
        - unfold py_or. rewrite Ht.
          destruct (truthy_inv _ Ht) as (r & Er & Hrne).
          exists r. repeat split; try assumption. left. assumption.
        - unfold py_or at 1.
          destruct (truthy (environ !! "AZURE_SPEECH_REGION")) eqn:Ht2.
          + destruct (truthy_inv _ Ht2) as (r & Er & Hrne).
            exists r. repeat split; try assumption. right. left. split; assumption.
          + exists "canadacentral". repeat split; try discriminate.
            right. right. repeat split; assumption. }
      exists k, r. repeat split; try assumption.
      subst key.
      destruct (py_or_cases (environ !! "SPEECH_KEY") (environ !! "AZURE_SPEECH_KEY"))
        as [[Ht E]|[Ht E]]; rewrite E in Ek.
      * left. exact Ek.
      * right. split; assumption.
  - split; [|split].
    + split; [intros _; apply Hkey; reflexivity | reflexivity].
    + intros status E. injection E as <-. reflexivity.
    + discriminate.
Qed.

Lemma string_app_length (a b : string) :
  String.length (a ++ b) = (String.length a + String.length b)%nat.
Proof. induction a as [|x a IH]; [reflexivity|]. simpl. f_equal. exact IH. Qed.

Lemma string_app_inv_tail (c : string) : forall a b, a ++ c = b ++ c -> a = b.
Proof.
  induction a as [|x a IH]; intros b E.
  - destruct b as [|y b]; [reflexivity|].
    apply (f_equal String.length) in E.
    rewrite !string_app_length in E. cbn [String.length] in E. lia.
  - destruct b as [|y b].
    + apply (f_equal String.length) in E.
      rewrite !string_app_length in E. cbn [String.length] in E. lia.
    + cbn [append] in E. injection E as -> E. rewrite (IH b E). reflexivity.
Qed.

Lemma string_app_inv_head (c : string) : forall a b, c ++ a = c ++ b -> a = b.
Proof.
  induction c as [|x c IH]; intros a b E; [exact E|].
  cbn [append] in E. injection E as E. apply IH, E.
Qed.

Lemma digits_value_zeros k s acc :
  acc = 0%Z -> digits_value acc (zeros k ++ s) = digits_value 0 s.
Proof.
  intros ->. induction k as [|k IH]; [reflexivity|].
  cbn [zeros append digits_value]. exact IH.
Qed.

Lemma format_0d_inj width i j :
  (0 <= i)%Z -> (0 <= j)%Z -> format_0d width i = format_0d width j -> i = j.
Proof.
  intros Hi Hj E. unfold format_0d in E.
  assert ((i <? 0)%Z = false) as Ei by (apply Z.ltb_ge; lia).
  assert ((j <? 0)%Z = false) as Ej by (apply Z.ltb_ge; lia).
  rewrite Ei, Ej in E. unfold zfill in E.
  apply (f_equal (digits_value 0)) in E.
  rewrite !digits_value_zeros, !str_of_nonneg_value in E by (reflexivity || lia).
  exact E.
Qed.

Lemma part_name_inj stem i j :
  (0 <= i)%Z -> (0 <= j)%Z -> part_name stem i = part_name stem j -> i = j.
Proof.
  intros Hi Hj E. unfold part_name in E.
  apply string_app_inv_head, string_app_inv_head, string_app_inv_tail in E.
  apply (format_0d_inj 2); assumption.
Qed.

Lemma name_parts_snd {A : Type} stem (parts : list A) : forall i,
  List.map snd (name_parts stem i parts) = parts.
Proof.
  induction parts as [|p rest IH]; intros i; [reflexivity|].
  cbn [name_parts List.map snd]. rewrite IH. reflexivity.
Qed.

Lemma name_parts_fst {A : Type} stem (parts : list A) : forall i x,
  x ∈ List.map fst (name_parts stem i parts) ->
  exists j, (i <= j)%Z /\ x = part_name stem j.
Proof.
  induction parts as [|p rest IH]; intros i x Hx; cbn [name_parts List.map fst] in Hx.
  - apply elem_of_nil in Hx. destruct Hx.
  - apply elem_of_cons in Hx as [->|Hx].
    + exists i. split; [lia | reflexivity].
    + destruct (IH _ _ Hx) as (j & Hj & ->). exists j. split; [lia | reflexivity].
Qed.

Lemma name_parts_NoDup {A : Type} stem (parts : list A) : forall i,
  (0 <= i)%Z -> NoDup (List.map fst (name_parts stem i parts)).
Proof.
  induction parts as [|p rest IH]; intros i Hi; cbn [name_parts List.map fst].
  - constructor.
  - constructor; [|apply IH; lia].
    intros Hin. apply name_parts_fst in Hin as (j & Hj & E).
    apply part_name_inj in E; lia.
Qed.

Section SplitStepFacts.
Context `{WordTable}.

(** X25: the split step ends the run with status 4 exactly when the
    document has no root; otherwise it writes at least one part file, the
    chunks of the split in order, under names that are all different: no
    part overwrites another, however many there are. *)
Theorem split_step_outcome stem ssml_text max_voices :
  (no_root ssml_text /\ split_step stem ssml_text max_voices = inl 4%Z)
  \/ (~ no_root ssml_text
      /\ exists part parts,
           split_ssml_by_voice ssml_text max_voices = inr (part :: parts)
           /\ exists files,
                split_step stem ssml_text max_voices
                = inr ((part_name stem 1, part) :: files)
                /\ List.map snd files = parts
                /\ NoDup (part_name stem 1 :: List.map fst files)).
Proof.
  unfold split_step.
  destruct (extract_speak_body ssml_text) as [e|[[o body] c]] eqn:E.
  - left. destruct (extract_speak_body_error _ _ E) as [-> Hn].
    split; [exact Hn|]. unfold split_ssml_by_voice. rewrite E. reflexivity.
  - right. split; [apply (extract_speak_body_found _ _ E)|].
    destruct (split_chunks_nonempty _ max_voices _ _ _ E) as (part & parts & ->).
    exists part, parts. split; [reflexivity|].
    exists (name_parts stem (1 + 1) parts). split; [reflexivity|].
    split; [apply name_parts_snd|].
    apply (name_parts_NoDup stem (part :: parts) 1). lia.
Qed.
End SplitStepFacts.

Lemma str_lt_app p a b : str_lt (p ++ a) (p ++ b) = str_lt a b.
Proof.
  induction p as [|x p IH]; [reflexivity|].
  change (str_lt (String x (p ++ a)) (String x (p ++ b)) = str_lt a b).
  cbn [str_lt]. rewrite Nat.ltb_irrefl. exact IH.
Qed.

(** X26: up to 99 parts the part files sort, as strings, in the order of
    their numbers; from 100 on they do not: the name of part j, for
    100 <= j < 10 * i, sorts before that of part i. *)
Theorem part_name_order stem i j :
  ((1 <= i < j)%Z -> (j <= 99)%Z ->
   str_lt (part_name stem i) (part_name stem j) = true)
  /\ ((10 <= i <= 99)%Z -> (100 <= j < 10 * i)%Z ->
      str_lt (part_name stem j) (part_name stem i) = true).
Proof.
  unfold part_name. rewrite !str_lt_app. split.
  - intros Hij Hj.
    assert (List.forallb
              (fun a => List.forallb
                 (fun b => (b <=? a)%nat
                           || str_lt (format_0d 2 (Z.of_nat a) ++ ".ssml")
                                (format_0d 2 (Z.of_nat b) ++ ".ssml"))
                 (List.seq 1 99))
              (List.seq 1 99) = true) as Hall by (vm_compute; reflexivity).
    rewrite List.forallb_forall in Hall.
    specialize (Hall (Z.to_nat i) ltac:(apply List.in_seq; lia)).
    rewrite List.forallb_forall in Hall.
    specialize (Hall (Z.to_nat j) ltac:(apply List.in_seq; lia)).
    rewrite !Z2Nat.id in Hall by lia.
    apply orb_true_iff in Hall as [Hle|Hlt]; [|exact Hlt].
    apply Nat.leb_le in Hle. lia.
  - intros Hi Hj.
    assert (List.forallb
              (fun a => List.forallb
                 (fun b => (10 * a <=? b)%nat
                           || str_lt (format_0d 2 (Z.of_nat b) ++ ".ssml")
                                (format_0d 2 (Z.of_nat a) ++ ".ssml"))
                 (List.seq 100 890))
              (List.seq 10 90) = true) as Hall by (vm_compute; reflexivity).
    rewrite List.forallb_forall in Hall.
    specialize (Hall (Z.to_nat i) ltac:(apply List.in_seq; lia)).
    rewrite List.forallb_forall in Hall.
    specialize (Hall (Z.to_nat j) ltac:(apply List.in_seq; lia)).
    rewrite !Z2Nat.id in Hall by lia.
    apply orb_true_iff in Hall as [Hle|Hlt]; [|exact Hlt].
    apply Nat.leb_le in Hle. lia.
Qed.

End SsmlMainFacts.

Module SsmlMainWitnesses.
Import PyStr SsmlMain SsmlMainFacts.
Local Open Scope string_scope.

Lemma part_name_order_witness :
  (1 <= 9 < 10)%Z /\ (10 <= 99)%Z
  /\ str_lt (part_name "lesson" 9) (part_name "lesson" 10) = true
  /\ (10 <= 11 <= 99)%Z /\ (100 <= 100 < 10 * 11)%Z
  /\ str_lt (part_name "lesson" 100) (part_name "lesson" 11) = true.
Proof.
  split; [lia|]. split; [lia|]. split.
  - apply (proj1 (part_name_order "lesson" 9 10)); lia.
  - split; [lia|]. split; [lia|].
    apply (proj2 (part_name_order "lesson" 11 100)); lia.
Defined.
End SsmlMainWitnesses.

(** ** The loop over the parts in azure_ssml_to_wav.py *)

Module PartsLoop.
Import PyStr Synthesis SynthesisSpec SsmlMain SsmlMainSpec SynthesisFacts.
Local Open Scope list_scope.
Local Open Scope nat_scope.

Lemma called_pair k evs :
  called (List.map (pair k) evs) = List.map (fun _ => k) (speaks evs).
Proof.
  unfold called, speaks.
  induction evs as [|[a|q] evs IH]; simpl; [reflexivity | f_equal; exact IH | exact IH].
Qed.

Lemma called_app t1 t2 : called (t1 ++ t2) = called t1 ++ called t2.
Proof. unfold called. apply omap_app. Qed.

(** An exception leaves the loop only from a cancelled attempt, on which
    [speechsdk.CancellationDetails] raised it. *)
Lemma attempt_loop_raise_inv remote retries : forall iterations attempt e,
  (attempt_loop remote retries iterations attempt).1 = inl e ->
  exists a,
    (attempt < a <= attempt + Z.of_nat iterations)%Z /\ remote a = Canceled (inl e).
Proof.
  induction iterations as [|it IH]; intros attempt e; [discriminate|].
  cbn [attempt_loop].
  assert ((attempt_loop remote retries it (attempt + 1)%Z).1 = inl e ->
          exists a,
            (attempt < a <= attempt + Z.of_nat (S it))%Z /\ remote a = Canceled (inl e))
    as Hrest.
  { intros E. destruct (IH _ _ E) as (a & Ha & Hc). exists a. split; [lia | exact Hc]. }
  destruct (remote (attempt + 1)%Z) as [| |[e'|[code err]]|] eqn:Er.
  - destruct (attempt_loop remote retries it (attempt + 1)%Z); exact Hrest.
  - discriminate.
  - intros [= <-]. exists (attempt + 1)%Z. split; [lia | exact Er].
  - destruct (transient code err); [|discriminate].
    destruct (attempt + 1 <=? retries)%Z; [|discriminate].
    destruct (attempt_loop remote retries it (attempt + 1)%Z); exact Hrest.
  - destruct (attempt_loop remote retries it (attempt + 1)%Z); exact Hrest.
Qed.

(** The loop from position [k] on. *)
Lemma synthesize_parts_from wav_path_of remote : forall part_paths k wav_parts,
  let r := synthesize_parts wav_path_of true remote k part_paths wav_parts in
  ((exists n,
      n < length part_paths
      /\ (forall m, m < n -> part_result remote (k + m) = inr true)
      /\ ((part_result remote (k + n) = inr false /\ r.1 = Exits 6)
          \/ (exists e a,
                part_result remote (k + n) = inl e /\ r.1 = Raised e
                /\ (1 <= a <= 3)%Z /\ remote (k + n) a = Canceled (inl e)))
      /\ Forall (fun j => k <= j <= k + n) (called r.2))
   \/ ((forall n, n < length part_paths -> part_result remote (k + n) = inr true)
       /\ r.1 = Completes (wav_parts ++ List.map wav_path_of part_paths)))
  /\ length (called r.2) <= 3 * length part_paths.
Proof.
  induction part_paths as [|pp rest IH]; intros k wav_parts.
  - cbn. split; [|lia]. right. split; [intros n Hn; lia|].
    rewrite app_nil_r. reflexivity.
  - cbn [synthesize_parts].
    pose proof (attempt_loop_calls (remote k) 2 3 0) as Hcalls.
    pose proof (attempt_loop_raise_inv (remote k) 2 3 0) as Hraise.
    assert (part_result remote k
            = match (attempt_loop (remote k) 2 3 0).1 with
              | inl e => inl e
              | inr ok => inr ok
              end) as Hres.
    { unfold part_result, synthesize_to_wav. change (Z.to_nat (2 + 1)) with 3.
      destruct (attempt_loop (remote k) 2 3 0) as [[e|ok] evs]; reflexivity. }
    unfold synthesize_to_wav, synthesize_events. change (Z.to_nat (2 + 1)) with 3.
    destruct (attempt_loop (remote k) 2 3 0) as [[e|ok] evs]; cbn [fst snd] in *.
    + rewrite called_pair. split.
      * left. exists 0. cbn [length]. split; [lia|].
        rewrite Nat.add_0_r. split; [intros m Hm; lia|]. split.
        -- right. destruct (Hraise e eq_refl) as (a & Ha & Hc).
           exists e, a. repeat split; try assumption; lia.
        -- apply Forall_forall. intros j Hj.
           apply list_elem_of_In, List.in_map_iff in Hj as (? & <- & _). lia.
      * rewrite length_map. cbn [length]. lia.
    + destruct ok; cbn [negb].
      * specialize (IH (S k) (wav_parts ++ [wav_path_of pp])).
        destruct (synthesize_parts wav_path_of true remote (S k) rest
                    (wav_parts ++ [wav_path_of pp])) as [r' trace'].
        cbn [fst snd] in *. destruct IH as [IH Hlen].
        rewrite called_app, called_pair. split.
        -- destruct IH as [(n & Hn & Hgood & Hbad & Hin)|[Hall Hr]].
           ++ left. exists (S n). cbn [length]. split; [lia|].
              replace (k + S n) with (S k + n) by lia. split; [|split; [exact Hbad|]].
              ** intros [|m] Hm; [rewrite Nat.add_0_r; exact Hres|].
                 replace (k + S m) with (S k + m) by lia. apply Hgood. lia.
              ** apply Forall_app. split.
                 --- apply Forall_forall. intros j Hj.
                     apply list_elem_of_In, List.in_map_iff in Hj as (? & <- & _). lia.
                 --- eapply Forall_impl; [exact Hin|]. intros j Hj. cbn beta in Hj. lia.
           ++ right. split.
              ** intros [|n] Hn; [rewrite Nat.add_0_r; exact Hres|].
                 replace (k + S n) with (S k + n) by lia. apply Hall.
                 cbn [length] in Hn. lia.
              ** rewrite Hr. cbn [List.map]. rewrite <- app_assoc. reflexivity.
        -- rewrite length_app, length_map. cbn [length]. lia.
      * cbn [fst snd]. rewrite called_pair. split.
        -- left. exists 0. cbn [length]. split; [lia|].
           rewrite Nat.add_0_r. split; [intros m Hm; lia|]. split.
           ++ left. split; [exact Hres | reflexivity].
           ++ apply Forall_forall. intros j Hj.
              apply list_elem_of_In, List.in_map_iff in Hj as (? & <- & _). lia.
        -- rewrite length_map. cbn [length]. lia.
Qed.


(** A run in which the service cancels the second part: the first part is
    synthesized, the exception of the second ends the run, and the third
    part is never sent. *)
Example cancelled_part_ends_run :
  synthesize_parts (fun pp => pp ++ ".wav")%string true
    (fun k => if Nat.eqb k 1 then Examples.rejected
              else fun _ => SynthesizingAudioCompleted)
    0 ["a.part01.ssml"; "a.part02.ssml"; "a.part03.ssml"]%string []
  = (Raised Examples.sdk_error, [(0, Speak 1); (1, Speak 1)]).
Proof. reflexivity. Qed.

End PartsLoop.

(** ** From the split to the concatenation *)

Module Pipeline.
Import Unicode Re PyStr Synthesis SsmlToWav Wav SsmlMain SsmlMainSpec.
Import SplitMore PartsLoop WavMore.

Section Run.
Context `{WordTable}.

(** X28: in a run that splits, when the loop over the parts completes,
    every part was synthesized with the result True, and the list handed
    to [concat_wavs] has one WAV path for each part file, in the order of
    the parts, starting with that of part 01.  The list is not empty, so
    the concatenation gets past its test for an empty list and opens the
    WAV of part 01 first: when that file does not exist, it raises the
    FileNotFoundError for it and changes no file. *)
Theorem concat_after_split stem ssml_text max_voices files wav_path_of remote
  wav_parts trace out_wav (fs : gmap string file) :
  split_step stem ssml_text max_voices = inr files ->
  synthesize_parts wav_path_of true remote 0 (List.map fst files) []
  = (Completes wav_parts, trace) ->
  wav_parts = List.map wav_path_of (List.map fst files)
  /\ wav_parts <> []
  /\ head wav_parts = Some (wav_path_of (part_name stem 1))
  /\ (forall n, (n < length files)%nat -> part_result remote n = inr true)
  /\ (fs !! wav_path_of (part_name stem 1) = None ->
      concat_wavs wav_parts out_wav fs
      = (Some (FileNotFoundError (wav_path_of (part_name stem 1))), fs)).
Proof.
  intros Hsplit Hloop.
  assert (exists text rest, files = (part_name stem 1, text) :: rest)
    as (text & more & Hfiles).
  { unfold split_step in Hsplit.
    destruct (extract_speak_body ssml_text) as [e|[[o body] c]] eqn:E.
    - unfold split_ssml_by_voice in Hsplit. rewrite E in Hsplit. discriminate.
    - destruct (split_chunks_nonempty _ max_voices _ _ _ E) as (part & parts & Hp).
      rewrite Hp in Hsplit. injection Hsplit as <-.
      eexists _, _. reflexivity. }
  destruct (synthesize_parts_from wav_path_of remote (List.map fst files) 0 [])
    as [Hcases _].
  rewrite Hloop in Hcases. cbn [fst snd] in Hcases.
  destruct Hcases as [(n & _ & _ & [[_ Hr]|(e & a & _ & Hr & _)] & _)|[Hall Hr]];
    [discriminate | discriminate |].
  injection Hr as ->. cbn [app].
  split; [reflexivity|]. rewrite Hfiles. cbn [List.map fst].
  split; [discriminate|]. split; [reflexivity|]. split.
  { intros n Hn. apply Hall. rewrite length_map, Hfiles. exact Hn. }
  intros Hp. unfold concat_wavs. cbn [read_parts]. rewrite Hp. reflexivity.
Qed.

End Run.
End Pipeline.

Module PipelineWitnesses.
Import Unicode Re PyStr Synthesis SsmlToWav Wav SsmlMain SsmlMainSpec Examples Pipeline.
Local Open Scope string_scope.

Lemma concat_after_split_witness :
  exists files wav_parts trace,
    split_step (H := ascii_words) "lesson" three_voices 2 = inr files
    /\ synthesize_parts (fun pp => pp ++ ".wav") true
         (fun _ _ => SynthesizingAudioCompleted) 0 (List.map fst files) []
       = (Completes wav_parts, trace)
    /\ wav_parts = ["lesson.part01.ssml.wav"; "lesson.part02.ssml.wav"]
    /\ concat_wavs wav_parts "out.wav" disk
       = (Some (FileNotFoundError "lesson.part01.ssml.wav"), disk).
Proof.
  destruct (split_step (H := ascii_words) "lesson" three_voices 2)
    as [status|files] eqn:Es; [vm_compute in Es; discriminate|].
  destruct (synthesize_parts (fun pp => pp ++ ".wav") true
              (fun _ _ => SynthesizingAudioCompleted) 0 (List.map fst files) [])
    as [r trace] eqn:El.
  assert (r = Completes ["lesson.part01.ssml.wav"; "lesson.part02.ssml.wav"]) as Er.
  { vm_compute in Es. injection Es as <-. vm_compute in El. injection El as <- _.
    reflexivity. }
  subst r.
  exists files, ["lesson.part01.ssml.wav"; "lesson.part02.ssml.wav"], trace.
  split; [reflexivity|]. split; [exact El|]. split; [reflexivity|].
  exact (proj2 (proj2 (proj2 (proj2
           (concat_after_split (H := ascii_words) "lesson" three_voices 2 files
              (fun pp => pp ++ ".wav") (fun _ _ => SynthesizingAudioCompleted)
              _ trace "out.wav" disk Es El)))) ltac:(reflexivity)).
Defined.
End PipelineWitnesses.
